(** * prompt-catalog: the catalog loader and the validator

    A shallow embedding of [prompt_catalog_mcp/catalog.py] and
    [prompt_catalog_mcp/validator.py], and the properties of the catalog
    specification checked against it.

    Conventions of the embedding.

    - Text ([str]) is [string], read as a sequence of code points
      below 256; the character classes used by the code ([\w],
      [str.strip], [str.lower]) are the ones Python applies to these
      code points, so [\w] holds é and ² besides [[A-Za-z0-9_]].
    - A Python exception is a value of [exn], and code that can raise
      returns a [result].
    - A [dict] is an insertion-ordered association list ([Dict.t]),
      which is what iteration over [.values()] and [.items()] observes.
    - The records of [catalog.py] carry the types their dataclass
      annotations declare ([id: str], [tags: list[str]], ...).  The
      validator works on the raw documents, which are values of [pyval].
    - The third-party code (PyYAML, [json], [jsonschema]) is a parameter,
      the class [Libraries].
    - A catalog root is a [Root]: the files of each directory the code
      scans, with their text as [read_text] decodes it.  The lookups
      of [server.py] and [cli.py] that work on the catalog are embedded
      with it. *)

From Stdlib Require Import ZArith Ascii String.
From stdpp Require Import gmap strings list sorting pretty.

(* ================================================================== *)
(** * Exceptions and results *)

(** The exceptions the code meets.  The two parser errors carry the
    text [str(e)] that the validator copies into its messages. *)
Inductive exn : Type :=
| KeyError
| TypeError
| ValueError
| AttributeError
| YAMLError (text : string)
| JSONDecodeError (text : string).

Inductive result (A : Type) : Type :=
| Ok (a : A)
| Raise (e : exn).
Arguments Ok {A} a.
Arguments Raise {A} e.

Definition bind {A B} (r : result A) (k : A → result B) : result B :=
  match r with
  | Ok a => k a
  | Raise e => Raise e
  end.

Notation "x ←! r ; k" := (bind r (fun x => k))
  (at level 100, r at next level, right associativity).

(** [for x in l: acc = step acc x], where the body can raise. *)
Fixpoint for_each {A S} (step : S → A → result S) (l : list A) (s : S)
  : result S :=
  match l with
  | [] => Ok s
  | x :: l' => s' ←! step s x; for_each step l' s'
  end.

(** A list comprehension whose element expression can raise. *)
Fixpoint comprehension {A B} (f : A → result B) (l : list A)
  : result (list B) :=
  match l with
  | [] => Ok []
  | x :: l' => y ←! f x; ys ←! comprehension f l'; Ok (y :: ys)
  end.

(* ================================================================== *)
(** * Text *)

Module Str.

Definition in_range (lo hi : N) (c : ascii) : bool :=
  ((lo <=? N_of_ascii c) && (N_of_ascii c <=? hi))%N.

(** [str.isalnum] on one character.  Below 256 the alphanumeric
    characters are the ASCII letters and digits, the two ordinal
    indicators (170, 186), the superscripts and fractions (178, 179,
    185, 188-190), the micro sign (181) and the letters from 192 to 255
    without the signs of multiplication (215) and division (247). *)
Definition is_alnum (c : ascii) : bool :=
  in_range 97 122 c || in_range 65 90 c || in_range 48 57 c
  || in_range 170 170 c || in_range 178 179 c || in_range 181 181 c
  || in_range 185 186 c || in_range 188 190 c
  || in_range 192 214 c || in_range 216 246 c || in_range 248 255 c.

(** [\w] in a pattern on [str], without [re.ASCII]: an alphanumeric
    character or the underscore. *)
Definition is_word_char (c : ascii) : bool :=
  is_alnum c || Ascii.eqb c "_".

(** [str.isspace]: tab to carriage return, the four separators 28-31,
    the space, the next-line control (133) and the no-break space
    (160). *)
Definition is_space (c : ascii) : bool :=
  in_range 9 13 c || in_range 28 31 c || Ascii.eqb c " "
  || in_range 133 133 c || in_range 160 160 c.

(** [str.lower] on one character: the capital letters, ASCII and from
    192 to 222 without the multiplication sign, move 32 places up. *)
Definition lower_char (c : ascii) : ascii :=
  if in_range 65 90 c || in_range 192 214 c || in_range 216 222 c
  then ascii_of_N (N_of_ascii c + 32) else c.

(** [s.lower()] *)
Fixpoint lower (s : string) : string :=
  match s with
  | "" => ""
  | String c r => String (lower_char c) (lower r)
  end.

(** [s.startswith(p)] *)
Definition startswith (s p : string) : bool := String.prefix p s.

(** [s[n:]] *)
Fixpoint drop (n : nat) (s : string) : string :=
  match n, s with
  | O, _ => s
  | S n', String _ r => drop n' r
  | S _, "" => ""
  end.

(** [s.endswith(p)] *)
Definition endswith (s p : string) : bool :=
  (String.length p <=? String.length s)
  && String.eqb (drop (String.length s - String.length p) s) p.

(** [s[i:j]] for [0 <= i], [0 <= j] *)
Definition slice (i j : nat) (s : string) : string :=
  String.substring i (j - i) s.

(** [s.index(sub, start)] *)
Definition index (s sub : string) (start : nat) : result nat :=
  match String.index start sub s with
  | Some i => Ok i
  | None => Raise ValueError
  end.

(** [sub in s] *)
Definition contains (sub s : string) : bool :=
  match String.index 0 sub s with
  | Some _ => true
  | None => false
  end.

Fixpoint lstrip (s : string) : string :=
  match s with
  | String c r => if is_space c then lstrip r else s
  | "" => ""
  end.

Fixpoint rstrip (s : string) : string :=
  match s with
  | String c r =>
      match rstrip r with
      | "" => if is_space c then "" else String c ""
      | r' => String c r'
      end
  | "" => ""
  end.

(** [s.strip()] *)
Definition strip (s : string) : string := rstrip (lstrip s).

(** [sep.join(l)] *)
Definition join (sep : string) (l : list string) : string :=
  String.concat sep l.

(** [s.replace(old, new)] scans [s] from the left; where [old] starts it
    emits [new] and jumps over the occurrence, elsewhere it copies one
    character.  [skip] counts the characters of the current occurrence
    that are still to be jumped over. *)
Fixpoint replace_go (old new : string) (skip : nat) (s : string) : string :=
  match s with
  | "" => ""
  | String c r =>
      match skip with
      | S k => replace_go old new k r
      | O =>
          if String.prefix old s
          then new +:+ replace_go old new (String.length old - 1) r
          else String c (replace_go old new 0 r)
      end
  end.

(** With an empty [old], Python puts [new] before every character and at
    the end. *)
Fixpoint interleave (new s : string) : string :=
  match s with
  | "" => new
  | String c r => new +:+ String c (interleave new r)
  end.

Definition replace (s old new : string) : string :=
  match old with
  | "" => interleave new s
  | _ => replace_go old new 0 s
  end.

(** The longest run of word characters at the head of [s], and the rest. *)
Fixpoint span_word (s : string) : string * string :=
  match s with
  | String c r =>
      if is_word_char c
      then let '(w, r') := span_word r in (String c w, r')
      else ("", s)
  | "" => ("", "")
  end.

(** A match of [\{\{(\w+)\}\}] at the head of [s]: the group and the
    text after the match.  The greedy [\w+] takes the longest run of word
    characters; giving characters back cannot help, for what then follows
    is a word character and not a closing brace. *)
Definition match_placeholder (s : string) : option (string * string) :=
  match s with
  | String "{" (String "{" r) =>
      match span_word r with
      | (String c w, String "}" (String "}" r')) => Some (String c w, r')
      | _ => None
      end
  | _ => None
  end.

(** [re.findall(r"\{\{(\w+)\}\}", s)]: the groups of the leftmost,
    non-overlapping matches. *)
Fixpoint findall_go (skip : nat) (s : string) : list string :=
  match s with
  | "" => []
  | String c r =>
      match skip with
      | S k => findall_go k r
      | O =>
          match match_placeholder s with
          | Some (w, _) => w :: findall_go (String.length w + 3) r
          | None => findall_go 0 r
          end
      end
  end.

Definition findall_placeholders (s : string) : list string := findall_go 0 s.

(** [f"{{{{{key}}}}}"] *)
Definition placeholder (key : string) : string := "{{" +:+ key +:+ "}}".

(** [sorted(l)] on strings *)
Definition sorted (l : list string) : list string := merge_sort String.le l.

(** [list(dict.fromkeys(l))]: the keys in the order in which they were
    first inserted. *)
Definition fromkeys (l : list string) : list string :=
  foldl (fun keys x => if bool_decide (x ∈ keys) then keys else keys ++ [x])
        [] l.

End Str.

(* ================================================================== *)
(** * Dictionaries *)

(** A [dict] with [str] keys.  Python keeps the keys in the order of
    their first insertion, and an assignment to a key that is present
    replaces the value where it stands. *)
Module Dict.

Definition t (V : Type) : Type := list (string * V).

Fixpoint get {V} (k : string) (d : t V) : option V :=
  match d with
  | [] => None
  | (k', v) :: d' => if decide (k = k') then Some v else get k d'
  end.

(** [d[k] = v] *)
Fixpoint set {V} (k : string) (v : V) (d : t V) : t V :=
  match d with
  | [] => [(k, v)]
  | (k', v') :: d' =>
      if decide (k = k') then (k, v) :: d' else (k', v') :: set k v d'
  end.

(** [k in d] *)
Definition mem {V} (k : string) (d : t V) : bool :=
  match get k d with
  | Some _ => true
  | None => false
  end.

Definition keys {V} (d : t V) : list string := d.*1.
Definition values {V} (d : t V) : list V := d.*2.

End Dict.

(* ================================================================== *)
(** * Raw documents *)

(** What [yaml.safe_load] and [json.loads] return: [None], booleans,
    integers, text, lists, and mappings with text keys. *)
#[warnings="-register-all"]
Inductive pyval : Type :=
| PNone
| PBool (b : bool)
| PInt (z : Z)
| PStr (s : string)
| PList (l : list pyval)
| PDict (d : list (string * pyval)).

(** [bool(v)] *)
Definition truthy (v : pyval) : bool :=
  match v with
  | PNone => false
  | PBool b => b
  | PInt z => negb (z =? 0)%Z
  | PStr s => negb (String.eqb s "")
  | PList l => match l with [] => false | _ => true end
  | PDict d => match d with [] => false | _ => true end
  end.

(** [a == b].  [True == 1] and [False == 0] hold in Python; two mappings
    are equal when they have the same keys with equal values. *)
Fixpoint py_eqb (a b : pyval) {struct a} : bool :=
  match a, b with
  | PNone, PNone => true
  | PBool x, PBool y => Bool.eqb x y
  | PBool x, PInt y => (Z.b2z x =? y)%Z
  | PInt x, PBool y => (x =? Z.b2z y)%Z
  | PInt x, PInt y => (x =? y)%Z
  | PStr x, PStr y => String.eqb x y
  | PList x, PList y =>
      (fix go (x y : list pyval) {struct x} : bool :=
         match x, y with
         | [], [] => true
         | v :: x', w :: y' => py_eqb v w && go x' y'
         | _, _ => false
         end) x y
  | PDict x, PDict y =>
      (length x =? length y)
      && (fix go (x : list (string * pyval)) {struct x} : bool :=
            match x with
            | [] => true
            | (k, v) :: x' =>
                match Dict.get k y with
                | Some w => py_eqb v w
                | None => false
                end && go x'
            end) x
  | _, _ => false
  end.

(** [hash(v)] succeeds: lists and mappings are unhashable. *)
Definition hashable (v : pyval) : bool :=
  match v with
  | PList _ | PDict _ => false
  | _ => true
  end.

(** [v[key]] for a text key. *)
Definition subscript (v : pyval) (key : string) : result pyval :=
  match v with
  | PDict d =>
      match Dict.get key d with
      | Some x => Ok x
      | None => Raise KeyError
      end
  | _ => Raise TypeError
  end.

Fixpoint chars (s : string) : list pyval :=
  match s with
  | "" => []
  | String c r => PStr (String c "") :: chars r
  end.

(** [iter(v)]: the elements a [for] loop over [v] visits. *)
Definition iterate (v : pyval) : result (list pyval) :=
  match v with
  | PList l => Ok l
  | PStr s => Ok (chars s)
  | PDict d => Ok (PStr <$> Dict.keys d)
  | _ => Raise TypeError
  end.

(** [x in v] *)
Definition py_in (x v : pyval) : result bool :=
  match v with
  | PList l => Ok (existsb (fun y => py_eqb y x) l)
  | PStr s =>
      match x with
      | PStr sub => Ok (Str.contains sub s)
      | _ => Raise TypeError
      end
  | PDict d =>
      match x with
      | PStr k => Ok (Dict.mem k d)
      | PList _ | PDict _ => Raise TypeError
      | _ => Ok false
      end
  | _ => Raise TypeError
  end.

(** [re.findall(r"\{\{(\w+)\}\}", v)] *)
Definition re_findall (v : pyval) : result (list string) :=
  match v with
  | PStr s => Ok (Str.findall_placeholders s)
  | _ => Raise TypeError
  end.

(** A document as a typed reader sees it: a mapping with the expected
    fields, or anything else. *)
Inductive document (A : Type) : Type :=
| NotAMapping
| Mapping (fields : A).
Arguments NotAMapping {A}.
Arguments Mapping {A} fields.

(** The keys of a prompt file, typed as [PromptEntry] declares them. *)
Module PromptYaml.
Record t : Type := {
  id : option string;
  version : option string;
  title : option string;
  description : option string;
  category : option string;
  subcategory : option string;
  skill_level : option string;
  platforms : option (list string);
  tags : option (list string);
  prompt : option string;
  variables : option (list (Dict.t pyval));
  expected_output : option string;
  quality_criteria : option (list string);
  anti_patterns : option (list string);
  adversarial_tests : option (list (Dict.t pyval));
  related_prompts : option (list string);
  chain_position : option (Dict.t (list string))
}.
End PromptYaml.

(** The keys of a starter-kit file. *)
Module KitYaml.
Record t : Type := {
  id : option string;
  name : option string;
  description : option string;
  target_audience : option string;
  prompts : option (list string);
  instructions : option (list string);
  tags : option (list string)
}.
End KitYaml.

(** The header block of an instruction file after [yaml.safe_load]:
    a falsy value ([None], an empty mapping, ...), a non-empty mapping
    with its [name] and [description] keys, or another truthy value. *)
Inductive front_matter : Type :=
| FmFalsy
| FmMapping (name description : option string)
| FmOther.

(** The index document, [prompts/index.json]. *)
Module IndexJson.
Record entry : Type := {
  id : option string;
  file : option string
}.
Record t : Type := {
  prompts : option (list entry);
  instructions : option (list entry);
  starter_kits : option (list entry);
  (** [statistics], and [total_prompts] inside it *)
  statistics : option (option Z)
}.
End IndexJson.

(** One error of [Draft7Validator.iter_errors]. *)
Module SchemaError.
Record t : Type := {
  absolute_path : list (string + Z);
  message : string
}.
End SchemaError.

(** The libraries the code calls.  [yaml.safe_load] raises [YAMLError]
    on malformed text and [json.loads] raises [JSONDecodeError]; a
    typed reader is the same call on a document of the expected kind. *)
Class Libraries : Type := {
  yaml_safe_load : string → result pyval;
  yaml_load_prompt : string → result (document PromptYaml.t);
  yaml_load_kit : string → result (document KitYaml.t);
  yaml_load_front_matter : string → result front_matter;
  json_loads : string → result pyval;
  json_loads_index : string → result IndexJson.t;
  iter_errors : pyval → pyval → list SchemaError.t
}.

(* ================================================================== *)
(** * The catalog directory *)

Record File : Type := {
  f_name : string;
  f_text : string
}.

(** A catalog root.  A directory is the list of the files in it, in the
    order the system lists them; [None] stands for a path that is not a
    directory. *)
Record Root : Type := {
  root_path : string;
  schema_file : option string;
  index_file : option string;
  prompt_dir : string → option (list File);
  instruction_dir : string → option (list File);
  kits_dir : option (list File);
  (** [(root / p).exists()] *)
  path_exists : string → bool
}.

Definition name_le (f g : File) : Prop := String.le (f_name f) (f_name g).

#[global] Instance name_le_dec : RelDecision name_le.
Proof. intros f g. unfold name_le. apply _. Defined.

(** [sorted(dir.glob("*" + suffix))] *)
Definition sorted_glob (suffix : string) (dir : list File) : list File :=
  merge_sort name_le
    (filter (fun f => Str.endswith (f_name f) suffix = true) dir).

(** [Path.stem]: the name without its last suffix. *)
Fixpoint rfind_dot (s : string) : option nat :=
  match s with
  | "" => None
  | String c r =>
      match rfind_dot r with
      | Some i => Some (S i)
      | None => if Ascii.eqb c "." then Some 0 else None
      end
  end.

Definition path_stem (name : string) : string :=
  match rfind_dot name with
  | Some i =>
      if (0 <? i) && (i <? String.length name - 1)
      then Str.slice 0 i name
      else name
  | None => name
  end.

(* ================================================================== *)
(** * catalog.py *)

Definition PROMPT_DIRS : list string :=
  ["planning"; "architecture"; "development"; "testing";
   "security"; "deployment"; "operations"; "domains"].

Definition INSTRUCTION_SCOPES : list string :=
  ["phases"; "guardrails"; "platforms"].

Definition SKILL_ORDER : list string :=
  ["beginner"; "intermediate"; "advanced"; "expert"].

(** [data[key]] on a mapping: [KeyError] when the key is absent. *)
Definition required {A} (field : option A) : result A :=
  match field with
  | Some a => Ok a
  | None => Raise KeyError
  end.

(** [l.index(x)] *)
Fixpoint list_index (x : string) (l : list string) : result nat :=
  match l with
  | [] => Raise ValueError
  | y :: l' =>
      if decide (x = y) then Ok 0
      else i ←! list_index x l'; Ok (S i)
  end.

(** [bool(s)] for an optional text argument: [None] and [""] are falsy. *)
Definition given (o : option string) : bool :=
  match o with
  | Some s => negb (String.eqb s "")
  | None => false
  end.

Module PromptEntry.

Record t : Type := {
  id : string;
  version : string;
  title : string;
  description : string;
  category : string;
  subcategory : string;
  skill_level : string;
  platforms : list string;
  tags : list string;
  prompt_text : string;
  variables : list (Dict.t pyval);
  expected_output : string;
  quality_criteria : list string;
  anti_patterns : list string;
  adversarial_tests : list (Dict.t pyval);
  related_prompts : list string;
  chain_position : Dict.t (list string);
  file_path : string;
  raw : PromptYaml.t
}.

Section from_yaml.
Context `{Libraries}.

(** [path] is the path of the file and [text] what [read_text]
    returns for it. *)
Definition from_yaml (path text : string) : result t :=
  doc ←! yaml_load_prompt text;
  match doc with
  | NotAMapping => Raise TypeError
  | Mapping data =>
      id ←! required (PromptYaml.id data);
      title ←! required (PromptYaml.title data);
      Ok {| id := id;
            version := default "1.0.0" (PromptYaml.version data);
            title := title;
            description := default "" (PromptYaml.description data);
            category := default "" (PromptYaml.category data);
            subcategory := default "" (PromptYaml.subcategory data);
            skill_level :=
              default "intermediate" (PromptYaml.skill_level data);
            platforms := default [] (PromptYaml.platforms data);
            tags := default [] (PromptYaml.tags data);
            prompt_text := default "" (PromptYaml.prompt data);
            variables := default [] (PromptYaml.variables data);
            expected_output :=
              default "" (PromptYaml.expected_output data);
            quality_criteria :=
              default [] (PromptYaml.quality_criteria data);
            anti_patterns := default [] (PromptYaml.anti_patterns data);
            adversarial_tests :=
              default [] (PromptYaml.adversarial_tests data);
            related_prompts :=
              default [] (PromptYaml.related_prompts data);
            chain_position :=
              default [] (PromptYaml.chain_position data);
            file_path := path;
            raw := data |}
  end.
End from_yaml.

(** Return ordered unique [{{variable}}] names from the prompt text. *)
Definition extract_variable_names (self : t) : list string :=
  Str.fromkeys (Str.findall_placeholders (prompt_text self)).

(** Substitute [{{variables}}] with supplied values.  [arguments] is
    [None] or a [dict] from names to values. *)
Definition render (self : t) (arguments : option (Dict.t string)) : string :=
  let text := prompt_text self in
  match arguments with
  | Some ((_ :: _) as items) =>
      foldl (fun text '(key, value) =>
               Str.replace text (Str.placeholder key) value)
            text items
  | _ => text
  end.

End PromptEntry.

Module InstructionEntry.

Record t : Type := {
  stem : string;
  scope : string;
  file_path : string;
  name : string;
  description : string
}.

Section from_path.
Context `{Libraries}.

(** [file_name] is [path.name] and [text] what [read_text] returns. *)
Definition from_path (scope path file_name text : string) : result t :=
  fields ←!
    (if Str.startswith text "---" then
       end_ ←! Str.index text "---" 3;
       fm ←! yaml_load_front_matter (Str.slice 3 end_ text);
       match fm with
       | FmFalsy => Ok ("", "")
       | FmMapping name description =>
           Ok (default "" name, default "" description)
       | FmOther => Raise AttributeError
       end
     else Ok ("", ""));
  let '(name, description) := fields in
  Ok {| stem := path_stem file_name;
        scope := scope;
        file_path := path;
        name := if String.eqb name "" then path_stem file_name else name;
        description := description |}.
End from_path.

End InstructionEntry.

Module StarterKit.

Record t : Type := {
  id : string;
  name : string;
  description : string;
  target_audience : string;
  prompts : list string;
  instructions : list string;
  tags : list string;
  raw : KitYaml.t
}.

Section from_yaml.
Context `{Libraries}.

Definition from_yaml (text : string) : result t :=
  doc ←! yaml_load_kit text;
  match doc with
  | NotAMapping => Raise TypeError
  | Mapping data =>
      id ←! required (KitYaml.id data);
      name ←! required (KitYaml.name data);
      Ok {| id := id;
            name := name;
            description := default "" (KitYaml.description data);
            target_audience := default "" (KitYaml.target_audience data);
            prompts := default [] (KitYaml.prompts data);
            instructions := default [] (KitYaml.instructions data);
            tags := default [] (KitYaml.tags data);
            raw := data |}
  end.
End from_yaml.

End StarterKit.

Module Catalog.

Record t : Type := {
  root : string;
  prompts : Dict.t PromptEntry.t;
  instructions : Dict.t InstructionEntry.t;
  starter_kits : Dict.t StarterKit.t
}.

(** [a / b] on paths *)
Definition path_join (a b : string) : string := a +:+ "/" +:+ b.

Section load.
Context `{Libraries}.

(** The body of the loop over the prompt files of one directory; an
    exception of [from_yaml] or of the assignment skips the file. *)
Definition load_prompt_file (dir_path : string)
    (prompts : Dict.t PromptEntry.t) (f : File) : Dict.t PromptEntry.t :=
  if Str.startswith (f_name f) "_" then prompts
  else
    match PromptEntry.from_yaml (path_join dir_path (f_name f)) (f_text f)
    with
    | Ok entry => Dict.set (PromptEntry.id entry) entry prompts
    | Raise _ => prompts
    end.

Definition load_prompt_dir (r : Root)
    (prompts : Dict.t PromptEntry.t) (dir_name : string)
  : Dict.t PromptEntry.t :=
  let dir_path := path_join (path_join (root_path r) "prompts") dir_name in
  match prompt_dir r dir_name with
  | None => prompts
  | Some dir => foldl (load_prompt_file dir_path) prompts
                      (sorted_glob ".yaml" dir)
  end.

Definition load_instruction_file (scope scope_dir : string)
    (instructions : Dict.t InstructionEntry.t) (f : File)
  : Dict.t InstructionEntry.t :=
  match InstructionEntry.from_path scope (path_join scope_dir (f_name f))
          (f_name f) (f_text f)
  with
  | Ok entry => Dict.set (InstructionEntry.stem entry) entry instructions
  | Raise _ => instructions
  end.

Definition load_instruction_dir (r : Root)
    (instructions : Dict.t InstructionEntry.t) (scope : string)
  : Dict.t InstructionEntry.t :=
  let scope_dir :=
    path_join (path_join (root_path r) "instructions") scope in
  match instruction_dir r scope with
  | None => instructions
  | Some dir => foldl (load_instruction_file scope scope_dir) instructions
                      (sorted_glob ".instructions.md" dir)
  end.

Definition load_kit_file (starter_kits : Dict.t StarterKit.t) (f : File)
  : Dict.t StarterKit.t :=
  match StarterKit.from_yaml (f_text f) with
  | Ok kit => Dict.set (StarterKit.id kit) kit starter_kits
  | Raise _ => starter_kits
  end.

Definition load (r : Root) : t :=
  {| root := root_path r;
     prompts := foldl (load_prompt_dir r) [] PROMPT_DIRS;
     instructions := foldl (load_instruction_dir r) [] INSTRUCTION_SCOPES;
     starter_kits :=
       match kits_dir r with
       | None => []
       | Some dir => foldl load_kit_file [] (sorted_glob ".yaml" dir)
       end |}.
End load.

(** One turn of the loop of [filter_prompts]: does [p] reach
    [results.append(p)]? *)
Definition passes (p : PromptEntry.t)
    (category subcategory skill_level platform tag query : option string)
  : result bool :=
  if given category
     && negb (bool_decide (Some (PromptEntry.category p) = category))
  then Ok false
  else if given subcategory
          && negb (bool_decide (Some (PromptEntry.subcategory p) = subcategory))
  then Ok false
  else
    below ←!
      match skill_level with
      | Some level =>
          if String.eqb level "" then Ok true
          else
            max_idx ←! list_index level SKILL_ORDER;
            cur_idx ←! list_index (PromptEntry.skill_level p) SKILL_ORDER;
            Ok (negb (max_idx <? cur_idx))
      | None => Ok true
      end;
    if negb below then Ok false
    else if given platform
            && negb (bool_decide (default "" platform ∈ PromptEntry.platforms p))
            && negb (bool_decide ("all" ∈ PromptEntry.platforms p))
    then Ok false
    else if given tag
            && negb (bool_decide (default "" tag ∈ PromptEntry.tags p))
    then Ok false
    else if given query
    then
      let q := Str.lower (default "" query) in
      let searchable :=
        Str.lower (PromptEntry.title p +:+ " " +:+ PromptEntry.description p
                   +:+ " " +:+ Str.join " " (PromptEntry.tags p)) in
      Ok (Str.contains q searchable)
    else Ok true.

Definition filter_prompts (self : t)
    (category subcategory skill_level platform tag query : option string)
  : result (list PromptEntry.t) :=
  for_each
    (fun results p =>
       keep ←! passes p category subcategory skill_level platform tag query;
       Ok (if keep then results ++ [p] else results))
    (Dict.values (prompts self)) [].

(** The [while] loop of [get_chain].  [current_id] is [None] once the
    walk has run past a record without successor; [fuel] bounds the
    number of turns, and [None] is returned when it runs out. *)
Fixpoint chain_loop (prompts : Dict.t PromptEntry.t) (fuel : nat)
    (chain : list PromptEntry.t) (visited : gset string)
    (current_id : option string) : option (list PromptEntry.t) :=
  match fuel with
  | O => None
  | S fuel' =>
      match current_id with
      | Some cid =>
          if negb (String.eqb cid "") && bool_decide (cid ∉ visited) then
            let visited := visited ∪ {[cid]} in
            match Dict.get cid prompts with
            | None => Some chain
            | Some prompt =>
                let chain := chain ++ [prompt] in
                let next_ids :=
                  default [] (Dict.get "next" (PromptEntry.chain_position prompt)) in
                chain_loop prompts fuel' chain visited (head next_ids)
            end
          else Some chain
      | None => Some chain
      end
  end.

(** Walk a prompt chain forward from the given prompt ID. *)
Definition get_chain (fuel : nat) (self : t) (start_id : string)
  : option (list PromptEntry.t) :=
  chain_loop (prompts self) fuel [] ∅ (Some start_id).

(** Resolve a starter kit into its constituent prompts and
    instructions.  The [ValueError] is the "Starter kit not found"
    condition. *)
Definition resolve_kit (self : t) (kit_id : string)
  : result (list PromptEntry.t * list InstructionEntry.t) :=
  match Dict.get kit_id (starter_kits self) with
  | None => Raise ValueError
  | Some kit =>
      Ok (omap (fun pid => Dict.get pid (prompts self))
               (StarterKit.prompts kit),
          omap (fun iid => Dict.get iid (instructions self))
               (StarterKit.instructions kit))
  end.

End Catalog.

(* ================================================================== *)
(** * validator.py *)

(** A single validation issue. *)
Module Issue.
Record t : Type := {
  file : string;
  message : string;
  severity : string
}.

Definition error (file message : string) : t :=
  {| file := file; message := message; severity := "error" |}.

Definition warning (file message : string) : t :=
  {| file := file; message := message; severity := "warning" |}.

Definition is_error (i : t) : bool := String.eqb (severity i) "error".
Definition is_warning (i : t) : bool := String.eqb (severity i) "warning".
End Issue.

(** Aggregated validation results. *)
Module ValidationResult.
Record t : Type := {
  issues : list Issue.t;
  files_checked : nat;
  files_passed : nat
}.

Definition empty : t :=
  {| issues := []; files_checked := 0; files_passed := 0 |}.

(** [result.issues.append(i)] *)
Definition append (i : Issue.t) (r : t) : t :=
  {| issues := issues r ++ [i];
     files_checked := files_checked r;
     files_passed := files_passed r |}.

(** [result.files_checked += 1] *)
Definition checked (r : t) : t :=
  {| issues := issues r;
     files_checked := S (files_checked r);
     files_passed := files_passed r |}.

(** [result.files_passed += 1] *)
Definition passed (r : t) : t :=
  {| issues := issues r;
     files_checked := files_checked r;
     files_passed := S (files_passed r) |}.

Definition ok (r : t) : bool := negb (existsb Issue.is_error (issues r)).
Definition error_count (r : t) : nat :=
  length (filter (fun i => Issue.is_error i = true) (issues r)).
Definition warning_count (r : t) : nat :=
  length (filter (fun i => Issue.is_warning i = true) (issues r)).

(** [not any(i.file == rel_path and i.severity == "error" ...)] *)
Definition no_error_for (rel_path : string) (r : t) : bool :=
  negb (existsb (fun i => String.eqb (Issue.file i) rel_path
                          && Issue.is_error i) (issues r)).
End ValidationResult.

Module Validator.
Import ValidationResult.

Definition as_text (v : pyval) : option string :=
  match v with
  | PStr s => Some s
  | _ => None
  end.

(** The [name] of one entry of [variables], as an element of the set
    [defined_vars]. *)
Definition defined_name (v : pyval) : result pyval :=
  x ←! subscript v "name";
  if hashable x then Ok x else Raise TypeError.

(** [', '.join(sorted(names))] for a set of texts *)
Definition listing (names : gset string) : string :=
  Str.join ", " (Str.sorted (elements names)).

(** Run additional validation checks beyond what the JSON schema
    covers.  A name in [defined_vars] that is not text is never in
    [used_vars], so it is in [unused], where [sorted] or [join] raises
    [TypeError] on it. *)
Definition _check_prompt_extras (data : Dict.t pyval) (rel_path : string)
    (result_ : t) : result t :=
  let prompt_text := default (PStr "") (Dict.get "prompt" data) in
  let variables := default (PList []) (Dict.get "variables" data) in
  found ←! re_findall prompt_text;
  let used_vars : gset string := list_to_set found in
  entries ←! iterate variables;
  names ←! comprehension defined_name entries;
  let defined_vars : gset string := list_to_set (omap as_text names) in
  let undefined := used_vars ∖ defined_vars in
  let result_ :=
    if bool_decide (undefined = ∅) then result_
    else append (Issue.warning rel_path
                   ("Variables used in prompt but not defined: "
                    +:+ listing undefined)) result_ in
  let unused := defined_vars ∖ used_vars in
  result_ ←!
    (if forallb (fun x => bool_decide (is_Some (as_text x))) names then
       Ok (if bool_decide (unused = ∅) then result_
           else append (Issue.warning rel_path
                          ("Variables defined but not used in prompt: "
                           +:+ listing unused)) result_)
     else Raise TypeError);
  let prompt_id := default (PStr "") (Dict.get "id" data) in
  let related := default (PList []) (Dict.get "related_prompts" data) in
  self_reference ←! py_in prompt_id related;
  Ok (if self_reference
      then append (Issue.warning rel_path
                     "Prompt references itself in related_prompts") result_
      else result_).

Section validators.
Context `{Libraries}.

(** Load a JSON schema file from the [schema/] directory. *)
Definition _load_schema (r : Root) : result (option pyval) :=
  match schema_file r with
  | None => Ok None
  | Some text => schema ←! json_loads text; Ok (Some schema)
  end.

Definition component (p : string + Z) : string :=
  match p with
  | inl key => key
  | inr i => pretty i
  end.

Definition schema_issue (rel_path : string) (err : SchemaError.t)
  : Issue.t :=
  let path := Str.join "." (component <$> SchemaError.absolute_path err) in
  let path := if String.eqb path "" then "(root)" else path in
  Issue.error rel_path (path +:+ ": " +:+ SchemaError.message err).

(** The body of the loop of [validate_prompts] over the files of one
    directory. *)
Definition validate_prompt_file (schema : pyval) (dir_name : string)
    (result_ : t) (f : File) : result t :=
  let result_ := checked result_ in
  let rel_path := "prompts/" +:+ dir_name +:+ "/" +:+ f_name f in
  match yaml_safe_load (f_text f) with
  | Raise (YAMLError e) =>
      Ok (append (Issue.error rel_path ("YAML parse error: " +:+ e))
                 result_)
  | Raise e => Raise e
  | Ok (PDict data) =>
      let errors := iter_errors schema (PDict data) in
      let result_ :=
        match errors with
        | [] => passed result_
        | _ => foldl (fun r err => append (schema_issue rel_path err) r)
                     result_ errors
        end in
      _check_prompt_extras data rel_path result_
  | Ok _ =>
      Ok (append (Issue.error rel_path
                    "File does not contain a YAML mapping") result_)
  end.

Definition validate_prompt_dir (r : Root) (schema : pyval)
    (result_ : t) (dir_name : string) : result t :=
  match prompt_dir r dir_name with
  | None => Ok result_
  | Some dir =>
      for_each (validate_prompt_file schema dir_name)
               (sorted_glob ".yaml" dir) result_
  end.

(** Validate all prompt YAML files against the prompt schema. *)
Definition validate_prompts (r : Root) : result t :=
  schema ←! _load_schema r;
  match schema with
  | Some schema =>
      if truthy schema
      then for_each (validate_prompt_dir r schema) PROMPT_DIRS empty
      else Ok (append (Issue.error "schema/prompt.schema.json"
                         "Schema file not found") empty)
  | None =>
      Ok (append (Issue.error "schema/prompt.schema.json"
                    "Schema file not found") empty)
  end.

(** The three loops of [validate_index] over the entries of the
    index: every entry with a file path must name a file that exists;
    a prompt entry must have a file path. *)
Definition entry_id (e : IndexJson.entry) : string :=
  default "unknown" (IndexJson.id e).

Definition check_prompt_entry (r : Root) (result_ : t)
    (e : IndexJson.entry) : t :=
  let file_path := default "" (IndexJson.file e) in
  if negb (String.eqb file_path "") then
    if path_exists r file_path then result_
    else append (Issue.error "prompts/index.json"
                   ("Prompt " +:+ entry_id e
                    +:+ " references non-existent file: " +:+ file_path))
                result_
  else append (Issue.error "prompts/index.json"
                 ("Prompt " +:+ entry_id e +:+ " has no file path"))
              result_.

Definition check_file_entry (kind : string) (r : Root) (result_ : t)
    (e : IndexJson.entry) : t :=
  let file_path := default "" (IndexJson.file e) in
  if negb (String.eqb file_path "") && negb (path_exists r file_path)
  then append (Issue.error "prompts/index.json"
                 (kind +:+ " " +:+ entry_id e
                  +:+ " references non-existent file: " +:+ file_path))
              result_
  else result_.

(** [str(pid)] where [pid] is [p.get("id")] *)
Definition str_id (pid : option string) : string := default "None" pid.

(** The loop over [prompt_ids]; the state is [seen] and the result. *)
Definition check_duplicate (state : list (option string) * t)
    (pid : option string) : list (option string) * t :=
  let '(seen, result_) := state in
  (pid :: seen,
   if bool_decide (pid ∈ seen)
   then append (Issue.error "prompts/index.json"
                  ("Duplicate prompt ID in index: " +:+ str_id pid))
               result_
   else result_).

Definition check_listed (index_files : list string) (dir_name : string)
    (result_ : t) (f : File) : t :=
  let rel := "prompts/" +:+ dir_name +:+ "/" +:+ f_name f in
  if bool_decide (rel ∈ index_files) then result_
  else append (Issue.warning "prompts/index.json"
                 ("YAML file not listed in index: " +:+ rel)) result_.

Definition check_listed_dir (r : Root) (index_files : list string)
    (result_ : t) (dir_name : string) : t :=
  match prompt_dir r dir_name with
  | None => result_
  | Some dir => foldl (check_listed index_files dir_name) result_
                      (sorted_glob ".yaml" dir)
  end.

Definition count_issue (stated_count : Z) (actual_count : nat) : Issue.t :=
  Issue.warning "prompts/index.json"
    ("Statistics says " +:+ pretty stated_count
     +:+ " prompts but index lists " +:+ pretty actual_count).

(** The checks of [validate_index] once the index is parsed. *)
Definition check_index (r : Root) (index : IndexJson.t) (result_ : t) : t :=
  let prompts := default [] (IndexJson.prompts index) in
  let result_ := foldl (check_prompt_entry r) result_ prompts in
  let instructions := default [] (IndexJson.instructions index) in
  let result_ := foldl (check_file_entry "Instruction" r) result_
                       instructions in
  let starter_kits := default [] (IndexJson.starter_kits index) in
  let result_ := foldl (check_file_entry "Starter kit" r) result_
                       starter_kits in
  let stated_count : Z :=
    default 0%Z (default None (IndexJson.statistics index)) in
  let actual_count := length prompts in
  let result_ :=
    if bool_decide (stated_count ≠ Z.of_nat actual_count)
    then append (count_issue stated_count actual_count) result_
    else result_ in
  let prompt_ids := IndexJson.id <$> prompts in
  let result_ := (foldl check_duplicate ([], result_) prompt_ids).2 in
  let index_files := (fun e => default "" (IndexJson.file e)) <$> prompts in
  let result_ := foldl (check_listed_dir r index_files) result_
                       PROMPT_DIRS in
  match issues result_ with
  | [] => {| issues := []; files_checked := files_checked result_;
             files_passed := 1 |}
  | _ => result_
  end.

(** Validate the master index.json file for integrity. *)
Definition validate_index (r : Root) : result t :=
  match index_file r with
  | None =>
      Ok (append (Issue.error "prompts/index.json" "Index file not found")
                 empty)
  | Some text =>
      let result_ :=
        {| issues := []; files_checked := 1; files_passed := 0 |} in
      match json_loads_index text with
      | Raise (JSONDecodeError e) =>
          Ok (append (Issue.error "prompts/index.json"
                        ("JSON parse error: " +:+ e)) result_)
      | Raise e => Raise e
      | Ok index => Ok (check_index r index result_)
      end
  end.

Definition too_short (rel_path : string) : Issue.t :=
  Issue.warning rel_path "Instruction body is too short (< 50 chars)".

(** The body of the loop of [validate_instructions] over the files of
    one scope. *)
Definition validate_instruction_file (scope : string) (result_ : t)
    (f : File) : result t :=
  let result_ := checked result_ in
  let rel_path := "instructions/" +:+ scope +:+ "/" +:+ f_name f in
  let text := f_text f in
  if negb (Str.startswith text "---") then
    Ok (append (Issue.error rel_path
                  "Missing YAML frontmatter (must start with ---)")
               result_)
  else
    match (end_ ←! Str.index text "---" 3;
           fm ←! yaml_load_front_matter (Str.slice 3 end_ text);
           Ok (end_, fm))
    with
    | Raise ValueError =>
        Ok (append (Issue.error rel_path
                      "Invalid frontmatter: substring not found") result_)
    | Raise (YAMLError e) =>
        Ok (append (Issue.error rel_path ("Invalid frontmatter: " +:+ e))
                   result_)
    | Raise e => Raise e
    | Ok (end_, FmMapping name description) =>
        let result_ :=
          match name with
          | Some _ => result_
          | None => append (Issue.error rel_path
                              "Frontmatter missing 'name' field") result_
          end in
        let result_ :=
          match description with
          | Some _ => result_
          | None => append (Issue.warning rel_path
                              "Frontmatter missing 'description' field")
                           result_
          end in
        let body := Str.strip (Str.drop (end_ + 3) text) in
        let result_ :=
          if String.length body <? 50
          then append (too_short rel_path) result_
          else result_ in
        Ok (if no_error_for rel_path result_ then passed result_
            else result_)
    | Ok (_, _) =>
        Ok (append (Issue.error rel_path
                      "Frontmatter is empty or not a mapping") result_)
    end.

Definition validate_instruction_dir (r : Root) (result_ : t)
    (scope : string) : result t :=
  match instruction_dir r scope with
  | None => Ok result_
  | Some dir =>
      for_each (validate_instruction_file scope)
               (sorted_glob ".instructions.md" dir) result_
  end.

(** Validate that instruction files have valid frontmatter. *)
Definition validate_instructions (r : Root) : result t :=
  for_each (validate_instruction_dir r) INSTRUCTION_SCOPES empty.
End validators.

End Validator.

(* ================================================================== *)
(** * server.py and cli.py *)

Module Server.

(** One message of a [GetPromptResult]: the role and the text of its
    content. *)
Record PromptMessage : Type := {
  role : string;
  text : string
}.

Record GetPromptResult : Type := {
  description : string;
  messages : list PromptMessage
}.

(** The name under which [list_prompts] lists a record. *)
Definition prompt_name (p : PromptEntry.t) : string :=
  Str.lower (PromptEntry.id p).

(** The loop of [get_prompt] (and of [show] in the command line): the
    first record whose identifier equals [name] when both are put in
    lower case. *)
Definition match_by_lower_id (c : Catalog.t) (name : string)
  : option PromptEntry.t :=
  List.find (fun p => String.eqb (Str.lower (PromptEntry.id p))
                                 (Str.lower name))
            (Dict.values (Catalog.prompts c)).

(** [get_prompt(name, arguments)]; the [ValueError] is "Prompt not
    found". *)
Definition get_prompt (c : Catalog.t) (name : string)
    (arguments : option (Dict.t string)) : result GetPromptResult :=
  match match_by_lower_id c name with
  | None => Raise ValueError
  | Some entry =>
      let rendered := PromptEntry.render entry arguments in
      Ok {| description :=
              if String.eqb (PromptEntry.description entry) ""
              then PromptEntry.title entry
              else PromptEntry.description entry;
            messages := [{| role := "user"; text := rendered |}] |}
  end.

End Server.

Module Cli.

(** The kit lookup of [kit show] and [kit export]: the kit stored under
    [kit_id], and failing that the first kit whose identifier equals
    [kit_id] when both are put in lower case. *)
Definition find_kit (c : Catalog.t) (kit_id : string) : option StarterKit.t :=
  match Dict.get kit_id (Catalog.starter_kits c) with
  | Some kit => Some kit
  | None =>
      List.find (fun k => String.eqb (Str.lower (StarterKit.id k))
                                     (Str.lower kit_id))
                (Dict.values (Catalog.starter_kits c))
  end.

(** [l.insert(i, x)] for [0 <= i] *)
Definition list_insert_at {A} (i : nat) (x : A) (l : list A) : list A :=
  take i l ++ x :: drop i l.

(** The prompt stack that [start] recommends for a project type (the
    answer "1" to "6") and the identifier of the selected domain prompt,
    if one was selected. *)
Definition recommend (project_choice : string) (selected_domain : option string)
  : list string :=
  let recommended := ["PLAN-REQ-001"] in
  let recommended :=
    recommended ++
    (if String.eqb project_choice "1"
     then ["PLAN-REQ-003"; "ARCH-SYS-001"; "DEV-WEB-001"; "DEV-API-001"]
     else if String.eqb project_choice "2"
     then ["PLAN-REQ-003"; "ARCH-SYS-001"; "DEV-MOB-001"; "DEV-API-001"]
     else if String.eqb project_choice "3"
     then ["PLAN-REQ-002"; "ARCH-SYS-001"; "DEV-API-001"]
     else if String.eqb project_choice "4"
     then ["PLAN-REQ-003"; "ARCH-SYS-001"; "DEV-DESK-001"]
     else if String.eqb project_choice "5"
     then ["PLAN-REQ-002"; "ARCH-CLOUD-001"; "ARCH-MICRO-001";
           "ARCH-DATA-001"; "DEV-API-001"; "DEPLOY-IAC-001"]
     else []) in
  let recommended :=
    recommended
    ++ ["SEC-THREAT-001"; "TEST-UNIT-001"; "DEPLOY-CICD-001"; "OPS-MON-001"] in
  let recommended :=
    match selected_domain with
    | Some id => list_insert_at 4 id recommended
    | None => recommended
    end in
  Str.fromkeys recommended.

(** The exit status of [validate]: 1 when the results hold an error. *)
Definition exit_status (results : list ValidationResult.t) : nat :=
  let total_errors := sum_list (ValidationResult.error_count <$> results) in
  if 0 <? total_errors then 1 else 0.

End Cli.

(* ================================================================== *)
(** * validator.py: starter kits *)

Module Kits.
Import ValidationResult.

Section kits.
Context `{Libraries}.

(** [dir.glob("*" + suffix)], in the order the system lists the files. *)
Definition glob (suffix : string) (dir : list File) : list File :=
  filter (fun f => Str.endswith (f_name f) suffix = true) dir.

(** One turn of the scan for prompt identifiers.  Only the identifiers
    that are texts are kept in [available]: a reference is a text, and
    it equals no value of another type.  The membership test and the
    subscript raise [TypeError] on a document that is no mapping, and
    an identifier that cannot be hashed raises it too. *)
Definition scan_prompt_file (dir_name : string)
    (state : gset string * t) (f : File) : result (gset string * t) :=
  let '(available, result_) := state in
  match yaml_safe_load (f_text f) with
  | Raise (YAMLError e) =>
      let rel_prompt_path := "prompts/" +:+ dir_name +:+ "/" +:+ f_name f in
      Ok (available,
          append (Issue.error rel_prompt_path
                    ("YAML parse error while scanning prompts: " +:+ e))
                 result_)
  | Raise e => Raise e
  | Ok data =>
      if truthy data then
        has_id ←! py_in (PStr "id") data;
        if has_id then
          id ←! subscript data "id";
          if hashable id then
            Ok (match id with
                | PStr s => available ∪ {[s]}
                | _ => available
                end, result_)
          else Raise TypeError
        else Ok (available, result_)
      else Ok (available, result_)
  end.

Definition scan_prompt_dir (r : Root) (state : gset string * t)
    (dir_name : string) : result (gset string * t) :=
  match prompt_dir r dir_name with
  | None => Ok state
  | Some dir => for_each (scan_prompt_file dir_name) (glob ".yaml" dir) state
  end.

(** The references of the instruction files: the scope, a slash, and
    the stem of the file without [".instructions"]. *)
Definition instruction_reference (scope : string) (f : File) : string :=
  let stem := path_stem (f_name f) in
  let clean_stem := Str.replace stem ".instructions" "" in
  scope +:+ "/" +:+ clean_stem.

Definition available_instructions (r : Root) : gset string :=
  foldl (fun available scope =>
           match instruction_dir r scope with
           | None => available
           | Some dir =>
               foldl (fun available f =>
                        available ∪ {[instruction_reference scope f]})
                     available (glob ".instructions.md" dir)
           end)
        ∅ INSTRUCTION_SCOPES.

(** [pid.strip()]: only a text has the method. *)
Definition strip_reference (v : pyval) : result string :=
  match v with
  | PStr s => Ok (Str.strip s)
  | _ => Raise AttributeError
  end.

(** The loop over the references of one kind. *)
Definition check_references (kind rel_path : string) (available : gset string)
    (references : pyval) (result_ : t) : result t :=
  entries ←! iterate references;
  for_each (fun result_ ref =>
              clean ←! strip_reference ref;
              Ok (if bool_decide (clean ∈ available) then result_
                  else append (Issue.error rel_path
                                 ("References non-existent " +:+ kind
                                  +:+ ": " +:+ clean)) result_))
           entries result_.

Definition check_required (rel_path : string) (data : Dict.t pyval)
    (result_ : t) (field : string) : t :=
  if Dict.mem field data then result_
  else append (Issue.error rel_path ("Missing required field: " +:+ field))
              result_.

(** The body of the loop of [validate_kits] over the kit files. *)
Definition validate_kit_file (available_prompts : gset string)
    (available_instructions : gset string) (result_ : t) (f : File)
  : result t :=
  if String.eqb (f_name f) "README.md" then Ok result_
  else
    let result_ := checked result_ in
    let rel_path := "starter-kits/" +:+ f_name f in
    match yaml_safe_load (f_text f) with
    | Raise (YAMLError e) =>
        Ok (append (Issue.error rel_path ("YAML parse error: " +:+ e))
                   result_)
    | Raise e => Raise e
    | Ok (PDict data) =>
        let result_ :=
          foldl (check_required rel_path data) result_
                ["id"; "name"; "description"; "prompts"; "instructions"] in
        let kit_prompts := default (PList []) (Dict.get "prompts" data) in
        result_ ←! check_references "prompt" rel_path available_prompts
                     kit_prompts result_;
        let kit_instructions :=
          default (PList []) (Dict.get "instructions" data) in
        result_ ←! check_references "instruction" rel_path
                     available_instructions kit_instructions result_;
        Ok (if no_error_for rel_path result_ then passed result_
            else result_)
    | Ok _ =>
        Ok (append (Issue.error rel_path
                      "File does not contain a YAML mapping") result_)
    end.

(** Validate starter kit YAML files for reference integrity. *)
Definition validate_kits (r : Root) : result t :=
  match kits_dir r with
  | None =>
      Ok (append (Issue.error "starter-kits/"
                    "Starter kits directory not found") empty)
  | Some kits =>
      state ←! for_each (scan_prompt_dir r) PROMPT_DIRS (∅, empty);
      let '(available_prompts, result_) := state in
      for_each (validate_kit_file available_prompts
                  (available_instructions r))
               (sorted_glob ".yaml" kits) result_
  end.

End kits.

End Kits.

(* ================================================================== *)
(** * The notions of the specification *)

Module Spec.

(** An identifier of the placeholder pattern, [\w+]. *)
Fixpoint all_word (s : string) : bool :=
  match s with
  | "" => true
  | String c r => Str.is_word_char c && all_word r
  end.

Definition is_name (w : string) : Prop := w ≠ "" ∧ all_word w = true.

(** The characters by their code points.  [ascii_codes] is the class
    [[A-Za-z0-9_]] that the specification names; [word_codes] adds the
    code points from 128 to 255 that Unicode counts as letters or
    numbers: ª, ², ³, µ, ¹, º, ¼, ½, ¾, and À to ÿ without × and ÷. *)
Definition ascii_codes : list N :=
  ([48; 49; 50; 51; 52; 53; 54; 55; 56; 57; 65; 66; 67; 68; 69; 70; 71; 72;
   73; 74; 75; 76; 77; 78; 79; 80; 81; 82; 83; 84; 85; 86; 87; 88; 89; 90;
   95; 97; 98; 99; 100; 101; 102; 103; 104; 105; 106; 107; 108; 109; 110;
   111; 112; 113; 114; 115; 116; 117; 118; 119; 120; 121; 122])%N.

Definition word_codes : list N :=
  ascii_codes
  ++ ([170; 178; 179; 181; 185; 186; 188; 189; 190; 192; 193; 194; 195; 196;
      197; 198; 199; 200; 201; 202; 203; 204; 205; 206; 207; 208; 209; 210;
      211; 212; 213; 214; 216; 217; 218; 219; 220; 221; 222; 223; 224; 225;
      226; 227; 228; 229; 230; 231; 232; 233; 234; 235; 236; 237; 238; 239;
      240; 241; 242; 243; 244; 245; 246; 248; 249; 250; 251; 252; 253; 254;
      255])%N.

Definition has_code (codes : list N) (c : ascii) : bool :=
  existsb (N.eqb (N_of_ascii c)) codes.

(** [w] is written with the characters of [codes] only. *)
Fixpoint spelled (codes : list N) (w : string) : bool :=
  match w with
  | "" => true
  | String c r => has_code codes c && spelled codes r
  end.

(** A name as the specification has it, [[A-Za-z0-9_]+]. *)
Definition is_ascii_name (w : string) : Prop :=
  w ≠ "" ∧ spelled ascii_codes w = true.

(** [text] contains the placeholder of [w]. *)
Definition occurs (w text : string) : Prop :=
  ∃ a b, text = a +:+ Str.placeholder w +:+ b.

Definition has_placeholder (text : string) : Prop :=
  ∃ w, is_name w ∧ occurs w text.

(** The names of the placeholders of a text, from left to right. *)
Inductive occurrences : string → list string → Prop :=
| occ_none text :
    ¬ has_placeholder text → occurrences text []
| occ_next a w rest ws :
    is_name w → ¬ has_placeholder a → occurrences rest ws →
    occurrences (a +:+ Str.placeholder w +:+ rest) (w :: ws).

(** [x] is met in [l] before [y] is. *)
Definition first_before {A} (l : list A) (x y : A) : Prop :=
  ∃ n, l !! n = Some x ∧ y ∉ take (S n) l.

(** The rank of a skill level on the scale
    beginner < intermediate < advanced < expert. *)
Definition rank (level : string) : option nat :=
  if decide (level = "beginner") then Some 0
  else if decide (level = "intermediate") then Some 1
  else if decide (level = "advanced") then Some 2
  else if decide (level = "expert") then Some 3
  else None.

Definition at_or_below (level : string) (p : PromptEntry.t) : bool :=
  match rank (PromptEntry.skill_level p), rank level with
  | Some cur, Some max => cur <=? max
  | _, _ => false
  end.

(** The first successor of a record: the head of its [next] list. *)
Definition successor (p : PromptEntry.t) : option string :=
  head (default [] (Dict.get "next" (PromptEntry.chain_position p))).

(** The chain walk: from [current], with the identifiers in [visited]
    already met, the walk visits the identifiers [ids], whose records
    are [chain].  It stops when there is no successor, on a repeated
    identifier and on a missing record. *)
Inductive walk (prompts : Dict.t PromptEntry.t)
  : gset string → option string → list string → list PromptEntry.t → Prop :=
| walk_no_successor visited :
    walk prompts visited None [] []
| walk_repeated visited cid :
    cid ∈ visited →
    walk prompts visited (Some cid) [] []
| walk_missing visited cid :
    cid ∉ visited → Dict.get cid prompts = None →
    walk prompts visited (Some cid) [] []
| walk_step visited cid p ids chain :
    cid ∉ visited → Dict.get cid prompts = Some p →
    walk prompts (visited ∪ {[cid]}) (successor p) ids chain →
    walk prompts visited (Some cid) (cid :: ids) (p :: chain).

(** Lenient resolution of a list of references: every reference is
    looked up, and the ones without a match are left out. *)
Inductive resolved {V} (d : Dict.t V) : list string → list V → Prop :=
| resolved_nil : resolved d [] []
| resolved_match ref refs v vs :
    Dict.get ref d = Some v → resolved d refs vs →
    resolved d (ref :: refs) (v :: vs)
| resolved_skip ref refs vs :
    Dict.get ref d = None → resolved d refs vs →
    resolved d (ref :: refs) vs.

(** The scan order of [Catalog.load]: the directories in their fixed
    order, the files of a directory sorted by name. *)
Definition scan (dirs : list string) (dir_of : string → option (list File))
    (suffix : string) : list (string * File) :=
  dir_name ← dirs;
  match dir_of dir_name with
  | Some dir => pair dir_name <$> sorted_glob suffix dir
  | None => []
  end.

Section parsed.
Context `{Libraries}.

(** The prompt files that parse, in scan order. *)
Definition parsed_prompts (r : Root) : list PromptEntry.t :=
  omap (fun '(dir_name, f) =>
          if Str.startswith (f_name f) "_" then None
          else
            match PromptEntry.from_yaml
                    (Catalog.path_join
                       (Catalog.path_join
                          (Catalog.path_join (root_path r) "prompts")
                          dir_name)
                       (f_name f))
                    (f_text f)
            with
            | Ok entry => Some entry
            | Raise _ => None
            end)
       (scan PROMPT_DIRS (prompt_dir r) ".yaml").

Definition parsed_instructions (r : Root) : list InstructionEntry.t :=
  omap (fun '(scope, f) =>
          match InstructionEntry.from_path scope
                  (Catalog.path_join
                     (Catalog.path_join
                        (Catalog.path_join (root_path r) "instructions")
                        scope)
                     (f_name f))
                  (f_name f) (f_text f)
          with
          | Ok entry => Some entry
          | Raise _ => None
          end)
       (scan INSTRUCTION_SCOPES (instruction_dir r) ".instructions.md").

Definition parsed_kits (r : Root) : list StarterKit.t :=
  omap (fun f => match StarterKit.from_yaml (f_text f) with
                 | Ok kit => Some kit
                 | Raise _ => None
                 end)
       (match kits_dir r with
        | Some dir => sorted_glob ".yaml" dir
        | None => []
        end).
End parsed.

(** The path of an instruction file, relative to the catalog root. *)
Definition instruction_path (scope : string) (f : File) : string :=
  "instructions/" +:+ scope +:+ "/" +:+ f_name f.

(** An issue of [validate_index] that is not the count mismatch: its
    message does not start as the count message does, and when it is a
    warning it reports a file that the index does not list. *)
Definition other_index_issue (i : Issue.t) : Prop :=
  Str.startswith (Issue.message i) "Statistics says" = false
  ∧ (Issue.is_warning i = true →
     ∃ rel, Issue.message i = "YAML file not listed in index: " +:+ rel).

(** The entry [d] holds for [key] is the last one of [entries] that
    has this key, and [d] holds it once. *)
Definition last_wins {V} (key_of : V → string) (entries : list V)
    (d : Dict.t V) : Prop :=
  NoDup (Dict.keys d)
  ∧ ∀ key, Dict.get key d
           = last (filter (fun e => key_of e = key) entries).

End Spec.

(* ================================================================== *)
(** * Fixtures *)

(** Small catalogs to run the definitions on, and a stand-in for the
    libraries that reads flat documents of [key: value] lines. *)
Module Fixture.

Definition nl : string := String "010" "".

Definition lines (l : list string) : string := String.concat nl l.

(** The text up to the first line feed, and the text after it. *)
Fixpoint split_line (s : string) : string * option string :=
  match s with
  | "" => ("", None)
  | String c r =>
      if Ascii.eqb c "010" then ("", Some r)
      else let '(line, rest) := split_line r in (String c line, rest)
  end.

Fixpoint split_lines (fuel : nat) (s : string) : list string :=
  match fuel with
  | O => []
  | S fuel' =>
      match split_line s with
      | (line, Some rest) => line :: split_lines fuel' rest
      | (line, None) => [line]
      end
  end.

(** [key: value] *)
Definition parse_line (line : string) : option (string * string) :=
  match String.index 0 ": " line with
  | Some i => Some (Str.slice 0 i line, Str.drop (i + 2) line)
  | None => None
  end.

Definition parse_flat (text : string) : result (Dict.t string) :=
  comprehension
    (fun line => match parse_line line with
                 | Some kv => Ok kv
                 | None => Raise (YAMLError "could not find expected ':'")
                 end)
    (filter (fun line => line ≠ "")
            (split_lines (S (String.length text)) text)).

Definition is_digit (c : ascii) : bool := Str.in_range 48 57 c.

Fixpoint digits (acc : Z) (s : string) : option Z :=
  match s with
  | "" => Some acc
  | String c r =>
      if is_digit c
      then digits (10 * acc + Z.of_N (N_of_ascii c) - 48) r
      else None
  end.

Definition scalar (s : string) : pyval :=
  match s with
  | "" => PStr s
  | _ => match digits 0 s with
         | Some z => PInt z
         | None => PStr s
         end
  end.

Definition prompt_yaml (d : Dict.t string) : PromptYaml.t :=
  {| PromptYaml.id := Dict.get "id" d;
     PromptYaml.version := Dict.get "version" d;
     PromptYaml.title := Dict.get "title" d;
     PromptYaml.description := Dict.get "description" d;
     PromptYaml.category := Dict.get "category" d;
     PromptYaml.subcategory := Dict.get "subcategory" d;
     PromptYaml.skill_level := Dict.get "skill_level" d;
     PromptYaml.platforms := None;
     PromptYaml.tags := None;
     PromptYaml.prompt := Dict.get "prompt" d;
     PromptYaml.variables := None;
     PromptYaml.expected_output := Dict.get "expected_output" d;
     PromptYaml.quality_criteria := None;
     PromptYaml.anti_patterns := None;
     PromptYaml.adversarial_tests := None;
     PromptYaml.related_prompts := None;
     PromptYaml.chain_position := None |}.

Definition kit_yaml (d : Dict.t string) : KitYaml.t :=
  {| KitYaml.id := Dict.get "id" d;
     KitYaml.name := Dict.get "name" d;
     KitYaml.description := Dict.get "description" d;
     KitYaml.target_audience := Dict.get "target_audience" d;
     KitYaml.prompts := None;
     KitYaml.instructions := None;
     KitYaml.tags := None |}.

Definition document_of {A} (make : Dict.t string → A) (d : Dict.t string)
  : document A :=
  match d with
  | [] => NotAMapping
  | _ => Mapping (make d)
  end.

Definition quoted (s : string) : string :=
  String "034" s +:+ String "034" "".

(** The text of a schema file: an object with a type. *)
Definition schema_text : string :=
  "{" +:+ quoted "type" +:+ ": " +:+ quoted "object" +:+ "}".

Definition schema : pyval := PDict [("type", PStr "object")].

(** The stand-in validator reports the required keys that are absent
    and a [prompt] that is not text. *)
Definition missing_key (data : Dict.t pyval) (key : string)
  : option SchemaError.t :=
  match Dict.get key data with
  | Some _ => None
  | None =>
      Some {| SchemaError.absolute_path := [];
              SchemaError.message :=
                "'" +:+ key +:+ "' is a required property" |}
  end.

Definition schema_errors (schema data : pyval) : list SchemaError.t :=
  match data with
  | PDict d =>
      omap (missing_key d) ["id"; "description"; "prompt"]
      ++ match Dict.get "prompt" d with
         | Some (PStr _) | None => []
         | Some _ =>
             [{| SchemaError.absolute_path := [inl "prompt"];
                 SchemaError.message := "value is not of type 'string'" |}]
         end
  | _ => []
  end.

(** An index with the given statistic that lists two prompts. *)
Definition index_text (total : string) : string :=
  "{" +:+ quoted "statistics" +:+ ": {" +:+ quoted "total_prompts"
  +:+ ": " +:+ total +:+ "}, " +:+ quoted "prompts" +:+ ": [...]}".

Definition index_entry (id : string) : IndexJson.entry :=
  {| IndexJson.id := Some id;
     IndexJson.file := Some ("prompts/planning/" +:+ id +:+ ".yaml") |}.

Definition index_of (total : Z) : IndexJson.t :=
  {| IndexJson.prompts :=
       Some [index_entry "test-prompt-1"; index_entry "test-prompt-2"];
     IndexJson.instructions := Some [];
     IndexJson.starter_kits := Some [];
     IndexJson.statistics := Some (Some total) |}.

Definition libraries : Libraries :=
  {| yaml_safe_load text :=
       d ←! parse_flat text;
       Ok (match d with
           | [] => PNone
           | _ => PDict (prod_map Datatypes.id scalar <$> d)
           end);
     yaml_load_prompt text :=
       d ←! parse_flat text; Ok (document_of prompt_yaml d);
     yaml_load_kit text :=
       d ←! parse_flat text; Ok (document_of kit_yaml d);
     yaml_load_front_matter text :=
       d ←! parse_flat text;
       Ok (match d with
           | [] => FmFalsy
           | _ => FmMapping (Dict.get "name" d) (Dict.get "description" d)
           end);
     json_loads text :=
       if String.eqb text schema_text then Ok schema
       else Raise (JSONDecodeError "Expecting value");
     json_loads_index text :=
       if String.eqb text (index_text "2") then Ok (index_of 2)
       else if String.eqb text (index_text "999") then Ok (index_of 999)
       else Raise (JSONDecodeError "Expecting value");
     iter_errors := schema_errors |}.

(** A prompt record with an identifier, a skill level, a template and
    the identifiers of its successors. *)
Definition prompt (id skill_level text : string) (next : list string)
  : PromptEntry.t :=
  {| PromptEntry.id := id;
     PromptEntry.version := "1.0.0";
     PromptEntry.title := id;
     PromptEntry.description := "";
     PromptEntry.category := "planning";
     PromptEntry.subcategory := "";
     PromptEntry.skill_level := skill_level;
     PromptEntry.platforms := ["all"];
     PromptEntry.tags := [];
     PromptEntry.prompt_text := text;
     PromptEntry.variables := [];
     PromptEntry.expected_output := "";
     PromptEntry.quality_criteria := [];
     PromptEntry.anti_patterns := [];
     PromptEntry.adversarial_tests := [];
     PromptEntry.related_prompts := [];
     PromptEntry.chain_position := [("next", next)];
     PromptEntry.file_path := "prompts/planning/" +:+ id +:+ ".yaml";
     PromptEntry.raw :=
       prompt_yaml [("id", id); ("skill_level", skill_level);
                    ("prompt", text)] |}.

Definition kit (id : string) (prompts instructions : list string)
  : StarterKit.t :=
  {| StarterKit.id := id;
     StarterKit.name := id;
     StarterKit.description := "";
     StarterKit.target_audience := "";
     StarterKit.prompts := prompts;
     StarterKit.instructions := instructions;
     StarterKit.tags := [];
     StarterKit.raw := kit_yaml [("id", id); ("name", id)] |}.

(** Two records that name each other as successor, a third one, and a
    kit with a reference that does not resolve. *)
Definition catalog : Catalog.t :=
  {| Catalog.root := "/catalog";
     Catalog.prompts :=
       [("a", prompt "a" "beginner" "Plan {{project}}." ["b"]);
        ("b", prompt "b" "advanced" "Review {{project}}." ["a"]);
        ("c", prompt "c" "intermediate" "Ship." [])];
     Catalog.instructions := [];
     Catalog.starter_kits := [("kit", kit "kit" ["a"; "ghost"] [])] |}.

(** A catalog root with prompt files in [prompts/planning] and
    instruction files in [instructions/guardrails]. *)
Definition root (index : option string) (prompts instructions : list File)
  : Root :=
  {| root_path := "/catalog";
     schema_file := Some schema_text;
     index_file := index;
     prompt_dir dir_name :=
       if String.eqb dir_name "planning" then Some prompts else None;
     instruction_dir scope :=
       if String.eqb scope "guardrails" then Some instructions else None;
     kits_dir := None;
     path_exists _ := true |}.

Definition prompt_file (name id text : string) : File :=
  {| f_name := name;
     f_text := lines ["id: " +:+ id; "title: " +:+ id;
                      "description: a prompt"; "prompt: " +:+ text] |}.

(** An instruction file with a header block and the given body. *)
Definition instruction_file (name body : string) : File :=
  {| f_name := name;
     f_text := lines ["---"; "name: Test Guardrail";
                      "description: A guardrail for testing"; "---"; body] |}.

(** A body of exactly fifty characters. *)
Definition fifty : string :=
  "0123456789012345678901234567890123456789012345678X".

End Fixture.

(* ================================================================== *)
(** * Further notions and samples *)

Module Criteria.

(** The tests of [filter_prompts], one per criterion; a criterion that
    is [None] or empty lets every record through. *)
Definition category_ok (category : option string) (p : PromptEntry.t) : bool :=
  negb (given category)
  || bool_decide (Some (PromptEntry.category p) = category).

Definition subcategory_ok (subcategory : option string) (p : PromptEntry.t)
  : bool :=
  negb (given subcategory)
  || bool_decide (Some (PromptEntry.subcategory p) = subcategory).

Definition platform_ok (platform : option string) (p : PromptEntry.t) : bool :=
  negb (given platform)
  || bool_decide (default "" platform ∈ PromptEntry.platforms p)
  || bool_decide ("all" ∈ PromptEntry.platforms p).

Definition tag_ok (tag : option string) (p : PromptEntry.t) : bool :=
  negb (given tag) || bool_decide (default "" tag ∈ PromptEntry.tags p).

(** The text that a query is searched in. *)
Definition searchable (p : PromptEntry.t) : string :=
  Str.lower (PromptEntry.title p +:+ " " +:+ PromptEntry.description p
             +:+ " " +:+ Str.join " " (PromptEntry.tags p)).

Definition query_ok (query : option string) (p : PromptEntry.t) : bool :=
  negb (given query)
  || Str.contains (Str.lower (default "" query)) (searchable p).

End Criteria.

(** The elements of a list that have occurred before in it, in order. *)
Fixpoint repeats {A} `{EqDecision A} (seen l : list A) : list A :=
  match l with
  | [] => []
  | x :: l' =>
      if bool_decide (x ∈ seen) then x :: repeats (x :: seen) l'
      else repeats (x :: seen) l'
  end.

(** Prompt documents whose [prompt], [variables] and [related_prompts]
    have the shape the schema declares: a text, a list of mappings with
    a text under [name], and a list. *)
Module Typed.

Definition variable_name (v : pyval) : option string :=
  match v with
  | PDict d =>
      match Dict.get "name" d with
      | Some (PStr s) => Some s
      | _ => None
      end
  | _ => None
  end.

Definition prompt_data (data : Dict.t pyval) : bool :=
  match Dict.get "prompt" data with
  | None | Some (PStr _) => true
  | _ => false
  end
  && match Dict.get "variables" data with
     | None => true
     | Some (PList l) =>
         forallb (fun v => bool_decide (is_Some (variable_name v))) l
     | _ => false
     end
  && match Dict.get "related_prompts" data with
     | None | Some (PList _) => true
     | _ => false
     end.

End Typed.

(** The counters of a result agree with its issues: no more files
    passed than were checked, and every checked file passed exactly
    when the result holds no error. *)
Module Accounting.

Definition consistent (res : ValidationResult.t) : Prop :=
  ValidationResult.files_passed res ≤ ValidationResult.files_checked res
  ∧ (ValidationResult.ok res = true
     ↔ ValidationResult.files_passed res = ValidationResult.files_checked res).

(** [res'] is [res] with issues appended that all satisfy [P]; the
    counters are the same. *)
Definition appends (P : Issue.t → Prop) (res res' : ValidationResult.t)
  : Prop :=
  ∃ extra,
    ValidationResult.issues res' = ValidationResult.issues res ++ extra
    ∧ Forall P extra
    ∧ ValidationResult.files_checked res' = ValidationResult.files_checked res
    ∧ ValidationResult.files_passed res' = ValidationResult.files_passed res.

End Accounting.

(** The issue of [validate_index] on a repeated prompt identifier. *)
Module Duplicate.

Definition issue (pid : option string) : Issue.t :=
  Issue.error "prompts/index.json"
    ("Duplicate prompt ID in index: " +:+ Validator.str_id pid).

Definition reported (i : Issue.t) : bool :=
  Str.startswith (Issue.message i) "Duplicate prompt ID in index: ".

End Duplicate.

(** The character [c] occurs in [s]. *)
Fixpoint has_char (c : ascii) (s : string) : bool :=
  match s with
  | "" => false
  | String x r => Ascii.eqb x c || has_char c r
  end.

Module Sample.

(** A catalog with a record on no scale. *)
Definition off_scale : Catalog.t :=
  {| Catalog.root := "/catalog";
     Catalog.prompts :=
       [("a", Fixture.prompt "a" "beginner" "Plan." []);
        ("z", Fixture.prompt "z" "guru" "Think." [])];
     Catalog.instructions := [];
     Catalog.starter_kits := [] |}.

(** A prompt document with [variables] and [related_prompts] of the
    declared shape. *)
Definition typed_prompt : Dict.t pyval :=
  [("id", PStr "p");
   ("prompt", PStr "Work on {{project}} and {{missing_var}}.");
   ("variables", PList [PDict [("name", PStr "project")];
                        PDict [("name", PStr "orphan")]]);
   ("related_prompts", PList [PStr "p"; PStr "q"])].

(** A catalog root with one kit file that lacks three of the required
    fields. *)
Definition kit_root : Root :=
  {| root_path := "/catalog";
     schema_file := None;
     index_file := None;
     prompt_dir _ := None;
     instruction_dir scope :=
       if String.eqb scope "guardrails"
       then Some [Fixture.instruction_file "g.instructions.md" "body"]
       else None;
     kits_dir :=
       Some [{| f_name := "web.yaml";
                f_text := Fixture.lines ["id: web"; "name: Web"] |}];
     path_exists _ := true |}.

End Sample.

(* ================================================================== *)
(** * Properties *)

(** ** Results and dictionaries *)

Lemma for_each_app {A S} (step : S → A → result S) (l1 l2 : list A) (s : S) :
  for_each step (l1 ++ l2) s = (s' ←! for_each step l1 s; for_each step l2 s').
Proof.
  revert s. induction l1 as [|x l1 IH]; intros s; simpl; [done|].
  destruct (step s x); simpl; auto.
Qed.

(** A loop that appends the elements passing a test is a filter. *)
Lemma for_each_filter {A} (test : A → result bool) (keep : A → bool)
    (l acc : list A) :
  (∀ x, x ∈ l → test x = Ok (keep x)) →
  for_each (fun results x =>
              k ←! test x; Ok (if k then results ++ [x] else results)) l acc
  = Ok (acc ++ filter (fun x => keep x = true) l).
Proof.
  revert acc. induction l as [|x l IH]; intros acc Htest; simpl.
  - by rewrite app_nil_r.
  - rewrite (Htest x) by left. simpl.
    rewrite IH by (intros y Hy; apply Htest; by right).
    rewrite filter_cons. destruct (keep x) eqn:Hk.
    + rewrite decide_True by done. by rewrite <- app_assoc.
    + rewrite decide_False by (by intros ?). done.
Qed.

Section dict.
Context {V : Type}.
Implicit Types (d : Dict.t V) (k : string) (v : V).

Lemma dict_get_set_eq d k v : Dict.get k (Dict.set k v d) = Some v.
Proof.
  induction d as [|[k' v'] d IH]; simpl.
  - by rewrite decide_True.
  - destruct (decide (k = k')) as [->|Hne]; simpl.
    + by rewrite decide_True.
    + by rewrite decide_False.
Qed.

Lemma dict_get_set_ne d k k' v :
  k ≠ k' → Dict.get k' (Dict.set k v d) = Dict.get k' d.
Proof.
  intros Hne. induction d as [|[k0 v0] d IH]; simpl.
  - by rewrite decide_False.
  - destruct (decide (k = k0)) as [->|Hk]; simpl.
    + by rewrite !decide_False.
    + destruct (decide (k' = k0)); auto.
Qed.

Lemma dict_get_None d k : Dict.get k d = None ↔ k ∉ Dict.keys d.
Proof.
  unfold Dict.keys. induction d as [|[k' v'] d IH]; simpl.
  - split; [intros _; apply not_elem_of_nil | done].
  - rewrite not_elem_of_cons.
    destruct (decide (k = k')) as [->|Hne]; [split; [done|tauto]|].
    rewrite IH. tauto.
Qed.

Lemma dict_get_Some_key d k v : Dict.get k d = Some v → k ∈ Dict.keys d.
Proof.
  intros Hget. destruct (decide (k ∈ Dict.keys d)) as [|Hn]; [done|].
  apply dict_get_None in Hn. congruence.
Qed.

Lemma dict_get_Some_value d k v : Dict.get k d = Some v → v ∈ Dict.values d.
Proof.
  unfold Dict.values. induction d as [|[k' v'] d IH]; simpl; [done|].
  destruct (decide (k = k')); intros Hget.
  - injection Hget as ->. left.
  - right. auto.
Qed.

Lemma dict_keys_set d k v :
  ∀ k', k' ∈ Dict.keys (Dict.set k v d) ↔ k' = k ∨ k' ∈ Dict.keys d.
Proof.
  unfold Dict.keys. intros k0. induction d as [|[k' v'] d IH]; simpl.
  - rewrite list_elem_of_singleton, elem_of_nil. tauto.
  - destruct (decide (k = k')) as [->|Hne]; simpl.
    + rewrite !elem_of_cons. tauto.
    + rewrite !elem_of_cons, IH. tauto.
Qed.

Lemma dict_set_NoDup d k v :
  NoDup (Dict.keys d) → NoDup (Dict.keys (Dict.set k v d)).
Proof.
  unfold Dict.keys. induction d as [|[k' v'] d IH]; simpl; intros Hnd.
  - apply NoDup_singleton.
  - apply NoDup_cons in Hnd as [Hk' Hd].
    destruct (decide (k = k')) as [->|Hne]; simpl.
    + by apply NoDup_cons.
    + apply NoDup_cons. split; [|auto].
      intros Hin. apply (dict_keys_set d k v) in Hin as [?|?]; auto.
Qed.

(** Filling a dictionary entry after entry: the last entry of a key
    is the one the dictionary holds. *)
Lemma dict_fill_last_wins (key_of : V → string) (entries : list V) d0 :
  NoDup (Dict.keys d0) →
  let d := foldl (fun d e => Dict.set (key_of e) e d) d0 entries in
  NoDup (Dict.keys d)
  ∧ ∀ k, Dict.get k d
         = match last (filter (fun e => key_of e = k) entries) with
           | Some e => Some e
           | None => Dict.get k d0
           end.
Proof.
  revert d0. induction entries as [|e entries IH]; intros d0 Hnd; simpl.
  - split; [done|]. intros k. done.
  - destruct (IH (Dict.set (key_of e) e d0)) as [Hnd' Hget].
    { by apply dict_set_NoDup. }
    split; [done|]. intros k. rewrite Hget, filter_cons.
    destruct (decide (key_of e = k)) as [<-|Hne].
    + rewrite last_cons. rewrite dict_get_set_eq.
      by destruct (last _).
    + by rewrite dict_get_set_ne.
Qed.
End dict.

(** ** Kit resolution *)

Lemma omap_resolved {V} (d : Dict.t V) (refs : list string) :
  Spec.resolved d refs (omap (fun ref => Dict.get ref d) refs).
Proof.
  induction refs as [|ref refs IH]; simpl.
  - constructor.
  - destruct (Dict.get ref d) eqn:Hget.
    + by apply Spec.resolved_match.
    + by apply Spec.resolved_skip.
Qed.

Lemma resolved_elem_of {V} (d : Dict.t V) refs vs :
  Spec.resolved d refs vs →
  ∀ v, v ∈ vs ↔ ∃ ref, ref ∈ refs ∧ Dict.get ref d = Some v.
Proof.
  induction 1 as [|ref refs v vs Hget _ IH|ref refs vs Hget _ IH]; intros x.
  - split; [by intros ?%elem_of_nil | by intros (? & ?%elem_of_nil & _)].
  - rewrite elem_of_cons, IH. split.
    + intros [->|(r & ? & ?)]; [exists ref | exists r]; split; auto;
        [left | by right].
    + intros (r & [->|?]%elem_of_cons & Hr); [left; congruence|].
      right. eauto.
  - rewrite IH. split.
    + intros (r & ? & ?). exists r. split; [by right | done].
    + intros (r & [->|?]%elem_of_cons & Hr); [congruence|eauto].
Qed.

(** C4.  [resolve_kit] fails, with the not-found condition, exactly when
    the kit identifier is absent from the starter-kit map.  Otherwise it
    returns the prompt records and the instruction records that the
    references of the kit resolve to, in the order of the references, and
    leaves out every reference without a match; a kit with one valid and
    one invalid prompt reference resolves to the valid record alone. *)
Theorem resolve_kit_lenient (c : Catalog.t) (kit_id : string) :
  ((∃ e, Catalog.resolve_kit c kit_id = Raise e)
   ↔ Dict.get kit_id (Catalog.starter_kits c) = None)
  ∧ (Dict.get kit_id (Catalog.starter_kits c) = None →
     Catalog.resolve_kit c kit_id = Raise ValueError)
  ∧ (∀ kit, Dict.get kit_id (Catalog.starter_kits c) = Some kit →
     ∃ ps ins,
       Catalog.resolve_kit c kit_id = Ok (ps, ins)
       ∧ Spec.resolved (Catalog.prompts c) (StarterKit.prompts kit) ps
       ∧ Spec.resolved (Catalog.instructions c)
                       (StarterKit.instructions kit) ins
       ∧ (∀ p, p ∈ ps ↔ ∃ pid, pid ∈ StarterKit.prompts kit
                               ∧ Dict.get pid (Catalog.prompts c) = Some p)
       ∧ (∀ i, i ∈ ins ↔ ∃ iid, iid ∈ StarterKit.instructions kit
                                ∧ Dict.get iid (Catalog.instructions c)
                                  = Some i)
       ∧ (∀ valid invalid p,
            StarterKit.prompts kit = [valid; invalid] →
            Dict.get valid (Catalog.prompts c) = Some p →
            Dict.get invalid (Catalog.prompts c) = None →
            ps = [p])).
Proof.
  unfold Catalog.resolve_kit.
  destruct (Dict.get kit_id (Catalog.starter_kits c)) as [kit|] eqn:Hkit.
  - split; [split; [by intros [e ?] | done]|]. split; [done|].
    intros kit' [= <-]. eexists _, _. split; [reflexivity|].
    split; [apply omap_resolved|]. split; [apply omap_resolved|].
    split; [apply resolved_elem_of, omap_resolved|].
    split; [apply resolved_elem_of, omap_resolved|].
    intros valid invalid p -> Hv Hi. simpl. by rewrite Hv, Hi.
  - split; [split; [done | intros _; by eexists]|]. split; [done|].
    intros kit [=].
Qed.

Lemma resolve_kit_lenient_witness :
  ∃ ps ins,
    Catalog.resolve_kit Fixture.catalog "kit" = Ok (ps, ins)
    ∧ ps = [Fixture.prompt "a" "beginner" "Plan {{project}}." ["b"]].
Proof.
  destruct (resolve_kit_lenient Fixture.catalog "kit") as (_ & _ & Hkit).
  destruct (Hkit (Fixture.kit "kit" ["a"; "ghost"] []) eq_refl)
    as (ps & ins & Hres & _ & _ & _ & _ & Hone).
  exists ps, ins. split; [exact Hres|].
  apply (Hone "a" "ghost"); reflexivity.
Defined.

(** ** Filtering by skill level *)

Lemma skill_rank (level : string) :
  level ∈ SKILL_ORDER →
  ∃ n, list_index level SKILL_ORDER = Ok n ∧ Spec.rank level = Some n
       ∧ level ≠ "".
Proof.
  unfold SKILL_ORDER. rewrite !elem_of_cons, elem_of_nil.
  intros [->|[->|[->|[->|[]]]]]; eexists; (split; [|split]);
    try reflexivity; done.
Qed.

Lemma passes_max_skill (level : string) (p : PromptEntry.t) :
  level ∈ SKILL_ORDER →
  PromptEntry.skill_level p ∈ SKILL_ORDER →
  Catalog.passes p None None (Some level) None None None
  = Ok (Spec.at_or_below level p).
Proof.
  intros (m & Hm & Hrm & Hne)%skill_rank (n & Hn & Hrn & _)%skill_rank.
  unfold Catalog.passes, Spec.at_or_below, given.
  apply String.eqb_neq in Hne. rewrite Hne, Hm, Hn, Hrm, Hrn. simpl.
  destruct (m <? n) eqn:Hlt, (n <=? m) eqn:Hle; simpl; try done.
  - apply Nat.ltb_lt in Hlt. apply Nat.leb_le in Hle. lia.
  - apply Nat.ltb_ge in Hlt. apply Nat.leb_gt in Hle. lia.
Qed.

(** C7.  In a catalog whose records all have a skill level of the scale,
    filtering with a maximum skill level keeps exactly the records ranked
    at or below it, in the order of the catalog; with the maximum
    "intermediate" every beginner and intermediate record is kept and
    every advanced and expert record is dropped. *)
Theorem filter_by_max_skill (c : Catalog.t) (level : string) :
  level ∈ SKILL_ORDER →
  (∀ p, p ∈ Dict.values (Catalog.prompts c) →
        PromptEntry.skill_level p ∈ SKILL_ORDER) →
  ∃ kept,
    Catalog.filter_prompts c None None (Some level) None None None = Ok kept
    ∧ kept = filter (fun p => Spec.at_or_below level p = true)
                    (Dict.values (Catalog.prompts c))
    ∧ (∀ p, p ∈ kept ↔ p ∈ Dict.values (Catalog.prompts c)
                        ∧ Spec.at_or_below level p = true)
    ∧ (level = "intermediate" →
       ∀ p, p ∈ Dict.values (Catalog.prompts c) →
         (PromptEntry.skill_level p = "beginner"
          ∨ PromptEntry.skill_level p = "intermediate" → p ∈ kept)
         ∧ (PromptEntry.skill_level p = "advanced"
            ∨ PromptEntry.skill_level p = "expert" → p ∉ kept)).
Proof.
  intros Hlevel Hscale. eexists. split.
  { unfold Catalog.filter_prompts.
    rewrite (for_each_filter _ (Spec.at_or_below level)).
    - reflexivity.
    - intros p Hp. by apply passes_max_skill; [|apply Hscale]. }
  simpl. split; [done|]. split.
  { intros p. by rewrite list_elem_of_filter, (comm and). }
  intros -> p Hp. rewrite !list_elem_of_filter.
  unfold Spec.at_or_below. split.
  - intros [->| ->]; split; done.
  - intros [->| ->] [? _]; done.
Qed.

Lemma filter_by_max_skill_witness :
  ∃ kept,
    Catalog.filter_prompts Fixture.catalog None None (Some "intermediate")
      None None None = Ok kept
    ∧ kept = [Fixture.prompt "a" "beginner" "Plan {{project}}." ["b"];
              Fixture.prompt "c" "intermediate" "Ship." []].
Proof.
  destruct (filter_by_max_skill Fixture.catalog "intermediate")
    as (kept & Hkept & -> & _).
  - right. left.
  - intros p Hp. simpl in Hp.
    repeat (apply elem_of_cons in Hp as [->|Hp]);
      [left|right; right; left|right; left|by apply elem_of_nil in Hp].
  - eexists. split; [exact Hkept|reflexivity].
Defined.

(** ** The chain walk *)

Section chain.
Variable prompts : Dict.t PromptEntry.t.

Lemma walk_visits visited current ids chain :
  Spec.walk prompts visited current ids chain →
  NoDup ids
  ∧ (∀ i, i ∈ ids → (i ∉ visited) ∧ i ∈ Dict.keys prompts)
  ∧ Forall2 (fun i p => Dict.get i prompts = Some p) ids chain.
Proof.
  induction 1 as [| | |visited cid p ids chain Hnew Hget _ IH];
    try (split; [constructor|split; [by intros ? ?%elem_of_nil|constructor]]).
  destruct IH as (Hnd & Hin & Hall). split; [|split].
  - apply NoDup_cons. split; [|done].
    intros Hcid. apply Hin in Hcid as [Hcid _]. apply Hcid.
    apply elem_of_union_r. by apply elem_of_singleton.
  - intros i [->|Hi]%elem_of_cons.
    + split; [done|]. by eapply dict_get_Some_key.
    + apply Hin in Hi as [Hi ?]. split; [|done].
      intros ?. apply Hi. by apply elem_of_union_l.
  - by constructor.
Qed.

(** The loop follows the walk, as soon as it has one unit of fuel for
    every record of the chain and one for the stop. *)
Lemma chain_loop_walk visited current ids chain :
  Dict.get "" prompts = None →
  Spec.walk prompts visited current ids chain →
  ∀ fuel acc, length ids < fuel →
    Catalog.chain_loop prompts fuel acc visited current
    = Some (acc ++ chain).
Proof.
  intros Hempty.
  induction 1 as [visited|visited cid Hold|visited cid Hnew Hget
                 |visited cid p ids chain Hnew Hget _ IH];
    intros [|fuel] acc Hfuel; simpl in *; try lia.
  - by rewrite app_nil_r.
  - rewrite (bool_decide_eq_false_2 (cid ∉ visited)) by tauto.
    by rewrite andb_false_r, app_nil_r.
  - rewrite Hget, app_nil_r. by destruct (_ && _).
  - assert (cid ≠ "") as Hne%String.eqb_neq by congruence.
    rewrite Hne, bool_decide_eq_true_2 by done. simpl.
    rewrite Hget. unfold Spec.successor in IH.
    rewrite IH by lia. by rewrite <- app_assoc.
Qed.

(** A walk exists from every state: each step takes a record that has
    not been met, and there are finitely many. *)
Lemma walk_exists (n : nat) :
  ∀ visited current,
    size ((list_to_set (Dict.keys prompts) : gset string) ∖ visited) ≤ n →
    ∃ ids chain, Spec.walk prompts visited current ids chain.
Proof.
  induction n as [|n IH]; intros visited [cid|] Hsize;
    try (eexists _, _; by apply Spec.walk_no_successor).
  - destruct (decide (cid ∈ visited));
      [eexists _, _; by apply Spec.walk_repeated|].
    destruct (Dict.get cid prompts) as [p|] eqn:Hget;
      [|eexists _, _; by apply Spec.walk_missing].
    exfalso. apply dict_get_Some_key in Hget.
    assert (cid ∈ (list_to_set (Dict.keys prompts) : gset string) ∖ visited)
      as Hin by (apply elem_of_difference; split;
                 [by apply elem_of_list_to_set|done]).
    assert (size ((list_to_set (Dict.keys prompts) : gset string)
                  ∖ visited) = 0) as Hz%size_empty_inv by lia.
    by apply Hz in Hin.
  - destruct (decide (cid ∈ visited));
      [eexists _, _; by apply Spec.walk_repeated|].
    destruct (Dict.get cid prompts) as [p|] eqn:Hget;
      [|eexists _, _; by apply Spec.walk_missing].
    destruct (IH (visited ∪ {[cid]}) (Spec.successor p))
      as (ids & chain & Hwalk).
    + apply dict_get_Some_key in Hget.
      set (K := list_to_set (Dict.keys prompts) : gset string) in *.
      assert (cid ∈ K) by by apply elem_of_list_to_set.
      assert (K ∖ visited = {[cid]} ∪ K ∖ (visited ∪ {[cid]})) as Heq.
      { apply set_eq. intros x.
        rewrite elem_of_union, !elem_of_difference, elem_of_union,
          elem_of_singleton.
        destruct (decide (x = cid)) as [->|]; tauto. }
      rewrite Heq, size_union, size_singleton in Hsize; [lia|].
      intros x ?%elem_of_singleton. subst x.
      rewrite elem_of_difference, elem_of_union, elem_of_singleton. tauto.
    + eexists _, _. by eapply Spec.walk_step.
Qed.

Lemma walk_length visited current ids chain :
  Spec.walk prompts visited current ids chain →
  length ids ≤ length prompts.
Proof.
  intros (Hnd & Hin & _)%walk_visits.
  replace (length prompts) with (length (Dict.keys prompts))
    by (unfold Dict.keys; apply length_fmap).
  apply submseteq_length, NoDup_submseteq; [done|].
  intros i Hi. by apply Hin.
Qed.
End chain.

(** C3.  In a catalog that stores no record under the empty identifier,
    the chain walk from any start identifier terminates: with more fuel
    than the catalog has records the loop returns, and what it returns is
    the chain of the walk that follows the first element of each [next]
    list and stops on a missing record, on an empty or absent [next] list
    and on a repeated identifier.  The identifiers it visits are pairwise
    distinct.  For two records A and B whose first successors are B and
    A, the walk from A returns exactly [A, B]. *)
Theorem get_chain_walk (c : Catalog.t) :
  Dict.get "" (Catalog.prompts c) = None →
  (∀ start_id, ∃ ids chain,
      (∀ fuel, length (Catalog.prompts c) < fuel →
               Catalog.get_chain fuel c start_id = Some chain)
      ∧ Spec.walk (Catalog.prompts c) ∅ (Some start_id) ids chain
      ∧ NoDup ids
      ∧ Forall2 (fun i p => Dict.get i (Catalog.prompts c) = Some p)
                ids chain)
  ∧ (∀ a b pa pb,
       a ≠ b →
       Dict.get a (Catalog.prompts c) = Some pa →
       Dict.get b (Catalog.prompts c) = Some pb →
       Dict.get "next" (PromptEntry.chain_position pa) = Some [b] →
       Dict.get "next" (PromptEntry.chain_position pb) = Some [a] →
       ∀ fuel, length (Catalog.prompts c) < fuel →
               Catalog.get_chain fuel c a = Some [pa; pb]).
Proof.
  intros Hempty.
  assert (∀ start_id ids chain,
            Spec.walk (Catalog.prompts c) ∅ (Some start_id) ids chain →
            ∀ fuel, length (Catalog.prompts c) < fuel →
                    Catalog.get_chain fuel c start_id = Some chain) as Hrun.
  { intros start_id ids chain Hwalk fuel Hfuel. unfold Catalog.get_chain.
    rewrite (chain_loop_walk _ _ _ ids chain) by
      (try done; apply walk_length in Hwalk; lia).
    done. }
  split.
  - intros start_id.
    destruct (walk_exists (Catalog.prompts c) _ ∅ (Some start_id)
                (le_n _)) as (ids & chain & Hwalk).
    exists ids, chain. split; [by eapply Hrun|]. split; [done|].
    apply walk_visits in Hwalk as (? & _ & ?). done.
  - intros a b pa pb Hab Ha Hb Hna Hnb. apply (Hrun a [a; b]).
    apply Spec.walk_step; [apply not_elem_of_empty|done|].
    unfold Spec.successor. rewrite Hna. simpl.
    apply Spec.walk_step; [|done|].
    { rewrite elem_of_union, elem_of_singleton.
      intros [[]%elem_of_empty|]; congruence. }
    unfold Spec.successor. rewrite Hnb. simpl.
    apply Spec.walk_repeated.
    rewrite !elem_of_union, !elem_of_singleton. tauto.
Qed.

Lemma get_chain_walk_witness :
  Catalog.get_chain 4 Fixture.catalog "a"
  = Some [Fixture.prompt "a" "beginner" "Plan {{project}}." ["b"];
          Fixture.prompt "b" "advanced" "Review {{project}}." ["a"]].
Proof.
  destruct (get_chain_walk Fixture.catalog eq_refl) as [_ Hcycle].
  apply (Hcycle "a" "b"); try reflexivity.
  - discriminate.
  - simpl. lia.
Defined.

(** ** Loading *)

Lemma foldl_omap {A B S} (g : A → option B) (step : S → B → S)
    (l : list A) (s : S) :
  foldl (fun s x => match g x with Some y => step s y | None => s end) s l
  = foldl step s (omap g l).
Proof.
  revert s. induction l as [|x l IH]; intros s; simpl; [done|].
  destruct (g x); simpl; apply IH.
Qed.

Lemma foldl_scan {S} (dir_of : string → option (list File)) (suffix : string)
    (step : string → S → File → S) (dirs : list string) (s : S) :
  foldl (fun s dir_name =>
           match dir_of dir_name with
           | None => s
           | Some dir => foldl (step dir_name) s (sorted_glob suffix dir)
           end) s dirs
  = foldl (fun s '(dir_name, f) => step dir_name s f) s
          (Spec.scan dirs dir_of suffix).
Proof.
  unfold Spec.scan. revert s.
  induction dirs as [|dir_name dirs IH]; intros s; simpl; [done|].
  rewrite foldl_app, <- IH. f_equal.
  destruct (dir_of dir_name) as [dir|]; simpl; [|done].
  generalize (sorted_glob suffix dir). intros l. revert s.
  induction l as [|f l IHl]; intros s; simpl; auto.
Qed.

Lemma foldl_ext_in {A S} (f g : S → A → S) (l : list A) (s : S) :
  (∀ s x, f s x = g s x) → foldl f s l = foldl g s l.
Proof.
  intros Hfg. revert s. induction l as [|x l IH]; intros s; simpl; [done|].
  by rewrite Hfg, IH.
Qed.

Lemma filter_none {A} (P : A → Prop) `{!∀ x, Decision (P x)} (l : list A) :
  (∀ x, x ∈ l → ¬ P x) → filter P l = [].
Proof.
  induction l as [|x l IH]; intros Hl; [done|].
  rewrite filter_cons, decide_False by (apply Hl; left).
  apply IH. intros y Hy. apply Hl. by right.
Qed.

Lemma sorted_glob_sorted (suffix : string) (dir : list File) :
  StronglySorted name_le (sorted_glob suffix dir)
  ∧ sorted_glob suffix dir
    ≡ₚ filter (fun f => Str.endswith (f_name f) suffix = true) dir.
Proof.
  assert (Transitive name_le).
  { intros f g h. unfold name_le. apply transitivity. }
  assert (Total name_le).
  { intros f g. unfold name_le. apply total, _. }
  split; [apply StronglySorted_merge_sort; apply _|].
  apply merge_sort_Permutation.
Qed.

Lemma elem_of_sorted_glob (suffix : string) (dir : list File) (f : File) :
  f ∈ sorted_glob suffix dir
  ↔ Str.endswith (f_name f) suffix = true ∧ f ∈ dir.
Proof.
  destruct (sorted_glob_sorted suffix dir) as [_ Hperm].
  by rewrite Hperm, list_elem_of_filter.
Qed.

Section load.
Context `{Libraries}.

Lemma load_prompts_fill (r : Root) :
  Catalog.prompts (Catalog.load r)
  = foldl (fun d e => Dict.set (PromptEntry.id e) e d) []
          (Spec.parsed_prompts r).
Proof.
  unfold Spec.parsed_prompts. rewrite <- foldl_omap.
  change (Catalog.prompts (Catalog.load r))
    with (foldl (Catalog.load_prompt_dir r) [] PROMPT_DIRS).
  pose (step := fun dir_name =>
                  Catalog.load_prompt_file
                    (Catalog.path_join
                       (Catalog.path_join (root_path r) "prompts")
                       dir_name)).
  etrans; [|etrans; [apply (foldl_scan (prompt_dir r) ".yaml" step)|]].
  { apply foldl_ext_in. intros d dir_name. unfold Catalog.load_prompt_dir.
    by destruct (prompt_dir r dir_name). }
  apply foldl_ext_in. intros d [dir_name f].
  unfold step, Catalog.load_prompt_file.
  destruct (Str.startswith _ _); [done|].
  by destruct (PromptEntry.from_yaml _ _).
Qed.

Lemma load_instructions_fill (r : Root) :
  Catalog.instructions (Catalog.load r)
  = foldl (fun d e => Dict.set (InstructionEntry.stem e) e d) []
          (Spec.parsed_instructions r).
Proof.
  unfold Spec.parsed_instructions. rewrite <- foldl_omap.
  change (Catalog.instructions (Catalog.load r))
    with (foldl (Catalog.load_instruction_dir r) [] INSTRUCTION_SCOPES).
  pose (step := fun scope =>
                  Catalog.load_instruction_file scope
                    (Catalog.path_join
                       (Catalog.path_join (root_path r) "instructions")
                       scope)).
  etrans;
    [|etrans;
      [apply (foldl_scan (instruction_dir r) ".instructions.md" step)|]].
  { apply foldl_ext_in. intros d scope. unfold Catalog.load_instruction_dir.
    by destruct (instruction_dir r scope). }
  apply foldl_ext_in. intros d [scope f].
  unfold step, Catalog.load_instruction_file.
  by destruct (InstructionEntry.from_path _ _ _ _).
Qed.

Lemma load_kits_fill (r : Root) :
  Catalog.starter_kits (Catalog.load r)
  = foldl (fun d e => Dict.set (StarterKit.id e) e d) []
          (Spec.parsed_kits r).
Proof.
  unfold Spec.parsed_kits. rewrite <- foldl_omap. simpl.
  destruct (kits_dir r) as [dir|]; [|done].
  apply foldl_ext_in. intros d f. unfold Catalog.load_kit_file.
  by destruct (StarterKit.from_yaml _).
Qed.
End load.

Lemma fill_last_wins {V} (key_of : V → string) (entries : list V) :
  Spec.last_wins key_of entries
    (foldl (fun d e => Dict.set (key_of e) e d) [] entries).
Proof.
  destruct (dict_fill_last_wins key_of entries []) as [Hnd Hget];
    [constructor|].
  split; [done|]. intros key. rewrite Hget.
  by destruct (last _).
Qed.

Lemma last_wins_latest {V} (key_of : V → string) (entries : list V) d :
  Spec.last_wins key_of entries d →
  ∀ before e after,
    entries = before ++ e :: after →
    (∀ e', e' ∈ after → key_of e' ≠ key_of e) →
    Dict.get (key_of e) d = Some e
    ∧ length (filter (fun k => k = key_of e) (Dict.keys d)) = 1.
Proof.
  intros [Hnd Hget] before e after -> Hafter.
  assert (Dict.get (key_of e) d = Some e) as Hd.
  { rewrite Hget, filter_app, filter_cons, decide_True by done.
    rewrite (filter_none _ after) by (intros e' He'; by apply Hafter).
    by rewrite last_snoc. }
  split; [done|]. apply dict_get_Some_key in Hd.
  revert Hnd Hd. generalize (Dict.keys d). intros ks.
  induction ks as [|k ks IH]; [by intros _ ?%elem_of_nil|].
  intros [Hk Hnd]%NoDup_cons Hin. rewrite filter_cons.
  destruct (decide (k = key_of e)) as [->|Hne]; simpl.
  - f_equal. rewrite filter_none; [done|]. by intros k' ? ->.
  - apply elem_of_cons in Hin as [?|?]; [congruence|auto].
Qed.

(** C10.  [Catalog.load] returns a catalog, whatever the files hold,
    and each of its three maps is filled in scan order with the later
    entry replacing the earlier one: a key is held once, and its entry is
    the one of the last file of the scan that parsed to this key.  When
    several prompt files declare one identifier, several instruction
    files have one stem, or several kits one identifier, the map holds
    the entry of the last of them.  The scan takes the directories in
    their fixed order and the files of a directory sorted by name. *)
Theorem load_last_wins `{Libraries} (r : Root) :
  let c := Catalog.load r in
  Spec.last_wins PromptEntry.id (Spec.parsed_prompts r) (Catalog.prompts c)
  ∧ Spec.last_wins InstructionEntry.stem (Spec.parsed_instructions r)
      (Catalog.instructions c)
  ∧ Spec.last_wins StarterKit.id (Spec.parsed_kits r)
      (Catalog.starter_kits c)
  ∧ (∀ before e after,
       Spec.parsed_prompts r = before ++ e :: after →
       (∀ e', e' ∈ after → PromptEntry.id e' ≠ PromptEntry.id e) →
       Dict.get (PromptEntry.id e) (Catalog.prompts c) = Some e
       ∧ length (filter (fun k => k = PromptEntry.id e)
                        (Dict.keys (Catalog.prompts c))) = 1)
  ∧ (∀ before e after,
       Spec.parsed_instructions r = before ++ e :: after →
       (∀ e', e' ∈ after →
              InstructionEntry.stem e' ≠ InstructionEntry.stem e) →
       Dict.get (InstructionEntry.stem e) (Catalog.instructions c) = Some e
       ∧ length (filter (fun k => k = InstructionEntry.stem e)
                        (Dict.keys (Catalog.instructions c))) = 1)
  ∧ (∀ before e after,
       Spec.parsed_kits r = before ++ e :: after →
       (∀ e', e' ∈ after → StarterKit.id e' ≠ StarterKit.id e) →
       Dict.get (StarterKit.id e) (Catalog.starter_kits c) = Some e
       ∧ length (filter (fun k => k = StarterKit.id e)
                        (Dict.keys (Catalog.starter_kits c))) = 1)
  ∧ (∀ suffix dir,
       StronglySorted name_le (sorted_glob suffix dir)
       ∧ sorted_glob suffix dir
         ≡ₚ filter (fun f => Str.endswith (f_name f) suffix = true) dir).
Proof.
  intros c.
  assert (Spec.last_wins PromptEntry.id (Spec.parsed_prompts r)
            (Catalog.prompts c)) as Hp.
  { subst c. rewrite load_prompts_fill. apply fill_last_wins. }
  assert (Spec.last_wins InstructionEntry.stem (Spec.parsed_instructions r)
            (Catalog.instructions c)) as Hi.
  { subst c. rewrite load_instructions_fill. apply fill_last_wins. }
  assert (Spec.last_wins StarterKit.id (Spec.parsed_kits r)
            (Catalog.starter_kits c)) as Hk.
  { subst c. rewrite load_kits_fill. apply fill_last_wins. }
  split; [done|]. split; [done|]. split; [done|].
  split; [apply (last_wins_latest _ _ _ Hp)|].
  split; [apply (last_wins_latest _ _ _ Hi)|].
  split; [apply (last_wins_latest _ _ _ Hk)|].
  apply sorted_glob_sorted.
Qed.

Lemma load_last_wins_witness :
  let r := Fixture.root None
             [Fixture.prompt_file "b.yaml" "dup" "second";
              Fixture.prompt_file "a.yaml" "dup" "first";
              Fixture.prompt_file "_c.yaml" "dup" "third"] [] in
  ∃ e, Dict.get "dup" (Catalog.prompts (Catalog.load (H := Fixture.libraries) r))
       = Some e
       ∧ PromptEntry.prompt_text e = "second"
       ∧ PromptEntry.file_path e = "/catalog/prompts/planning/b.yaml".
Proof.
  intros r.
  destruct (load_last_wins (H := Fixture.libraries) r)
    as (_ & _ & _ & Hlast & _).
  assert (∃ ea eb,
            Spec.parsed_prompts (H := Fixture.libraries) r = [ea] ++ eb :: []
            ∧ PromptEntry.id eb = "dup"
            ∧ PromptEntry.prompt_text eb = "second"
            ∧ PromptEntry.file_path eb = "/catalog/prompts/planning/b.yaml")
    as (ea & eb & Hparsed & Hid & Htext & Hpath).
  { vm_compute. eexists _, _. repeat split. }
  destruct (Hlast [ea] eb [] Hparsed) as [Hget _].
  - intros e' He'. by apply elem_of_nil in He'.
  - exists eb. rewrite Hid in Hget. repeat split; assumption.
Defined.

(** ** Text *)

#[local] Arguments String.append !_ _ / : simpl nomatch.

Lemma append_nil_r (s : string) : s +:+ "" = s.
Proof. induction s as [|c s IH]; simpl; congruence. Qed.

Lemma append_assoc (a b c : string) : (a +:+ b) +:+ c = a +:+ b +:+ c.
Proof. induction a as [|x a IH]; simpl; congruence. Qed.

Lemma length_append (a b : string) :
  String.length (a +:+ b) = String.length a + String.length b.
Proof. induction a as [|x a IH]; simpl; congruence. Qed.

Lemma length_zero (s : string) : String.length s = 0 → s = "".
Proof. by destruct s. Qed.

Lemma prefix_spec (p s : string) :
  String.prefix p s = true ↔ ∃ r, s = p +:+ r.
Proof.
  revert s. induction p as [|c p IH]; intros s; simpl.
  - split; [by exists s | by destruct s].
  - destruct s as [|c' s]; simpl; [split; [done | by intros [? ?]]|].
    destruct (ascii_dec c c') as [->|Hne].
    + rewrite IH. split; intros [r Hr]; exists r; congruence.
    + split; [done|]. intros [r Hr]. congruence.
Qed.

Lemma prefix_append (p r : string) : String.prefix p (p +:+ r) = true.
Proof. apply prefix_spec. by exists r. Qed.

(** Two ways of cutting one text in two. *)
Lemma append_eq_append (a b c d : string) :
  a +:+ b = c +:+ d →
  ∃ m, (c = a +:+ m ∧ b = m +:+ d) ∨ (a = c +:+ m ∧ d = m +:+ b).
Proof.
  revert c. induction a as [|x a IH]; intros c Heq; simpl in *.
  - exists c. by left.
  - destruct c as [|y c]; simpl in *.
    + exists (String x a). by right.
    + injection Heq as -> Heq. destruct (IH _ Heq) as [m [[-> ->]|[-> ->]]];
        exists m; [by left | by right].
Qed.

Lemma string_length_ind (P : string → Prop) :
  (∀ s, (∀ s', String.length s' < String.length s → P s') → P s) →
  ∀ s, P s.
Proof.
  intros Hstep s. remember (String.length s) as n eqn:Hn.
  revert s Hn. induction (lt_wf n) as [n _ IH]. intros s ->.
  apply Hstep. intros s' Hlt. by eapply IH.
Qed.

(** *** Placeholders do not overlap *)

Lemma all_word_head (c : ascii) (w : string) :
  Spec.all_word (String c w) = true →
  c ≠ "{"%char ∧ c ≠ "}"%char ∧ Spec.all_word w = true.
Proof.
  simpl. intros [Hc Hw]%andb_true_iff.
  repeat split; [intros ->; discriminate Hc..|done].
Qed.

Lemma placeholder_unfold (w : string) :
  Str.placeholder w = String "{" (String "{" (w +:+ "}}")).
Proof. done. Qed.

(** Two names closed at the head of equal texts are the same name. *)
Lemma word_close_eq (w1 w2 r1 r2 : string) :
  Spec.all_word w1 = true → Spec.all_word w2 = true →
  w1 +:+ "}}" +:+ r1 = w2 +:+ "}}" +:+ r2 → w1 = w2 ∧ r1 = r2.
Proof.
  revert w2. induction w1 as [|c w1 IH]; intros [|c' w2] H1 H2 Heq;
    simpl in Heq.
  - split; congruence.
  - apply all_word_head in H2 as (_ & ? & _). congruence.
  - apply all_word_head in H1 as (_ & ? & _). congruence.
  - apply all_word_head in H1 as (_ & _ & H1).
    apply all_word_head in H2 as (_ & _ & H2).
    injection Heq as -> Heq. destruct (IH _ H1 H2 Heq) as [-> ->]. done.
Qed.

(** An opening brace cannot stand inside a name or its closing braces. *)
Lemma word_close_open (w r m x : string) :
  Spec.all_word w = true →
  w +:+ "}}" +:+ r = m +:+ String "{" x →
  ∃ m', m = w +:+ "}}" +:+ m'.
Proof.
  revert m. induction w as [|c w IH]; intros m Hw Heq; simpl in Heq.
  - destruct m as [|c1 [|c2 m]]; simpl in Heq; try congruence.
    injection Heq as <- <- _. by exists m.
  - apply all_word_head in Hw as (Hc & _ & Hw).
    destruct m as [|c1 m]; simpl in Heq; [congruence|].
    injection Heq as <- Heq. destruct (IH _ Hw Heq) as [m' ->].
    by exists m'.
Qed.

(** A placeholder that starts inside a text which begins with a
    placeholder starts with it or after it. *)
Lemma placeholder_overlap (w1 w2 r1 m r2 : string) :
  Spec.all_word w1 = true →
  Str.placeholder w1 +:+ r1 = m +:+ Str.placeholder w2 +:+ r2 →
  m = "" ∨ ∃ m', m = Str.placeholder w1 +:+ m'.
Proof.
  intros Hw. rewrite !placeholder_unfold. simpl. intros Heq.
  destruct m as [|c1 m]; [by left|right]. simpl in Heq.
  injection Heq as <- Heq.
  destruct m as [|c2 m]; simpl in Heq.
  - injection Heq as Heq. destruct w1 as [|c w1]; simpl in Heq;
      [congruence|]. apply all_word_head in Hw as (? & _). congruence.
  - injection Heq as <- Heq. rewrite append_assoc in Heq.
    destruct (word_close_open _ _ _ _ Hw Heq) as [m' ->].
    exists m'. simpl. by rewrite !append_assoc.
Qed.

(** The placement of two placeholders in one text: the second lies
    before the first, they are the same, or it lies after the first. *)
Lemma occurrence_cases (a w1 r1 x w2 r2 : string) :
  Spec.all_word w1 = true → Spec.all_word w2 = true →
  a +:+ Str.placeholder w1 +:+ r1 = x +:+ Str.placeholder w2 +:+ r2 →
  (∃ m, a = x +:+ Str.placeholder w2 +:+ m
        ∧ r2 = m +:+ Str.placeholder w1 +:+ r1)
  ∨ (a = x ∧ w1 = w2 ∧ r1 = r2)
  ∨ (∃ m, x = a +:+ Str.placeholder w1 +:+ m
          ∧ r1 = m +:+ Str.placeholder w2 +:+ r2).
Proof.
  intros H1 H2 Heq.
  destruct (append_eq_append _ _ _ _ Heq) as [m [[-> Hm]|[-> Hm]]].
  - destruct (placeholder_overlap _ _ _ _ _ H1 Hm) as [->|[m' ->]].
    + right; left. rewrite append_nil_r. split; [done|].
      unfold Str.placeholder in Hm. simpl in Hm.
      injection Hm as Hm. rewrite !append_assoc in Hm.
      by apply word_close_eq.
    + right; right. exists m'. rewrite !append_assoc in *.
      split; [done|]. by apply String.app_inj in Hm.
  - destruct (placeholder_overlap _ _ _ _ _ H2 Hm) as [->|[m' ->]].
    + right; left. rewrite append_nil_r. split; [done|].
      unfold Str.placeholder in Hm. simpl in Hm.
      injection Hm as Hm. rewrite !append_assoc in Hm.
      apply word_close_eq in Hm as [-> ->]; done.
    + left. exists m'. rewrite !append_assoc in *.
      split; [done|]. by apply String.app_inj in Hm.
Qed.

(** *** The placeholder pattern *)

Lemma span_word_split (s : string) :
  s = (Str.span_word s).1 +:+ (Str.span_word s).2
  ∧ Spec.all_word (Str.span_word s).1 = true.
Proof.
  induction s as [|c s [IH1 IH2]]; simpl; [done|].
  destruct (Str.is_word_char c) eqn:Hc; [|done].
  destruct (Str.span_word s) as [w r]; simpl in *.
  rewrite Hc, IH2. split; [congruence|done].
Qed.

Lemma span_word_closed (w r : string) :
  Spec.all_word w = true →
  Str.span_word (w +:+ "}}" +:+ r) = (w, "}}" +:+ r).
Proof.
  induction w as [|c w IH]; simpl; [done|].
  intros [-> Hw]%andb_true_iff. specialize (IH Hw). simpl in IH.
  by rewrite IH.
Qed.

Lemma match_placeholder_Some (s w r : string) :
  Str.match_placeholder s = Some (w, r) →
  s = Str.placeholder w +:+ r ∧ Spec.is_name w.
Proof.
  unfold Str.match_placeholder.
  destruct s as [|c1 [|c2 s]]; try done.
  { by destruct c1 as [[] [] [] [] [] [] [] []]. }
  destruct c1 as [[] [] [] [] [] [] [] []]; try done.
  destruct c2 as [[] [] [] [] [] [] [] []]; try done.
  destruct (span_word_split s) as [Hs Hw].
  destruct (Str.span_word s) as [[|c w'] r']; simpl in *; [done|].
  destruct r' as [|d1 [|d2 r']]; try done.
  { by destruct d1 as [[] [] [] [] [] [] [] []]. }
  destruct d1 as [[] [] [] [] [] [] [] []]; try done.
  destruct d2 as [[] [] [] [] [] [] [] []]; try done.
  intros [= <- <-]. split; [|done].
  rewrite Hs. unfold Str.placeholder. simpl. by rewrite !append_assoc.
Qed.

Lemma match_placeholder_complete (w r : string) :
  Spec.is_name w →
  Str.match_placeholder (Str.placeholder w +:+ r) = Some (w, r).
Proof.
  intros [Hne Hw]. unfold Str.placeholder, Str.match_placeholder. simpl.
  rewrite append_assoc, span_word_closed by done.
  by destruct w.
Qed.

Lemma findall_skip (x r : string) :
  Str.findall_go (String.length x) (x +:+ r) = Str.findall_go 0 r.
Proof. induction x as [|c x IH]; simpl; [by destruct r|done]. Qed.

Lemma no_placeholder_empty : ¬ Spec.has_placeholder "".
Proof.
  intros (w & _ & a & b & Heq). apply (f_equal String.length) in Heq.
  rewrite !length_append in Heq. simpl in Heq. lia.
Qed.

#[local] Arguments Str.match_placeholder : simpl never.

(** A text without placeholder at its head has its placeholders in its
    tail. *)
Lemma has_placeholder_tail (c : ascii) (s : string) :
  Str.match_placeholder (String c s) = None →
  Spec.has_placeholder (String c s) → Spec.has_placeholder s.
Proof.
  intros Hhead (w & Hw & [|c' a] & b & Heq).
  - change (String c s = Str.placeholder w +:+ b) in Heq.
    rewrite Heq, match_placeholder_complete in Hhead; done.
  - simpl in Heq. injection Heq as _ ->.
    exists w. split; [done|]. by exists a, b.
Qed.

Lemma occurrences_tail (c : ascii) (s : string) (ws : list string) :
  Str.match_placeholder (String c s) = None →
  Spec.occurrences s ws → Spec.occurrences (String c s) ws.
Proof.
  intros Hhead Hocc.
  destruct Hocc as [s Hnone|a w rest ws Hw Ha Hrest].
  - apply Spec.occ_none. intros Hp. by apply Hnone, (has_placeholder_tail c).
  - change (Spec.occurrences (String c a +:+ Str.placeholder w +:+ rest)
                             (w :: ws)).
    apply Spec.occ_next; [done| |done].
    intros Hp. apply Ha, (has_placeholder_tail c); [|done].
    destruct (Str.match_placeholder (String c a))
      as [[w' r']|] eqn:Hm; [|done].
    apply match_placeholder_Some in Hm as [Hm Hw'].
    change (Str.match_placeholder
              (String c a +:+ Str.placeholder w +:+ rest) = None) in Hhead.
    rewrite Hm, append_assoc in Hhead.
    by rewrite match_placeholder_complete in Hhead.
Qed.

(** [findall] lists the placeholders of the text from left to right. *)
Lemma findall_occurrences (text : string) :
  Spec.occurrences text (Str.findall_placeholders text).
Proof.
  unfold Str.findall_placeholders.
  induction text as [text IH] using string_length_ind.
  destruct text as [|c s]; simpl.
  { apply Spec.occ_none, no_placeholder_empty. }
  destruct (Str.match_placeholder (String c s)) as [[w rest]|] eqn:Hm.
  - pose proof Hm as [Heq Hw]%match_placeholder_Some.
    unfold Str.placeholder in Heq. simpl in Heq. injection Heq as -> ->.
    replace (String.length w + 3)
      with (String.length (String "{" (w +:+ "}}"))) by
      (simpl; rewrite length_append; simpl; lia).
    change (String "{" ((w +:+ "}}") +:+ rest))
      with (String "{" (w +:+ "}}") +:+ rest).
    rewrite findall_skip.
    change (Spec.occurrences ("" +:+ Str.placeholder w +:+ rest)
              (w :: Str.findall_go 0 rest)).
    apply Spec.occ_next; [done|apply no_placeholder_empty|].
    apply IH. simpl. rewrite length_append. lia.
  - apply occurrences_tail; [done|]. apply IH. simpl. lia.
Qed.

Lemma occurrences_elem_of (text : string) (ws : list string) :
  Spec.occurrences text ws →
  ∀ w, w ∈ ws ↔ Spec.is_name w ∧ Spec.occurs w text.
Proof.
  induction 1 as [text Hnone|a w rest ws Hw Ha _ IH]; intros w'.
  - split; [by intros ?%elem_of_nil|]. intros [? ?]. destruct Hnone.
    by exists w'.
  - rewrite elem_of_cons, IH. split.
    + intros [->|[Hw' (x & y & ->)]]; (split; [done|]).
      * by exists a, rest.
      * exists (a +:+ Str.placeholder w +:+ x), y.
        by rewrite !append_assoc.
    + intros [Hw' (x & y & Heq)].
      destruct (occurrence_cases a w rest x w' y)
        as [(m & -> & _)|[(_ & -> & _)|(m & _ & ->)]];
        [apply Hw|apply Hw'|done| | |].
      * destruct Ha. exists w'. split; [done|]. by exists x, m.
      * by left.
      * right. split; [done|]. by exists m, y.
Qed.

(** The list of the placeholders of a text is determined. *)
Lemma occurrences_unique (text : string) (ws ws' : list string) :
  Spec.occurrences text ws → Spec.occurrences text ws' → ws = ws'.
Proof.
  intros Hocc. revert ws'.
  induction Hocc as [text Hnone|a w rest ws Hw Ha _ IH]; intros ws' Hocc'.
  - inversion Hocc' as [|a w rest ws0 Hw]; subst; [done|].
    destruct Hnone. exists w. split; [done|]. by exists a, rest.
  - remember (a +:+ Str.placeholder w +:+ rest) as text eqn:Htext.
    destruct Hocc' as [text Hnone|a' w' rest' ws' Hw' Ha' Hrest'].
    + destruct Hnone. exists w. split; [done|]. by exists a, rest.
    + destruct (occurrence_cases a' w' rest' a w rest)
        as [(m & -> & _)|[(_ & -> & ->)|(m & -> & _)]];
        [apply Hw'|apply Hw|done| | |].
      * destruct Ha'. exists w. split; [done|]. by exists a, m.
      * f_equal. by apply IH.
      * destruct Ha. exists w'. split; [done|]. by exists a', m.
Qed.

(** *** Keys in the order of their first insertion *)

Lemma fromkeys_snoc (l : list string) (x : string) :
  Str.fromkeys (l ++ [x])
  = if bool_decide (x ∈ Str.fromkeys l) then Str.fromkeys l
    else Str.fromkeys l ++ [x].
Proof. unfold Str.fromkeys. by rewrite foldl_app. Qed.

Lemma fromkeys_first_occurrence (l : list string) :
  NoDup (Str.fromkeys l)
  ∧ (∀ x, x ∈ Str.fromkeys l ↔ x ∈ l)
  ∧ (∀ i j x y,
       Str.fromkeys l !! i = Some x → Str.fromkeys l !! j = Some y →
       i < j → Spec.first_before l x y).
Proof.
  induction l as [|z l (Hnd & Hin & Hord)] using rev_ind.
  { split; [constructor|]. split; [done|]. intros i j x y Hi. done. }
  rewrite fromkeys_snoc. case_bool_decide as Hz.
  - split; [done|]. split.
    + intros x. rewrite elem_of_app, list_elem_of_singleton, Hin.
      split; [tauto|]. intros [?| ->]; [done|]. by apply Hin.
    + intros i j x y Hi Hj Hij.
      destruct (Hord i j x y Hi Hj Hij) as (n & Hn & Hy).
      exists n. pose proof (lookup_lt_Some _ _ _ Hn).
      split; [by rewrite lookup_app_l|].
      by rewrite take_app_le by lia.
  - split; [|split].
    + apply NoDup_app. split; [done|]. split; [|apply NoDup_singleton].
      intros x Hx ->%list_elem_of_singleton. done.
    + intros x. rewrite !elem_of_app, Hin. done.
    + intros i j x y Hi Hj Hij.
      assert (i < length (Str.fromkeys l)) as Hlen.
      { apply lookup_lt_Some in Hj. rewrite length_app in Hj. simpl in *.
        lia. }
      rewrite lookup_app_l in Hi by done.
      destruct (decide (j < length (Str.fromkeys l))) as [Hj'|Hj'].
      * rewrite lookup_app_l in Hj by done.
        destruct (Hord i j x y Hi Hj Hij) as (n & Hn & Hy).
        exists n. pose proof (lookup_lt_Some _ _ _ Hn).
        split; [by rewrite lookup_app_l|].
        by rewrite take_app_le by lia.
      * rewrite lookup_app_r in Hj by lia.
        apply list_lookup_singleton_Some in Hj as [_ <-].
        assert (x ∈ l) as (n & Hn)%list_elem_of_lookup.
        { apply Hin. by eapply list_elem_of_lookup_2. }
        exists n. pose proof (lookup_lt_Some _ _ _ Hn).
        split; [by rewrite lookup_app_l|].
        rewrite take_app_le by lia.
        intros Hz'%subseteq_take. by apply Hz, Hin.
Qed.

(** The word characters of the code are the ones listed by code
    point. *)
Lemma word_char_codes (c : ascii) :
  Str.is_word_char c = Spec.has_code Spec.word_codes c.
Proof. by destruct c as [[] [] [] [] [] [] [] []]. Qed.

Lemma all_word_spelled (w : string) :
  Spec.all_word w = Spec.spelled Spec.word_codes w.
Proof.
  induction w as [|c w IH]; [done|].
  cbn [Spec.all_word Spec.spelled]. by rewrite word_char_codes, IH.
Qed.

Lemma ascii_code_word (c : ascii) :
  Spec.has_code Spec.ascii_codes c = true →
  Spec.has_code Spec.word_codes c = true.
Proof.
  unfold Spec.has_code, Spec.word_codes. rewrite existsb_app.
  by intros ->.
Qed.

Lemma ascii_name_spelled (w : string) :
  Spec.spelled Spec.ascii_codes w = true →
  Spec.spelled Spec.word_codes w = true.
Proof.
  induction w as [|c w IH]; [done|]. cbn [Spec.spelled].
  intros [Hc Hw]%andb_true_iff. by rewrite (ascii_code_word c Hc), IH.
Qed.

(** C5, as the code has it.  [extract_variable_names] returns the names
    of the placeholders of the template text: a name is returned when
    it is an identifier of [\w+] and the text contains its placeholder,
    it is returned once, and the names stand in the order of the first
    occurrence of their placeholders, read from left to right.  The
    identifiers are the non-empty words over the word characters of
    Unicode, listed here by code point below 256; those of
    [[A-Za-z0-9_]+] are among them.  On
    "Use {{a}} and {{b}} and {{a}} again" the result is [a, b]. *)
Theorem extract_variable_names_first_occurrence (p : PromptEntry.t) :
  let found := Str.findall_placeholders (PromptEntry.prompt_text p) in
  let names := PromptEntry.extract_variable_names p in
  Spec.occurrences (PromptEntry.prompt_text p) found
  ∧ (∀ ws, Spec.occurrences (PromptEntry.prompt_text p) ws → ws = found)
  ∧ NoDup names
  ∧ (∀ w, w ∈ names
          ↔ Spec.is_name w ∧ Spec.occurs w (PromptEntry.prompt_text p))
  ∧ (∀ w, Spec.is_name w
          ↔ w ≠ "" ∧ Spec.spelled Spec.word_codes w = true)
  ∧ (∀ w, Spec.is_ascii_name w → Spec.is_name w)
  ∧ (∀ i j x y, names !! i = Some x → names !! j = Some y → i < j →
                Spec.first_before found x y)
  ∧ (PromptEntry.prompt_text p = "Use {{a}} and {{b}} and {{a}} again" →
     names = ["a"; "b"]).
Proof.
  intros found names. subst found names.
  unfold PromptEntry.extract_variable_names.
  pose proof (findall_occurrences (PromptEntry.prompt_text p)) as Hocc.
  destruct (fromkeys_first_occurrence
              (Str.findall_placeholders (PromptEntry.prompt_text p)))
    as (Hnd & Hin & Hord).
  split; [done|]. split.
  { intros ws Hws. by eapply occurrences_unique. }
  split; [done|]. split.
  { intros w. rewrite Hin. by apply occurrences_elem_of. }
  split.
  { intros w. unfold Spec.is_name. by rewrite all_word_spelled. }
  split.
  { intros w [Hne Hw]. split; [done|].
    rewrite all_word_spelled. by apply ascii_name_spelled. }
  split; [done|]. by intros ->.
Qed.

(** The names are not all of [[A-Za-z0-9_]+]: a placeholder whose
    identifier holds the letter é (code point 233) is found, and its
    name is returned. *)
Lemma extract_variable_names_beyond_ascii :
  let name := "caf" +:+ String "233" "" in
  let p := Fixture.prompt "p" "beginner" ("Serve {{" +:+ name +:+ "}}.") [] in
  PromptEntry.extract_variable_names p = [name]
  ∧ ¬ Spec.is_ascii_name name.
Proof.
  split; [by vm_compute|]. intros [_ Hname]. by vm_compute in Hname.
Qed.

(** *** Replacement *)

#[local] Arguments Str.placeholder : simpl never.

Section replace.
Variables old new : string.

Lemma replace_go_skip (x r : string) :
  Str.replace_go old new (String.length x) (x +:+ r)
  = Str.replace_go old new 0 r.
Proof. induction x as [|c x IH]; simpl; [by destruct r|done]. Qed.

Lemma replace_go_copy_char (c : ascii) (r : string) :
  String.prefix old (String c r) = false →
  Str.replace_go old new 0 (String c r)
  = String c (Str.replace_go old new 0 r).
Proof. intros Hp. cbn [Str.replace_go]. by rewrite Hp. Qed.

(** A stretch of text in which [old] nowhere starts is copied. *)
Lemma replace_go_copy (u b : string) :
  (∀ u1 u2, u = u1 +:+ u2 → u2 ≠ "" →
            String.prefix old (u2 +:+ b) = false) →
  Str.replace_go old new 0 (u +:+ b) = u +:+ Str.replace_go old new 0 b.
Proof.
  induction u as [|c u IH]; intros Hu; [done|].
  change (String c u +:+ b) with (String c (u +:+ b)).
  rewrite replace_go_copy_char by by apply (Hu "" (String c u)).
  simpl. f_equal. apply IH. intros u1 u2 -> Hne.
  by apply (Hu (String c u1)).
Qed.

(** A text in which [old] does not occur is left as it is. *)
Lemma replace_go_absent (s : string) :
  String.index 0 old s = None → Str.replace_go old new 0 s = s.
Proof.
  induction s as [|c s IH]; [done|]. intros Hidx.
  assert (String.prefix old (String c s) = false
          ∧ String.index 0 old s = None) as [Hp Hs].
  { cbn [String.index] in Hidx.
    destruct (String.prefix old (String c s)); [done|].
    by destruct (String.index 0 old s). }
  rewrite replace_go_copy_char by done. by rewrite IH.
Qed.
End replace.

Lemma replace_go_match (old new r : string) :
  old ≠ "" →
  Str.replace_go old new 0 (old +:+ r) = new +:+ Str.replace_go old new 0 r.
Proof.
  intros Hold. destruct old as [|c o]; [done|].
  change (String c o +:+ r) with (String c (o +:+ r)) at 1.
  cbn [Str.replace_go].
  change (String c (o +:+ r)) with (String c o +:+ r) at 1.
  rewrite prefix_append. f_equal.
  cbn [String.length]. rewrite Nat.sub_succ, Nat.sub_0_r.
  apply replace_go_skip.
Qed.

Lemma replace_placeholder (s k v : string) :
  Str.replace s (Str.placeholder k) v
  = Str.replace_go (Str.placeholder k) v 0 s.
Proof. done. Qed.

Lemma placeholder_nonempty (k : string) : Str.placeholder k ≠ "".
Proof. done. Qed.

Lemma length_placeholder (k : string) :
  String.length (Str.placeholder k) = String.length k + 4.
Proof. unfold Str.placeholder. rewrite !length_append. simpl. lia. Qed.

(** The placeholder of another name is copied. *)
Lemma replace_other_placeholder (k y v b : string) :
  Spec.all_word k = true → Spec.all_word y = true → k ≠ y →
  Str.replace_go (Str.placeholder k) v 0 (Str.placeholder y +:+ b)
  = Str.placeholder y +:+ Str.replace_go (Str.placeholder k) v 0 b.
Proof.
  intros Hk Hy Hne. apply replace_go_copy. intros u1 u2 Hu Hu2.
  destruct (String.prefix _ _) eqn:Hp; [|done].
  apply prefix_spec in Hp as [r Hr].
  destruct (occurrence_cases "" y b u1 k r)
    as [(m & Hm & _)|[(_ & ? & _)|(m & Hm & _)]];
    [done|done| | | |].
  - change ("" +:+ ?x) with x. by rewrite Hu, append_assoc, Hr.
  - apply (f_equal String.length) in Hm. revert Hm.
    rewrite !length_append, length_placeholder. simpl. lia.
  - congruence.
  - change ("" +:+ ?x) with x in Hm. subst u1.
    apply (f_equal String.length) in Hu. revert Hu.
    rewrite !length_append. destruct u2; [done|]. simpl. lia.
Qed.

(** Replacing the placeholder of [k] goes through a text placeholder by
    placeholder: the one of [k] becomes the value, the one of another
    name stays. *)
Lemma replace_placeholder_split (k y v b : string) :
  Spec.all_word k = true → Spec.all_word y = true →
  ∀ a,
    Str.replace (a +:+ Str.placeholder y +:+ b) (Str.placeholder k) v
    = Str.replace a (Str.placeholder k) v
      +:+ (if decide (k = y) then v else Str.placeholder y)
      +:+ Str.replace b (Str.placeholder k) v.
Proof.
  intros Hk Hy a. rewrite !replace_placeholder.
  induction a as [a IH] using string_length_ind.
  destruct a as [|c a].
  { change ("" +:+ ?x) with x. case_decide as Hky.
    - subst y. by apply replace_go_match.
    - by apply replace_other_placeholder. }
  destruct (String.prefix (Str.placeholder k)
              (String c a +:+ Str.placeholder y +:+ b)) eqn:Hp.
  - apply prefix_spec in Hp as [r Hr].
    destruct (occurrence_cases (String c a) y b "" k r)
      as [(m & Hm & _)|[(? & _)|(m & Hm & _)]];
      [done|done|done| |done|done].
    change ("" +:+ ?x) with x in Hm. rewrite Hm, !append_assoc.
    rewrite !replace_go_match by done. rewrite append_assoc. f_equal.
    apply IH. apply (f_equal String.length) in Hm. rewrite Hm.
    rewrite length_append, length_placeholder. lia.
  - change (String c a +:+ ?x) with (String c (a +:+ x)) in *.
    rewrite replace_go_copy_char by done.
    rewrite replace_go_copy_char.
    + simpl. f_equal. apply IH. simpl. lia.
    + destruct (String.prefix _ (String c a)) eqn:Hpa; [|done].
      apply prefix_spec in Hpa as [r Hr]. rewrite <- Hp. symmetry.
      apply prefix_spec. exists (r +:+ Str.placeholder y +:+ b).
      change (String c (a +:+ ?x)) with (String c a +:+ x).
      by rewrite Hr, append_assoc.
Qed.

(** *** Rendering *)

#[local] Abbreviation substitute :=
  (foldl (fun text '(key, value) =>
            Str.replace text (Str.placeholder key) value)).

Lemma render_substitute (p : PromptEntry.t) (items : Dict.t string) :
  PromptEntry.render p (Some items) = substitute (PromptEntry.prompt_text p) items.
Proof. by destruct items. Qed.

Lemma substitute_unsupplied (items : Dict.t string) (y : string) :
  Spec.all_word y = true →
  (∀ k v, (k, v) ∈ items → Spec.all_word k = true ∧ k ≠ y) →
  ∀ a b,
    substitute (a +:+ Str.placeholder y +:+ b) items
    = substitute a items +:+ Str.placeholder y +:+ substitute b items.
Proof.
  intros Hy. induction items as [|[k v] items IH]; intros Hitems a b;
    cbn [foldl]; [done|].
  destruct (Hitems k v) as [Hk Hne]; [left|].
  rewrite replace_placeholder_split by done.
  rewrite decide_False by done. apply IH.
  intros k' v' Hin. apply (Hitems k' v'). by right.
Qed.

Lemma substitute_absent (items : Dict.t string) (text : string) :
  (∀ k v, (k, v) ∈ items → Str.contains (Str.placeholder k) text = false) →
  substitute text items = text.
Proof.
  induction items as [|[k v] items IH]; intros Hitems; cbn [foldl]; [done|].
  rewrite replace_placeholder, replace_go_absent.
  - apply IH. intros k' v' Hin. apply (Hitems k' v'). by right.
  - specialize (Hitems k v). unfold Str.contains in Hitems.
    destruct (String.index 0 _ text); [|done].
    discriminate Hitems. left.
Qed.


Lemma substitute_supplied (before after : Dict.t string) (k v a b : string) :
  Spec.all_word k = true →
  (∀ k' v', (k', v') ∈ before → Spec.all_word k' = true ∧ k' ≠ k) →
  substitute (a +:+ Str.placeholder k +:+ b) (before ++ (k, v) :: after)
  = substitute (substitute a (before ++ [(k, v)]) +:+ v
                +:+ substitute b (before ++ [(k, v)])) after.
Proof.
  intros Hk Hbefore. rewrite !foldl_app. cbn [foldl]. f_equal.
  rewrite substitute_unsupplied by done.
  rewrite replace_placeholder_split by done.
  by rewrite decide_True.
Qed.

(** C6, as the code has it.  [render] replaces, name after name in the
    order of the mapping, every literal occurrence of the placeholder of
    a supplied name by its value, and leaves the placeholders of the
    names that are not supplied where they are:
    "{{x}} and {{y}}" with {x: "A"} gives "A and {{y}}".  A second
    rendering with the same mapping leaves the output unchanged when the
    first output holds no placeholder of a supplied name. *)
Theorem render_substitutes (p : PromptEntry.t) (items : Dict.t string) :
  (∀ k v, (k, v) ∈ items → Spec.is_name k) →
  PromptEntry.render p None = PromptEntry.prompt_text p
  ∧ (∀ before k v after pa pb q,
       items = before ++ (k, v) :: after →
       (∀ v', (k, v') ∉ before) →
       PromptEntry.prompt_text p
       = PromptEntry.prompt_text pa +:+ Str.placeholder k
         +:+ PromptEntry.prompt_text pb →
       PromptEntry.prompt_text q
       = PromptEntry.render pa (Some (before ++ [(k, v)])) +:+ v
         +:+ PromptEntry.render pb (Some (before ++ [(k, v)])) →
       PromptEntry.render p (Some items) = PromptEntry.render q (Some after))
  ∧ (∀ y pa pb,
       Spec.is_name y → (∀ v, (y, v) ∉ items) →
       PromptEntry.prompt_text p
       = PromptEntry.prompt_text pa +:+ Str.placeholder y
         +:+ PromptEntry.prompt_text pb →
       PromptEntry.render p (Some items)
       = PromptEntry.render pa (Some items) +:+ Str.placeholder y
         +:+ PromptEntry.render pb (Some items))
  ∧ (PromptEntry.prompt_text p = "{{x}} and {{y}}" →
     items = [("x", "A")] →
     PromptEntry.render p (Some items) = "A and {{y}}")
  ∧ (∀ q,
       PromptEntry.prompt_text q = PromptEntry.render p (Some items) →
       (∀ k v, (k, v) ∈ items →
               Str.contains (Str.placeholder k)
                            (PromptEntry.render p (Some items)) = false) →
       PromptEntry.render q (Some items) = PromptEntry.render p (Some items)).
Proof.
  intros Hnames. split; [done|]. split; [|split; [|split; [|]]].
  - intros before k v after pa pb q -> Hfresh Hp Hq.
    rewrite !render_substitute, Hp, Hq, !render_substitute.
    apply substitute_supplied.
    + apply (Hnames k v), elem_of_app. right. left.
    + intros k' v' Hin. split.
      * apply (Hnames k' v'), elem_of_app. by left.
      * intros ->. by apply (Hfresh v').
  - intros y pa pb [_ Hy] Hfresh Hp.
    rewrite !render_substitute, Hp. apply substitute_unsupplied; [done|].
    intros k v Hin. split; [by apply (Hnames k v)|].
    intros ->. by apply (Hfresh v).
  - intros Hp ->. rewrite render_substitute, Hp. done.
  - intros q Hq Habsent. rewrite (render_substitute q), Hq.
    by apply substitute_absent.
Qed.

Lemma render_substitutes_witness :
  PromptEntry.render (Fixture.prompt "p" "beginner" "{{x}} and {{y}}" [])
                     (Some [("x", "A")])
  = "A and {{y}}".
Proof.
  destruct (render_substitutes
              (Fixture.prompt "p" "beginner" "{{x}} and {{y}}" [])
              [("x", "A")]) as (_ & _ & _ & Hexample & _).
  - intros k v Hin. apply list_elem_of_singleton in Hin.
    injection Hin as -> ->. split; [discriminate|reflexivity].
  - apply Hexample; reflexivity.
Defined.

(** With every placeholder of the template supplied, a value that holds
    a placeholder makes the second rendering differ from the first. *)
Lemma render_twice_differs :
  let p := Fixture.prompt "p" "beginner" "{{x}}" [] in
  let arguments := Some [("x", "{{x}}{{x}}")] in
  let q := Fixture.prompt "p" "beginner" (PromptEntry.render p arguments) [] in
  PromptEntry.extract_variable_names p = ["x"]
  ∧ PromptEntry.render p arguments = "{{x}}{{x}}"
  ∧ PromptEntry.render q arguments = "{{x}}{{x}}{{x}}{{x}}"
  ∧ PromptEntry.render q arguments ≠ PromptEntry.render p arguments.
Proof. vm_compute. repeat split; discriminate. Qed.

(** ** Instruction files *)

(** C2, as the code has it.  A file whose text does not start with the
    marker is parsed to a record filled with defaults: the name is the
    stem of the file and the description is empty.  A file whose text
    starts with the marker and has no second marker fails to parse. *)
Theorem from_path_header `{Libraries} (scope path file_name text : string) :
  (Str.startswith text "---" = false →
   InstructionEntry.from_path scope path file_name text
   = Ok {| InstructionEntry.stem := path_stem file_name;
           InstructionEntry.scope := scope;
           InstructionEntry.file_path := path;
           InstructionEntry.name := path_stem file_name;
           InstructionEntry.description := "" |})
  ∧ (Str.startswith text "---" = true →
     String.index 3 "---" text = None →
     InstructionEntry.from_path scope path file_name text = Raise ValueError).
Proof.
  unfold InstructionEntry.from_path, Str.index. split.
  - by intros ->.
  - by intros -> ->.
Qed.

Lemma from_path_header_witness :
  InstructionEntry.from_path (H := Fixture.libraries) "guardrails"
    "/catalog/instructions/guardrails/open.instructions.md"
    "open.instructions.md" "--- name: x"
  = Raise ValueError.
Proof.
  apply (from_path_header (H := Fixture.libraries)); reflexivity.
Defined.

(** A file without header block is parsed, and the record holds the
    defaults. *)
Lemma from_path_without_header :
  let text := "# No frontmatter" +:+ Fixture.nl +:+ "Just content." in
  Str.startswith text "---" = false
  ∧ Str.contains "---" text = false
  ∧ InstructionEntry.from_path (H := Fixture.libraries) "guardrails"
      "/catalog/instructions/guardrails/no-fm.instructions.md"
      "no-fm.instructions.md" text
    = Ok {| InstructionEntry.stem := "no-fm.instructions";
            InstructionEntry.scope := "guardrails";
            InstructionEntry.file_path :=
              "/catalog/instructions/guardrails/no-fm.instructions.md";
            InstructionEntry.name := "no-fm.instructions";
            InstructionEntry.description := "" |}.
Proof. vm_compute. done. Qed.

(** ** Prompt validation *)

(** C1 fails on the code.  The semantic checks run on every mapping,
    also on one that the schema has just rejected, and they raise on a
    [prompt] that is not text ([TypeError]) and on an entry of
    [variables] without [name] ([KeyError]); nothing catches the
    exception, so [validate_prompts] raises and returns no result. *)
Theorem validate_prompts_raises :
  (∀ data rel_path result_ z,
     Validator._check_prompt_extras (("prompt", PInt z) :: data)
       rel_path result_
     = Raise TypeError)
  ∧ (∀ rel_path result_,
       Validator._check_prompt_extras
         [("prompt", PStr "Work on {{project}}.");
          ("variables", PList [PDict [("description", PStr "Project name")]])]
         rel_path result_
       = Raise KeyError)
  ∧ Validator.validate_prompts (H := Fixture.libraries)
      (Fixture.root None [Fixture.prompt_file "bad.yaml" "bad" "5"] [])
    = Raise TypeError.
Proof. split; [done|]. split; [done|]. by vm_compute. Qed.

(** ** Instruction validation *)

Import ValidationResult.

(** A loop over [step] adds, for each element, what [contributes] says
    of it. *)
Lemma for_each_contributes {A} (step : t → A → result t)
    (contributes : A → Issue.t → Prop) (l : list A) :
  (∀ x r0 r1, step r0 x = Ok r1 →
     ∀ i, i ∈ issues r1 ↔ i ∈ issues r0 ∨ contributes x i) →
  ∀ r0 r1, for_each step l r0 = Ok r1 →
    ∀ i, i ∈ issues r1 ↔ i ∈ issues r0 ∨ ∃ x, x ∈ l ∧ contributes x i.
Proof.
  intros Hstep. induction l as [|x l IH]; intros r0 r1; simpl.
  - intros [= <-] i. split; [by left|].
    by intros [?|(x & ?%elem_of_nil & _)].
  - destruct (step r0 x) as [r|e] eqn:Hx; simpl; [|done].
    intros Hl i. rewrite (IH _ _ Hl), (Hstep _ _ _ Hx). split.
    + intros [[?|?]|(y & ? & ?)]; [by left|right..].
      * exists x. split; [left|done].
      * exists y. split; [by right|done].
    + intros [?|(y & [->|?]%elem_of_cons & ?)]; [tauto|tauto|].
      right. by exists y.
Qed.

Lemma NoDup_fmap_eq {A B} (f : A → B) (l : list A) (x y : A) :
  NoDup (f <$> l) → x ∈ l → y ∈ l → f x = f y → x = y.
Proof.
  induction l as [|z l IH]; [by intros _ ?%elem_of_nil|].
  rewrite fmap_cons, NoDup_cons, !elem_of_cons.
  intros [Hz Hnd] [->|Hx] [->|Hy] Heq; [done| | |by apply IH].
  - destruct Hz. rewrite Heq. by apply list_elem_of_fmap_2.
  - destruct Hz. rewrite <- Heq. by apply list_elem_of_fmap_2.
Qed.

(** The paths of the files of the three scopes are distinct. *)
Lemma instruction_path_inj (scope scope' : string) (f f' : File) :
  scope ∈ INSTRUCTION_SCOPES → scope' ∈ INSTRUCTION_SCOPES →
  Spec.instruction_path scope f = Spec.instruction_path scope' f' →
  scope = scope' ∧ f_name f = f_name f'.
Proof.
  unfold INSTRUCTION_SCOPES, Spec.instruction_path.
  rewrite !elem_of_cons, !elem_of_nil.
  intros [->|[->|[->|[]]]] [->|[->|[->|[]]]]; simpl; intros Heq;
    try discriminate Heq; by injection Heq.
Qed.

Section instructions.
Context `{Libraries}.

(** What one file adds to the issues does not depend on the issues
    that are there, and names the file. *)
Lemma instruction_file_adds (scope : string) (f : File) (r0 r1 : t) :
  Validator.validate_instruction_file scope r0 f = Ok r1 →
  ∃ r, Validator.validate_instruction_file scope empty f = Ok r
       ∧ issues r1 = issues r0 ++ issues r
       ∧ Forall (fun i => Issue.file i = Spec.instruction_path scope f)
                (issues r).
Proof.
  unfold Validator.validate_instruction_file.
  destruct (negb (Str.startswith (f_text f) "---")).
  { intros [= <-]. eexists. split; [done|]. split; [done|].
    simpl; repeat (apply Forall_cons_2; [done|]); apply Forall_nil_2. }
  destruct (Str.index (f_text f) "---" 3) as [end_|e]; simpl.
  2: { destruct e; try done; intros [= <-]; (eexists; split; [done|]);
         (split; [done|simpl; repeat (apply Forall_cons_2; [done|]); apply Forall_nil_2]). }
  destruct (yaml_load_front_matter _) as [fm|e]; simpl.
  2: { destruct e; try done; intros [= <-]; (eexists; split; [done|]);
         (split; [done|simpl; repeat (apply Forall_cons_2; [done|]); apply Forall_nil_2]). }
  destruct fm as [|name description|];
    try (intros [= <-]; (eexists; split; [done|]);
         (split; [done|simpl; repeat (apply Forall_cons_2; [done|]); apply Forall_nil_2])).
  intros [= <-]. eexists. split; [done|].
  destruct name, description, (String.length _ <? 50);
    repeat match goal with
           | |- context [if ?b then _ else _] => destruct b
           end;
    simpl; rewrite <- ?app_assoc, ?app_nil_r; (split; [done|simpl; repeat (apply Forall_cons_2; [done|]); apply Forall_nil_2]).
Qed.

(** The check of the body of a file with a header block. *)
Lemma instruction_body_check (scope : string) (f : File) (end_ : nat)
    (name description : option string) :
  Str.startswith (f_text f) "---" = true →
  Str.index (f_text f) "---" 3 = Ok end_ →
  yaml_load_front_matter (Str.slice 3 end_ (f_text f))
  = Ok (FmMapping name description) →
  ∃ r, Validator.validate_instruction_file scope empty f = Ok r
       ∧ (Validator.too_short (Spec.instruction_path scope f) ∈ issues r
          ↔ String.length (Str.strip (Str.drop (end_ + 3) (f_text f))) < 50).
Proof.
  intros Hstart Hend Hfm. unfold Validator.validate_instruction_file.
  rewrite Hstart, Hend. simpl. rewrite Hfm. simpl. eexists. split; [done|].
  fold (Spec.instruction_path scope f).
  destruct (String.length _ <? 50) eqn:Hlen.
  - apply Nat.ltb_lt in Hlen. split; [done|]. intros _.
    destruct name, description;
      repeat match goal with
             | |- context [if ?b then _ else _] => destruct b
             end;
      simpl; apply list_elem_of_In; simpl;
      repeat (first [left; reflexivity | right]).
  - apply Nat.ltb_ge in Hlen. split; [|lia]. intros Hin. exfalso.
    destruct name, description;
      repeat match type of Hin with
             | context [if ?b then _ else _] => destruct b
             end;
      simpl in Hin;
      repeat (apply elem_of_cons in Hin as [Hin|Hin]; [discriminate Hin|]);
      by apply elem_of_nil in Hin.
Qed.

(** C9, as the code has it.  For an instruction file with a header
    block, [validate_instructions] raises the warning "too short" for
    the file exactly when the body that follows the header, stripped of
    the white space around it, is shorter than 50 characters; a body of
    exactly 50 characters gets no warning. *)
Theorem too_short_below_fifty (r : Root) (scope : string) (dir : list File)
    (f : File) (end_ : nat) (name description : option string) (res : t) :
  scope ∈ INSTRUCTION_SCOPES →
  instruction_dir r scope = Some dir →
  f ∈ dir →
  Str.endswith (f_name f) ".instructions.md" = true →
  NoDup (f_name <$> dir) →
  Str.startswith (f_text f) "---" = true →
  Str.index (f_text f) "---" 3 = Ok end_ →
  yaml_load_front_matter (Str.slice 3 end_ (f_text f))
  = Ok (FmMapping name description) →
  Validator.validate_instructions r = Ok res →
  let body := Str.strip (Str.drop (end_ + 3) (f_text f)) in
  let issue :=
    Validator.too_short ("instructions/" +:+ scope +:+ "/" +:+ f_name f) in
  (issue ∈ issues res ↔ String.length body < 50)
  ∧ Issue.severity issue = "warning"
  ∧ (String.length body = 50 → issue ∉ issues res).
Proof.
  intros Hscope Hdir Hf Hmd Hnd Hstart Hend Hfm Hres body issue.
  fold (Spec.instruction_path scope f) in issue.
  set (of_file := fun (scope : string) (f : File) (i : Issue.t) =>
         ∃ r, Validator.validate_instruction_file scope empty f = Ok r
              ∧ i ∈ issues r).
  set (of_scope := fun (scope : string) (i : Issue.t) =>
         ∃ dir f, instruction_dir r scope = Some dir
                  ∧ f ∈ sorted_glob ".instructions.md" dir
                  ∧ of_file scope f i).
  assert (∀ scope f r0 r1,
            Validator.validate_instruction_file scope r0 f = Ok r1 →
            ∀ i, i ∈ issues r1 ↔ i ∈ issues r0 ∨ of_file scope f i)
    as Hfile_step.
  { clear. intros scope f r0 r1 Hstep i.
    apply instruction_file_adds in Hstep as (r' & Hr' & -> & _).
    rewrite elem_of_app. unfold of_file. split.
    - intros [?|?]; [by left|right]. by exists r'.
    - intros [?|(r'' & Hr'' & ?)]; [by left|right]. congruence. }
  assert (∀ scope r0 r1,
            Validator.validate_instruction_dir r r0 scope = Ok r1 →
            ∀ i, i ∈ issues r1 ↔ i ∈ issues r0 ∨ of_scope scope i)
    as Hscope_step.
  { clear -Hfile_step. intros scope r0 r1.
    unfold Validator.validate_instruction_dir.
    destruct (instruction_dir r scope) as [dir|] eqn:Hdir.
    - intros Hfiles i.
      rewrite (for_each_contributes _ (of_file scope) _
                 (Hfile_step scope) r0 r1 Hfiles).
      unfold of_scope. split; (intros [?|Hi]; [by left|right]).
      + destruct Hi as (f & ? & ?). by exists dir, f.
      + destruct Hi as (dir' & f & Hd & ? & ?).
        rewrite Hdir in Hd. injection Hd as <-. by exists f.
    - intros [= <-] i. split; [by left|].
      intros [?|(dir' & f & Hd & _)]; [done|congruence]. }
  assert (∀ i, i ∈ issues res
               ↔ ∃ scope, scope ∈ INSTRUCTION_SCOPES ∧ of_scope scope i)
    as Hissues.
  { intros i.
    rewrite (for_each_contributes _ of_scope _ Hscope_step empty res Hres).
    split; [by intros [?%elem_of_nil|?] | by right]. }
  destruct (instruction_body_check scope f end_ name description)
    as (rf & Hrf & Hshort); [done..|].
  assert (issue ∈ issues res ↔ String.length body < 50) as Hiff.
  { unfold body, issue. rewrite Hissues, <- Hshort. split.
    - intros (scope' & Hscope' & dir' & f' & Hdir' & Hf' & r' & Hr' & Hi).
      pose proof Hr' as (r'' & Hr'' & _ & Hfile)%instruction_file_adds.
      assert (r'' = r') as -> by congruence.
      rewrite Forall_forall in Hfile. apply Hfile in Hi as Hpath.
      symmetry in Hpath.
      apply instruction_path_inj in Hpath as [<- Hname]; [|done..].
      assert (dir' = dir) as -> by congruence.
      assert (f' = f) as ->.
      { apply (NoDup_fmap_eq f_name dir); [done| |done|done].
        by apply elem_of_sorted_glob in Hf' as [_ ?]. }
      congruence.
    - intros Hi. exists scope. split; [done|]. exists dir, f.
      split; [done|]. split; [|by exists rf].
      by apply elem_of_sorted_glob. }
  split; [done|]. split; [done|]. rewrite Hiff. lia.
Qed.

End instructions.

Lemma too_short_below_fifty_witness :
  let f := Fixture.instruction_file "g.instructions.md" Fixture.fifty in
  Validator.too_short ("instructions/" +:+ "guardrails" +:+ "/" +:+ f_name f)
  ∉ issues {| issues := []; files_checked := 1; files_passed := 1 |}.
Proof.
  intros f.
  apply (too_short_below_fifty (H := Fixture.libraries)
           (Fixture.root None [] [f]) "guardrails" [f] f 62
           (Some "Test Guardrail") (Some "A guardrail for testing"));
    try (vm_compute; reflexivity).
  - right. left.
  - left.
  - apply NoDup_singleton.
Defined.

(** A body of exactly fifty characters after a header block gets no
    warning. *)
Lemma fifty_characters_pass :
  let f := Fixture.instruction_file "g.instructions.md" Fixture.fifty in
  Str.index (f_text f) "---" 3 = Ok 62
  ∧ String.length (Str.strip (Str.drop (62 + 3) (f_text f))) = 50
  ∧ Validator.validate_instructions (H := Fixture.libraries)
      (Fixture.root None [] [f])
    = Ok {| issues := []; files_checked := 1; files_passed := 1 |}.
Proof. by vm_compute. Qed.

(** ** Index validation *)

Lemma foldl_adds {A} (step : t → A → t) (l : list A) :
  (∀ r x, ∃ extra, issues (step r x) = issues r ++ extra
                   ∧ Forall Spec.other_index_issue extra) →
  ∀ r, ∃ extra, issues (foldl step r l) = issues r ++ extra
                ∧ Forall Spec.other_index_issue extra.
Proof.
  intros Hstep. induction l as [|x l IH]; intros r; simpl.
  - exists []. by rewrite app_nil_r.
  - destruct (IH (step r x)) as (extra' & -> & ?).
    destruct (Hstep r x) as (extra & -> & ?).
    exists (extra ++ extra'). rewrite app_assoc. split; [done|].
    by apply Forall_app.
Qed.

Lemma adds_nothing (r : t) :
  ∃ extra, issues r = issues r ++ extra
           ∧ Forall Spec.other_index_issue extra.
Proof. exists []. by rewrite app_nil_r. Qed.

Lemma adds_one (r : t) (i : Issue.t) :
  Spec.other_index_issue i →
  ∃ extra, issues (append i r) = issues r ++ extra
           ∧ Forall Spec.other_index_issue extra.
Proof. intros Hi. exists [i]. split; [done|]. by apply Forall_singleton. Qed.

Section index.
Context `{Libraries}.

Lemma check_prompt_entry_adds (r : Root) (res : t) (e : IndexJson.entry) :
  ∃ extra, issues (Validator.check_prompt_entry r res e) = issues res ++ extra
           ∧ Forall Spec.other_index_issue extra.
Proof.
  unfold Validator.check_prompt_entry.
  destruct (negb _); [destruct (path_exists r _)|];
    first [apply adds_nothing | apply adds_one; by split].
Qed.

Lemma check_file_entry_adds (kind : string) (r : Root) (res : t)
    (e : IndexJson.entry) :
  (∀ rest, Str.startswith (kind +:+ rest) "Statistics says" = false) →
  ∃ extra, issues (Validator.check_file_entry kind r res e)
           = issues res ++ extra
           ∧ Forall Spec.other_index_issue extra.
Proof.
  intros Hkind. unfold Validator.check_file_entry.
  destruct (_ && _); [|apply adds_nothing].
  apply adds_one. split; [apply Hkind|done].
Qed.

Lemma check_duplicate_adds (ids seen : list (option string)) (res : t) :
  ∃ extra,
    issues (foldl Validator.check_duplicate (seen, res) ids).2
    = issues res ++ extra
    ∧ Forall Spec.other_index_issue extra.
Proof.
  revert seen res. induction ids as [|pid ids IH]; intros seen res;
    cbn [foldl].
  - apply adds_nothing.
  - change (Validator.check_duplicate (seen, res) pid)
      with (pid :: seen,
            if bool_decide (pid ∈ seen)
            then append (Issue.error "prompts/index.json"
                           ("Duplicate prompt ID in index: "
                            +:+ Validator.str_id pid)) res
            else res).
    case_bool_decide.
    + destruct (IH (pid :: seen)
                  (append (Issue.error "prompts/index.json"
                             ("Duplicate prompt ID in index: "
                              +:+ Validator.str_id pid)) res))
        as (extra' & -> & ?).
      exists (Issue.error "prompts/index.json"
                ("Duplicate prompt ID in index: "
                 +:+ Validator.str_id pid) :: extra').
      cbn [issues append]. rewrite <- app_assoc.
      split; [done|]. apply Forall_cons. by split.
    + apply IH.
Qed.

Lemma check_listed_dir_adds (r : Root) (index_files : list string) (res : t)
    (dir_name : string) :
  ∃ extra,
    issues (Validator.check_listed_dir r index_files res dir_name)
    = issues res ++ extra
    ∧ Forall Spec.other_index_issue extra.
Proof.
  unfold Validator.check_listed_dir.
  destruct (prompt_dir r dir_name) as [dir|]; [|apply adds_nothing].
  apply foldl_adds. intros res' f. unfold Validator.check_listed.
  case_bool_decide; [apply adds_nothing|].
  apply adds_one. split; [done|]. intros _. by eexists.
Qed.

(** The issues of [check_index] when the counts differ: the count
    warning stands between issues of the other kinds. *)
Lemma check_index_count (r : Root) (index : IndexJson.t) (res : t) :
  let listed := default [] (IndexJson.prompts index) in
  let stated := default 0%Z (default None (IndexJson.statistics index)) in
  stated ≠ Z.of_nat (length listed) →
  ∃ before after,
    issues (Validator.check_index r index res)
    = issues res ++ before
      ++ Validator.count_issue stated (length listed) :: after
    ∧ Forall Spec.other_index_issue before
    ∧ Forall Spec.other_index_issue after.
Proof.
  intros listed stated Hne. unfold Validator.check_index.
  fold listed. fold stated.
  rewrite bool_decide_eq_true_2 by done.
  destruct (foldl_adds (Validator.check_prompt_entry r) listed
              (check_prompt_entry_adds r) res) as (e1 & He1 & H1).
  set (res1 := foldl (Validator.check_prompt_entry r) res listed) in *.
  destruct (foldl_adds (Validator.check_file_entry "Instruction" r)
              (default [] (IndexJson.instructions index))
              (fun res e => check_file_entry_adds "Instruction" r res e
                              (fun _ => eq_refl)) res1)
    as (e2 & He2 & H2).
  set (res2 := foldl (Validator.check_file_entry "Instruction" r) res1 _)
    in *.
  destruct (foldl_adds (Validator.check_file_entry "Starter kit" r)
              (default [] (IndexJson.starter_kits index))
              (fun res e => check_file_entry_adds "Starter kit" r res e
                              (fun _ => eq_refl)) res2)
    as (e3 & He3 & H3).
  set (res3 := foldl (Validator.check_file_entry "Starter kit" r) res2 _)
    in *.
  set (res4 := append (Validator.count_issue stated (length listed)) res3).
  destruct (check_duplicate_adds (IndexJson.id <$> listed) [] res4)
    as (e5 & He5 & H5).
  set (res5 := (foldl Validator.check_duplicate ([], res4) _).2) in *.
  destruct (foldl_adds
              (Validator.check_listed_dir r
                 ((fun e => default "" (IndexJson.file e)) <$> listed))
              PROMPT_DIRS
              (fun res d => check_listed_dir_adds r _ res d) res5)
    as (e6 & He6 & H6).
  set (res6 := foldl (Validator.check_listed_dir r _) res5 PROMPT_DIRS) in *.
  exists (e1 ++ e2 ++ e3), (e5 ++ e6).
  split; [|split; [by repeat apply Forall_app_2|by apply Forall_app_2]].
  assert (issues res6
          = issues res ++ (e1 ++ e2 ++ e3)
            ++ Validator.count_issue stated (length listed) :: e5 ++ e6)
    as Hall.
  { rewrite He6, He5. subst res4. simpl. rewrite He3, He2, He1.
    rewrite <- !app_assoc. done. }
  destruct (issues res6) eqn:Hres6; simpl; [|congruence].
  exfalso. by destruct (issues res), e1, e2, e3.
Qed.

(** C8.  When the index states a number of prompts that differs from
    the number of prompt entries it lists, [validate_index] returns a
    result with exactly one issue that reports the counts; the issue is
    a warning, not an error, and its message gives the stated number.
    Every other warning of the result reports a file that the index does
    not list.  For an index that states 999 prompts and lists 2, the one
    count warning reads "Statistics says 999 prompts but index lists 2". *)
Theorem count_mismatch_warning (r : Root) (text : string)
    (index : IndexJson.t) :
  index_file r = Some text →
  json_loads_index text = Ok index →
  let listed := default [] (IndexJson.prompts index) in
  let stated := default 0%Z (default None (IndexJson.statistics index)) in
  stated ≠ Z.of_nat (length listed) →
  ∃ res,
    Validator.validate_index r = Ok res
    ∧ filter (fun i => Str.startswith (Issue.message i) "Statistics says"
                       = true) (issues res)
      = [Validator.count_issue stated (length listed)]
    ∧ Issue.severity (Validator.count_issue stated (length listed))
      = "warning"
    ∧ Issue.message (Validator.count_issue stated (length listed))
      = "Statistics says " +:+ pretty stated
        +:+ " prompts but index lists " +:+ pretty (length listed)
    ∧ (∀ i, i ∈ issues res → Issue.is_warning i = true →
            i = Validator.count_issue stated (length listed)
            ∨ ∃ rel, Issue.message i
                     = "YAML file not listed in index: " +:+ rel)
    ∧ (stated = 999%Z → length listed = 2 →
       Issue.message (Validator.count_issue stated (length listed))
       = "Statistics says 999 prompts but index lists 2"
       ∧ Str.contains "999"
           (Issue.message (Validator.count_issue stated (length listed)))
         = true).
Proof.
  intros Hfile Hjson listed stated Hne.
  unfold Validator.validate_index. rewrite Hfile, Hjson.
  eexists. split; [done|].
  destruct (check_index_count r index
              {| issues := []; files_checked := 1; files_passed := 0 |} Hne)
    as (before & after & -> & Hbefore & Hafter).
  fold listed. fold stated. simpl.
  split; [|split; [done|split; [done|split]]].
  - rewrite filter_app, filter_cons, decide_True by done.
    rewrite !filter_none; [done|..];
      intros i Hi;
      [rewrite Forall_forall in Hafter; apply Hafter in Hi as [Hi _]
      |rewrite Forall_forall in Hbefore; apply Hbefore in Hi as [Hi _]];
      by rewrite Hi.
  - intros i Hi Hw. rewrite elem_of_app, elem_of_cons in Hi.
    rewrite Forall_forall in Hbefore. rewrite Forall_forall in Hafter.
    destruct Hi as [Hi|[->|Hi]]; [right|by left|right].
    + by apply (Hbefore i Hi).
    + by apply (Hafter i Hi).
  - intros -> ->. split; by vm_compute.
Qed.

End index.

Lemma count_mismatch_warning_witness :
  ∃ res,
    Validator.validate_index (H := Fixture.libraries)
      (Fixture.root (Some (Fixture.index_text "999"))
         [Fixture.prompt_file "test-prompt-1.yaml" "test-prompt-1" "x";
          Fixture.prompt_file "test-prompt-2.yaml" "test-prompt-2" "y"] [])
    = Ok res
    ∧ filter (fun i => Str.startswith (Issue.message i) "Statistics says"
                       = true) (issues res)
      = [Validator.count_issue 999 2].
Proof.
  destruct (count_mismatch_warning (H := Fixture.libraries)
              (Fixture.root (Some (Fixture.index_text "999"))
                 [Fixture.prompt_file "test-prompt-1.yaml"
                    "test-prompt-1" "x";
                  Fixture.prompt_file "test-prompt-2.yaml"
                    "test-prompt-2" "y"] [])
              (Fixture.index_text "999") (Fixture.index_of 999))
    as (res & Hres & Hone & _).
  - reflexivity.
  - vm_compute. reflexivity.
  - discriminate.
  - exists res. split; [exact Hres|exact Hone].
Defined.

(** On the catalog of the tests, with the statistic set to 999, the
    result has one warning, and it mentions 999. *)
Example count_mismatch_on_the_test_catalog :
  Validator.validate_index (H := Fixture.libraries)
    (Fixture.root (Some (Fixture.index_text "999"))
       [Fixture.prompt_file "test-prompt-1.yaml" "test-prompt-1" "x";
        Fixture.prompt_file "test-prompt-2.yaml" "test-prompt-2" "y"] [])
  = Ok {| issues :=
            [Issue.warning "prompts/index.json"
               "Statistics says 999 prompts but index lists 2"];
          files_checked := 1;
          files_passed := 0 |}.
Proof. by vm_compute. Qed.

(* ================================================================== *)
(** * Further properties *)

(** ** The loaded catalog *)

Lemma last_wins_keys {V} (key_of : V → string) (entries : list V) d :
  Spec.last_wins key_of entries d →
  (∀ k e, Dict.get k d = Some e → key_of e = k ∧ e ∈ entries)
  ∧ (∀ e, e ∈ entries → is_Some (Dict.get (key_of e) d)).
Proof.
  intros [_ Hget]. split.
  - intros k e. rewrite Hget. intros (l & Hl)%last_Some.
    assert (e ∈ filter (fun e => key_of e = k) entries) as Hin.
    { rewrite Hl. apply elem_of_app. right. left. }
    by apply list_elem_of_filter in Hin.
  - intros e He. rewrite Hget.
    destruct (last _) eqn:Hlast; [by eexists|].
    apply last_None in Hlast.
    assert (e ∈ filter (fun e' => key_of e' = key_of e) entries) as Hin
      by by apply list_elem_of_filter.
    rewrite Hlast in Hin. by apply elem_of_nil in Hin.
Qed.

(** X1.  In a loaded catalog every record is stored under its own
    identifier (a prompt under its [id], an instruction under its stem,
    a kit under its [id]) and comes from a file of the scan that parsed;
    every file that parsed has its identifier in the map. *)
Theorem load_keys_are_identifiers `{Libraries} (r : Root) :
  let c := Catalog.load r in
  (∀ k e, Dict.get k (Catalog.prompts c) = Some e →
          PromptEntry.id e = k ∧ e ∈ Spec.parsed_prompts r)
  ∧ (∀ e, e ∈ Spec.parsed_prompts r →
          is_Some (Dict.get (PromptEntry.id e) (Catalog.prompts c)))
  ∧ (∀ k e, Dict.get k (Catalog.instructions c) = Some e →
            InstructionEntry.stem e = k ∧ e ∈ Spec.parsed_instructions r)
  ∧ (∀ e, e ∈ Spec.parsed_instructions r →
          is_Some (Dict.get (InstructionEntry.stem e)
                            (Catalog.instructions c)))
  ∧ (∀ k e, Dict.get k (Catalog.starter_kits c) = Some e →
            StarterKit.id e = k ∧ e ∈ Spec.parsed_kits r)
  ∧ (∀ e, e ∈ Spec.parsed_kits r →
          is_Some (Dict.get (StarterKit.id e) (Catalog.starter_kits c))).
Proof.
  intros c. subst c.
  rewrite load_prompts_fill, load_instructions_fill, load_kits_fill.
  destruct (last_wins_keys PromptEntry.id (Spec.parsed_prompts r) _
              (fill_last_wins _ _)) as [? ?].
  destruct (last_wins_keys InstructionEntry.stem (Spec.parsed_instructions r)
              _ (fill_last_wins _ _)) as [? ?].
  destruct (last_wins_keys StarterKit.id (Spec.parsed_kits r) _
              (fill_last_wins _ _)) as [? ?].
  done.
Qed.

Lemma dict_values_get {V} (d : Dict.t V) (v : V) :
  NoDup (Dict.keys d) → v ∈ Dict.values d → ∃ k, Dict.get k d = Some v.
Proof.
  unfold Dict.keys, Dict.values.
  induction d as [|[k0 v0] d IH]; simpl; [by intros _ ?%elem_of_nil|].
  intros [Hk0 Hnd]%NoDup_cons [->|Hin]%elem_of_cons.
  - exists k0. by rewrite decide_True.
  - destruct (IH Hnd Hin) as [k Hk]. exists k.
    rewrite decide_False; [done|]. intros ->.
    by apply dict_get_Some_key in Hk.
Qed.

Lemma parsed_prompt_from_yaml `{Libraries} (r : Root) (e : PromptEntry.t) :
  e ∈ Spec.parsed_prompts r →
  ∃ path text, PromptEntry.from_yaml path text = Ok e.
Proof.
  unfold Spec.parsed_prompts. intros ([dir_name f] & _ & Hf)%list_elem_of_omap.
  destruct (Str.startswith _ _); [done|].
  destruct (PromptEntry.from_yaml _ _) as [e'|] eqn:He; [|done].
  injection Hf as ->. by eexists _, _.
Qed.

Lemma from_yaml_fields `{Libraries} (path text : string) (e : PromptEntry.t) :
  PromptEntry.from_yaml path text = Ok e →
  PromptYaml.id (PromptEntry.raw e) = Some (PromptEntry.id e)
  ∧ PromptYaml.title (PromptEntry.raw e) = Some (PromptEntry.title e)
  ∧ PromptEntry.version e
    = default "1.0.0" (PromptYaml.version (PromptEntry.raw e))
  ∧ PromptEntry.skill_level e
    = default "intermediate" (PromptYaml.skill_level (PromptEntry.raw e))
  ∧ PromptEntry.prompt_text e
    = default "" (PromptYaml.prompt (PromptEntry.raw e))
  ∧ PromptEntry.file_path e = path.
Proof.
  unfold PromptEntry.from_yaml.
  destruct (yaml_load_prompt text) as [[|data]|]; simpl; try done.
  destruct (PromptYaml.id data) eqn:Hid; simpl; [|done].
  destruct (PromptYaml.title data) eqn:Htitle; simpl; [|done].
  intros [= <-]. simpl. by rewrite Hid, Htitle.
Qed.

(** X2.  A loaded prompt record is built from a document that has both
    [id] and [title]; the fields the document leaves out take their
    defaults (version "1.0.0", skill level "intermediate", an empty
    template).  So when every document that states a skill level states
    one of the scale, filtering the loaded catalog by a level of the
    scale returns a list and does not raise. *)
Theorem loaded_records_have_defaults `{Libraries} (r : Root) :
  let c := Catalog.load r in
  (∀ k e, Dict.get k (Catalog.prompts c) = Some e →
     PromptYaml.id (PromptEntry.raw e) = Some k
     ∧ PromptYaml.title (PromptEntry.raw e) = Some (PromptEntry.title e)
     ∧ PromptEntry.version e
       = default "1.0.0" (PromptYaml.version (PromptEntry.raw e))
     ∧ PromptEntry.skill_level e
       = default "intermediate"
                 (PromptYaml.skill_level (PromptEntry.raw e))
     ∧ PromptEntry.prompt_text e
       = default "" (PromptYaml.prompt (PromptEntry.raw e)))
  ∧ ((∀ e level, e ∈ Spec.parsed_prompts r →
        PromptYaml.skill_level (PromptEntry.raw e) = Some level →
        level ∈ SKILL_ORDER) →
     ∀ level, level ∈ SKILL_ORDER →
       ∃ kept, Catalog.filter_prompts c None None (Some level) None None None
               = Ok kept).
Proof.
  intros c.
  assert (∀ k e, Dict.get k (Catalog.prompts c) = Some e →
            PromptEntry.id e = k ∧ e ∈ Spec.parsed_prompts r) as Hkeys.
  { subst c. rewrite load_prompts_fill.
    apply (last_wins_keys PromptEntry.id), fill_last_wins. }
  split.
  - intros k e [<- (path & text & Hfrom)%parsed_prompt_from_yaml]%Hkeys.
    apply from_yaml_fields in Hfrom as (? & ? & ? & ? & ? & _). done.
  - intros Hdocs level Hlevel. eexists.
    unfold Catalog.filter_prompts.
    apply (for_each_filter _ (Spec.at_or_below level)).
    intros p Hp. apply passes_max_skill; [done|].
    unfold Dict.values in Hp.
    apply list_elem_of_fmap in Hp as ([k e] & -> & Hin). simpl.
    assert (∃ k', Dict.get k' (Catalog.prompts c) = Some e) as [k' Hk'].
    { apply dict_values_get; [|by apply list_elem_of_fmap; exists (k, e)].
      subst c. rewrite load_prompts_fill.
      apply (fill_last_wins PromptEntry.id). }
    apply Hkeys in Hk' as [_ He].
    pose proof He as (path & text & Hfrom)%parsed_prompt_from_yaml.
    apply from_yaml_fields in Hfrom as (_ & _ & _ & -> & _).
    destruct (PromptYaml.skill_level _) as [lvl|] eqn:Hlvl; simpl.
    + by eapply Hdocs.
    + right. left.
Qed.

(** ** Instruction stems *)

Lemma drop_append (a b : string) : Str.drop (String.length a) (a +:+ b) = b.
Proof. induction a as [|c a IH]; simpl; [by destruct b|done]. Qed.

Lemma drop_length (n : nat) (s : string) :
  String.length (Str.drop n s) = String.length s - n.
Proof.
  revert s. induction n as [|n IH]; intros [|c s]; simpl; auto.
Qed.

Lemma drop_split (n : nat) (s : string) :
  n ≤ String.length s →
  ∃ a, s = a +:+ Str.drop n s ∧ String.length a = n.
Proof.
  revert s. induction n as [|n IH]; intros s Hn.
  - exists "". by destruct s.
  - destruct s as [|c s]; simpl in *; [lia|].
    destruct (IH s) as (a & Ha & Hlen); [lia|].
    exists (String c a). simpl. split; congruence.
Qed.

Lemma endswith_spec (s p : string) :
  Str.endswith s p = true ↔ ∃ a, s = a +:+ p.
Proof.
  unfold Str.endswith. rewrite andb_true_iff, Nat.leb_le, String.eqb_eq.
  split.
  - intros [Hlen Hdrop].
    destruct (drop_split (String.length s - String.length p) s)
      as (a & Ha & _); [lia|].
    exists a. congruence.
  - intros [a ->]. rewrite length_append. split; [lia|].
    replace (String.length a + String.length p - String.length p)
      with (String.length a) by lia.
    apply drop_append.
Qed.

Lemma substring_append (a b : string) :
  String.substring 0 (String.length a) (a +:+ b) = a.
Proof.
  induction a as [|c a IH]; simpl; [by destruct b|]. by rewrite IH.
Qed.

Lemma rfind_dot_append (a b : string) (i : nat) :
  rfind_dot b = Some i → rfind_dot (a +:+ b) = Some (String.length a + i).
Proof.
  intros Hb. induction a as [|c a IH]; simpl; [done|]. by rewrite IH.
Qed.

(** The stem of [x.instructions.md] is [x.instructions]. *)
Lemma instruction_stem (name : string) :
  Str.endswith name ".instructions.md" = true →
  name = path_stem name +:+ ".md"
  ∧ Str.endswith (path_stem name) ".instructions" = true.
Proof.
  intros [x ->]%endswith_spec. unfold path_stem.
  rewrite (rfind_dot_append x ".instructions.md" 13) by done.
  rewrite length_append.
  replace (0 <? String.length x + 13) with true
    by (symmetry; apply Nat.ltb_lt; lia).
  replace (String.length x + 13
           <? String.length x + String.length ".instructions.md" - 1)
    with true by (symmetry; apply Nat.ltb_lt; simpl; lia).
  simpl andb. cbv iota. unfold Str.slice.
  rewrite Nat.sub_0_r.
  change (x +:+ ".instructions.md")
    with (x +:+ (".instructions" +:+ ".md")).
  rewrite <- append_assoc.
  replace (String.length x + 13)
    with (String.length (x +:+ ".instructions"))
    by (rewrite length_append; simpl; lia).
  rewrite substring_append. split; [done|].
  apply endswith_spec. by exists x.
Qed.

Lemma parsed_instruction_from_path `{Libraries} (r : Root)
    (e : InstructionEntry.t) :
  e ∈ Spec.parsed_instructions r →
  ∃ scope dir f path,
    scope ∈ INSTRUCTION_SCOPES
    ∧ instruction_dir r scope = Some dir
    ∧ f ∈ dir
    ∧ Str.endswith (f_name f) ".instructions.md" = true
    ∧ InstructionEntry.from_path scope path (f_name f) (f_text f) = Ok e.
Proof.
  unfold Spec.parsed_instructions, Spec.scan.
  intros ([scope f] & Hscan & Hf)%list_elem_of_omap.
  apply list_elem_of_bind in Hscan as (scope' & Hin & Hscope).
  destruct (instruction_dir r scope') as [dir|] eqn:Hdir;
    [|by apply elem_of_nil in Hin].
  apply list_elem_of_fmap in Hin as (f' & [= -> ->] & Hf').
  apply elem_of_sorted_glob in Hf' as [Hmd Hf'].
  destruct (InstructionEntry.from_path _ _ _ _) as [e'|] eqn:He; [|done].
  injection Hf as ->. eexists scope', dir, f', _. by repeat split.
Qed.

Lemma from_path_stem `{Libraries} (scope path file_name text : string)
    (e : InstructionEntry.t) :
  InstructionEntry.from_path scope path file_name text = Ok e →
  InstructionEntry.stem e = path_stem file_name
  ∧ InstructionEntry.scope e = scope
  ∧ InstructionEntry.name e ≠ "" ∨ path_stem file_name = "".
Proof.
  unfold InstructionEntry.from_path.
  destruct (if Str.startswith text "---" then _ else _)
    as [[name description]|]; simpl; [|done].
  intros [= <-]. simpl.
  destruct (String.eqb name "") eqn:Hname.
  - destruct (decide (path_stem file_name = "")); [by right|by left].
  - apply String.eqb_neq in Hname. by left.
Qed.

(** X3.  An instruction of a loaded catalog is stored under the name of
    its file without the final ".md": the key of [x.instructions.md] is
    [x.instructions], so every key of the instruction map ends with
    ".instructions", and the scope of the record is the directory the
    file stands in. *)
Theorem instruction_keys_keep_suffix `{Libraries} (r : Root) (k : string)
    (e : InstructionEntry.t) :
  Dict.get k (Catalog.instructions (Catalog.load r)) = Some e →
  Str.endswith k ".instructions" = true
  ∧ InstructionEntry.stem e = k
  ∧ ∃ scope dir f,
      scope ∈ INSTRUCTION_SCOPES
      ∧ instruction_dir r scope = Some dir
      ∧ f ∈ dir
      ∧ f_name f = k +:+ ".md"
      ∧ InstructionEntry.scope e = scope.
Proof.
  rewrite load_instructions_fill. intros Hget.
  apply (last_wins_keys InstructionEntry.stem _ _ (fill_last_wins _ _))
    in Hget as [<- He].
  apply parsed_instruction_from_path
    in He as (scope & dir & f & path & ? & ? & ? & Hmd & Hfrom).
  apply from_path_stem in Hfrom as [(-> & <- & _)|Hempty].
  - apply instruction_stem in Hmd as [Hname Hsuffix].
    split; [done|]. split; [done|]. by exists (InstructionEntry.scope e), dir, f.
  - apply instruction_stem in Hmd as [_ Hsuffix].
    rewrite Hempty in Hsuffix. done.
Qed.

Lemma instruction_keys_keep_suffix_witness :
  Str.endswith "g.instructions" ".instructions" = true.
Proof.
  apply (instruction_keys_keep_suffix (H := Fixture.libraries)
           (Fixture.root None []
              [Fixture.instruction_file "g.instructions.md" "body"])
           "g.instructions"
           {| InstructionEntry.stem := "g.instructions";
              InstructionEntry.scope := "guardrails";
              InstructionEntry.file_path :=
                "/catalog/instructions/guardrails/g.instructions.md";
              InstructionEntry.name := "Test Guardrail";
              InstructionEntry.description := "A guardrail for testing" |}).
  vm_compute. reflexivity.
Defined.

(** ** Filtering *)

Lemma for_each_ext {A S} (f g : S → A → result S) (l : list A) (s : S) :
  (∀ s x, x ∈ l → f s x = g s x) → for_each f l s = for_each g l s.
Proof.
  revert s. induction l as [|x l IH]; intros s Hfg; simpl; [done|].
  rewrite Hfg by left. destruct (g s x); simpl; [|done].
  apply IH. intros s' y Hy. apply Hfg. by right.
Qed.

Lemma passes_without_skill (p : PromptEntry.t)
    (category subcategory platform tag query : option string) :
  Catalog.passes p category subcategory None platform tag query
  = Ok (Criteria.category_ok category p
        && Criteria.subcategory_ok subcategory p
        && Criteria.platform_ok platform p
        && Criteria.tag_ok tag p
        && Criteria.query_ok query p).
Proof.
  unfold Catalog.passes, Criteria.category_ok, Criteria.subcategory_ok,
    Criteria.platform_ok, Criteria.tag_ok, Criteria.query_ok,
    Criteria.searchable.
  destruct (given category), (given subcategory), (given platform),
    (given tag), (given query); simpl;
    repeat case_bool_decide; simpl; try done.
Qed.

Lemma filter_without_skill (c : Catalog.t)
    (category subcategory platform tag query : option string) :
  Catalog.filter_prompts c category subcategory None platform tag query
  = Ok (filter (fun p => Criteria.category_ok category p
                         && Criteria.subcategory_ok subcategory p
                         && Criteria.platform_ok platform p
                         && Criteria.tag_ok tag p
                         && Criteria.query_ok query p = true)
               (Dict.values (Catalog.prompts c))).
Proof.
  unfold Catalog.filter_prompts.
  rewrite (for_each_filter _
             (fun p => Criteria.category_ok category p
                       && Criteria.subcategory_ok subcategory p
                       && Criteria.platform_ok platform p
                       && Criteria.tag_ok tag p
                       && Criteria.query_ok query p)); [done|].
  intros p _. apply passes_without_skill.
Qed.

(** X4.  Filtering by a platform keeps exactly the records whose
    platform list holds the platform or the word "all", in the order of
    the catalog; it does not raise. *)
Theorem filter_by_platform (c : Catalog.t) (platform : string) :
  platform ≠ "" →
  ∃ kept,
    Catalog.filter_prompts c None None None (Some platform) None None
    = Ok kept
    ∧ kept `sublist_of` Dict.values (Catalog.prompts c)
    ∧ ∀ p, p ∈ kept
           ↔ p ∈ Dict.values (Catalog.prompts c)
             ∧ (platform ∈ PromptEntry.platforms p
                ∨ "all" ∈ PromptEntry.platforms p).
Proof.
  intros Hne. eexists. split; [apply filter_without_skill|].
  split; [apply sublist_filter|].
  intros p. rewrite list_elem_of_filter.
  unfold Criteria.category_ok, Criteria.subcategory_ok, Criteria.tag_ok,
    Criteria.query_ok, Criteria.platform_ok, given. simpl.
  apply String.eqb_neq in Hne. rewrite Hne. simpl.
  rewrite !andb_true_r, orb_true_iff, !bool_decide_eq_true. tauto.
Qed.

Lemma filter_by_platform_witness :
  ∃ kept,
    Catalog.filter_prompts Fixture.catalog None None None (Some "web")
      None None = Ok kept
    ∧ kept `sublist_of` Dict.values (Catalog.prompts Fixture.catalog).
Proof.
  destruct (filter_by_platform Fixture.catalog "web") as (kept & ? & ? & _);
    [discriminate|].
  by exists kept.
Defined.

(** X5.  The criteria of [filter_prompts] are conjunctive: without a
    skill criterion the call returns, in the order of the catalog, the
    records that each of the criteria keeps when it is given alone.  A
    criterion that is [None] or the empty text keeps every record, so
    the call without criteria returns the whole catalog. *)
Theorem filter_is_conjunctive (c : Catalog.t)
    (category subcategory platform tag query : option string) :
  ∃ kept by_category by_subcategory by_platform by_tag by_query,
    Catalog.filter_prompts c category subcategory None platform tag query
    = Ok kept
    ∧ Catalog.filter_prompts c category None None None None None
      = Ok by_category
    ∧ Catalog.filter_prompts c None subcategory None None None None
      = Ok by_subcategory
    ∧ Catalog.filter_prompts c None None None platform None None
      = Ok by_platform
    ∧ Catalog.filter_prompts c None None None None tag None = Ok by_tag
    ∧ Catalog.filter_prompts c None None None None None query = Ok by_query
    ∧ kept `sublist_of` Dict.values (Catalog.prompts c)
    ∧ (∀ p, p ∈ kept ↔ p ∈ by_category ∧ p ∈ by_subcategory
                        ∧ p ∈ by_platform ∧ p ∈ by_tag ∧ p ∈ by_query)
    ∧ Catalog.filter_prompts c None None None None None None
      = Ok (Dict.values (Catalog.prompts c))
    ∧ Catalog.filter_prompts c (Some "") (Some "") (Some "") (Some "")
        (Some "") (Some "")
      = Ok (Dict.values (Catalog.prompts c)).
Proof.
  eexists _, _, _, _, _, _.
  rewrite !filter_without_skill.
  do 6 (split; [reflexivity|]).
  split; [apply sublist_filter|]. split.
  - intros p. rewrite !list_elem_of_filter. simpl.
    rewrite !andb_true_r, !andb_true_iff. tauto.
  - assert (∀ l : list PromptEntry.t,
              filter (fun _ : PromptEntry.t => true = true) l = l) as Hall.
    { induction l as [|x l IH]; [done|].
      by rewrite filter_cons, decide_True, IH. }
    split; [f_equal; apply Hall|].
    unfold Catalog.filter_prompts.
    rewrite (for_each_filter _ (fun _ => true)); [by rewrite Hall|done].
Qed.

Lemma lower_char_idempotent (c : ascii) :
  Str.lower_char (Str.lower_char c) = Str.lower_char c.
Proof. by destruct c as [[] [] [] [] [] [] [] []]. Qed.

Lemma lower_idempotent (s : string) : Str.lower (Str.lower s) = Str.lower s.
Proof.
  induction s as [|c s IH]; [done|].
  simpl. by rewrite lower_char_idempotent, IH.
Qed.

Lemma given_lower (q : string) : given (Some (Str.lower q)) = given (Some q).
Proof. by destruct q. Qed.

Lemma passes_query_lower (p : PromptEntry.t)
    (category subcategory skill_level platform tag : option string)
    (q : string) :
  Catalog.passes p category subcategory skill_level platform tag (Some q)
  = Catalog.passes p category subcategory skill_level platform tag
      (Some (Str.lower q)).
Proof.
  unfold Catalog.passes. rewrite given_lower.
  change (default "" (Some (Str.lower q))) with (Str.lower q).
  change (default "" (Some q)) with q.
  by rewrite lower_idempotent.
Qed.

(** X6.  The search text is compared without regard to case: two
    queries that agree once put in lower case select the same records,
    whatever the other criteria are (and fail alike when the skill
    criterion fails). *)
Theorem filter_query_ignores_case (c : Catalog.t)
    (category subcategory skill_level platform tag : option string)
    (q1 q2 : string) :
  Str.lower q1 = Str.lower q2 →
  Catalog.filter_prompts c category subcategory skill_level platform tag
    (Some q1)
  = Catalog.filter_prompts c category subcategory skill_level platform tag
      (Some q2).
Proof.
  intros Hq. unfold Catalog.filter_prompts. apply for_each_ext.
  intros results p _.
  by rewrite (passes_query_lower _ _ _ _ _ _ q1),
    (passes_query_lower _ _ _ _ _ _ q2), Hq.
Qed.

Lemma filter_query_ignores_case_witness :
  Catalog.filter_prompts Fixture.catalog None None None None None
    (Some "PLAN")
  = Catalog.filter_prompts Fixture.catalog None None None None None
      (Some "plan").
Proof.
  apply (filter_query_ignores_case Fixture.catalog None None None None None
           "PLAN" "plan").
  reflexivity.
Defined.

(** ** Skill levels off the scale *)

Lemma list_index_absent (x : string) (l : list string) :
  x ∉ l → list_index x l = Raise ValueError.
Proof.
  induction l as [|y l IH]; [done|].
  rewrite not_elem_of_cons. intros [Hne Hl]. simpl.
  rewrite decide_False by done. by rewrite IH.
Qed.

Lemma list_index_present (x : string) (l : list string) :
  x ∈ l → ∃ n, list_index x l = Ok n.
Proof.
  induction l as [|y l IH]; [by intros ?%elem_of_nil|].
  simpl. destruct (decide (x = y)) as [->|Hne]; [by eexists|].
  rewrite elem_of_cons. intros [?|Hl]; [done|].
  destruct (IH Hl) as [n ->]. by eexists.
Qed.

(** A loop over tests raises what its first failing test raises. *)
Lemma for_each_test_raises {A} (test : A → result bool) (l acc : list A)
    (e : exn) :
  for_each (fun results x =>
              k ←! test x; Ok (if k then results ++ [x] else results)) l acc
  = Raise e →
  ∃ x, x ∈ l ∧ test x = Raise e.
Proof.
  revert acc. induction l as [|x l IH]; intros acc; simpl; [done|].
  destruct (test x) as [k|e'] eqn:Hx; simpl.
  - intros (y & Hy & Hraise)%IH. exists y. split; [by right|done].
  - intros [= ->]. exists x. split; [by left|done].
Qed.

Lemma for_each_test_raising {A} (test : A → result bool) (l acc : list A)
    (e : exn) (x : A) :
  x ∈ l → test x = Raise e →
  (∀ y e', y ∈ l → test y = Raise e' → e' = e) →
  for_each (fun results x =>
              k ←! test x; Ok (if k then results ++ [x] else results)) l acc
  = Raise e.
Proof.
  revert acc. induction l as [|y l IH]; intros acc Hx Hraise Hall;
    [by apply elem_of_nil in Hx|].
  simpl. destruct (test y) as [k|e'] eqn:Hy; simpl.
  - apply elem_of_cons in Hx as [->|Hx]; [congruence|].
    apply IH; [done..|]. intros z e' Hz. apply Hall. by right.
  - f_equal. apply (Hall y); [by left|done].
Qed.

Lemma passes_checks_skill (p : PromptEntry.t) (level : string)
    (category subcategory platform tag query : option string) :
  level ≠ "" →
  Catalog.passes p category subcategory (Some level) platform tag query
  = if Criteria.category_ok category p && Criteria.subcategory_ok subcategory p
    then
      if bool_decide (level ∈ SKILL_ORDER)
         && bool_decide (PromptEntry.skill_level p ∈ SKILL_ORDER)
      then Ok (Spec.at_or_below level p
               && Criteria.platform_ok platform p
               && Criteria.tag_ok tag p
               && Criteria.query_ok query p)
      else Raise ValueError
    else Ok false.
Proof.
  intros Hne. apply String.eqb_neq in Hne.
  unfold Catalog.passes, Criteria.category_ok, Criteria.subcategory_ok.
  rewrite Hne.
  assert (∀ (rest : bool → result bool),
            (∀ b, rest b = Ok (b && (Criteria.platform_ok platform p
               && Criteria.tag_ok tag p
               && Criteria.query_ok query p))) →
            (below ←! (max_idx ←! list_index level SKILL_ORDER;
                       cur_idx ←! list_index (PromptEntry.skill_level p)
                                    SKILL_ORDER;
                       Ok (negb (max_idx <? cur_idx)));
             rest below)
            = if bool_decide (level ∈ SKILL_ORDER)
                 && bool_decide (PromptEntry.skill_level p ∈ SKILL_ORDER)
              then Ok (Spec.at_or_below level p
               && Criteria.platform_ok platform p
               && Criteria.tag_ok tag p
               && Criteria.query_ok query p)
              else Raise ValueError) as Hskill.
  { intros rest Hrest.
    destruct (decide (level ∈ SKILL_ORDER)) as [Hl|Hl];
     [rewrite (bool_decide_eq_true_2 _ Hl)
     |by rewrite (bool_decide_eq_false_2 _ Hl), (list_index_absent _ _ Hl)].
    destruct (decide (PromptEntry.skill_level p ∈ SKILL_ORDER)) as [Hp|Hp];
     [rewrite (bool_decide_eq_true_2 _ Hp)
     |rewrite (bool_decide_eq_false_2 _ Hp), (list_index_absent _ _ Hp);
      by destruct (list_index_present _ _ Hl) as [n ->]].
    destruct (skill_rank _ Hl) as (m & Hm & Hrm & _).
    destruct (skill_rank _ Hp) as (n & Hn & Hrn & _).
    rewrite Hm, Hn. unfold Spec.at_or_below. rewrite Hrm, Hrn.
    cbn [bind andb]. rewrite Hrest, <- !andb_assoc. f_equal. f_equal.
    destruct (n <=? m) eqn:Hle, (m <? n) eqn:Hlt; simpl; try done;
      [apply Nat.leb_le in Hle; apply Nat.ltb_lt in Hlt; lia
      |apply Nat.leb_gt in Hle; apply Nat.ltb_ge in Hlt; lia]. }
  destruct (given category); simpl;
    [destruct (bool_decide (Some (PromptEntry.category p) = category));
     simpl; [|done]|];
    (destruct (given subcategory); simpl;
     [destruct (bool_decide (Some (PromptEntry.subcategory p) = subcategory));
      simpl; [|done]|]);
    apply Hskill; intros b;
    unfold Criteria.platform_ok, Criteria.tag_ok, Criteria.query_ok,
      Criteria.searchable;
    destruct b, (given platform), (given tag), (given query); simpl;
    repeat case_bool_decide; simpl; done.
Qed.

(** X7.  With a skill criterion, [filter_prompts] raises [ValueError]
    exactly when the catalog holds a record that passes the category
    and subcategory criteria and whose skill level, or the criterion
    itself, is not on the scale; records that those two criteria reject
    are never looked up on the scale, and no other exception is raised. *)
Theorem filter_off_scale (c : Catalog.t) (level : string)
    (category subcategory platform tag query : option string) :
  level ≠ "" →
  (Catalog.filter_prompts c category subcategory (Some level) platform tag
     query = Raise ValueError
   ↔ ∃ p, p ∈ Dict.values (Catalog.prompts c)
          ∧ Criteria.category_ok category p = true
          ∧ Criteria.subcategory_ok subcategory p = true
          ∧ (level ∉ SKILL_ORDER ∨ PromptEntry.skill_level p ∉ SKILL_ORDER))
  ∧ ∀ e, Catalog.filter_prompts c category subcategory (Some level) platform
           tag query = Raise e → e = ValueError.
Proof.
  intros Hne. unfold Catalog.filter_prompts.
  assert (∀ p e,
            Catalog.passes p category subcategory (Some level) platform tag
              query = Raise e →
            e = ValueError
            ∧ Criteria.category_ok category p = true
            ∧ Criteria.subcategory_ok subcategory p = true
            ∧ (level ∉ SKILL_ORDER
               ∨ PromptEntry.skill_level p ∉ SKILL_ORDER)) as Hraise.
  { intros p e. rewrite passes_checks_skill by done.
    destruct (Criteria.category_ok category p),
      (Criteria.subcategory_ok subcategory p); simpl; try done.
    repeat case_bool_decide; simpl; try done; intros [= <-]; tauto. }
  split; [split|].
  - intros (p & Hp & Hp')%for_each_test_raises. exists p.
    split; [done|]. by apply Hraise in Hp' as (_ & ? & ? & ?).
  - intros (p & Hp & Hcat & Hsub & Hoff).
    apply (for_each_test_raising _ _ _ _ p); [done| |].
    + rewrite passes_checks_skill, Hcat, Hsub by done. simpl.
      destruct Hoff as [Hoff|Hoff];
        rewrite (bool_decide_eq_false_2 _ Hoff); simpl;
        by rewrite ?andb_false_r.
    + intros y e' _ Hy. by apply Hraise in Hy as [-> _].
  - intros e (p & _ & Hp)%for_each_test_raises.
    by apply Hraise in Hp as [-> _].
Qed.

Lemma filter_off_scale_witness :
  Catalog.filter_prompts Sample.off_scale None None (Some "expert") None
    None None = Raise ValueError.
Proof.
  apply (filter_off_scale Sample.off_scale "expert" None None None None None);
    [discriminate|].
  exists (Fixture.prompt "z" "guru" "Think." []).
  split; [apply list_elem_of_In; simpl; tauto|].
  split; [reflexivity|]. split; [reflexivity|].
  right. simpl. unfold SKILL_ORDER.
  rewrite !not_elem_of_cons. repeat split; try discriminate.
  apply not_elem_of_nil.
Defined.

Lemma rank_on_scale (level : string) (n : nat) :
  Spec.rank level = Some n → level ∈ SKILL_ORDER.
Proof.
  unfold Spec.rank, SKILL_ORDER. rewrite !elem_of_cons.
  repeat case_decide; try done; tauto.
Qed.

(** X8.  Raising the maximum skill level never loses a record: in a
    catalog whose records are all on the scale, the records kept under a
    maximum are, in order, among those kept under any higher maximum. *)
Theorem filter_skill_monotone (c : Catalog.t) (low high : string)
    (m n : nat) :
  Spec.rank low = Some m → Spec.rank high = Some n → m ≤ n →
  (∀ p, p ∈ Dict.values (Catalog.prompts c) →
        PromptEntry.skill_level p ∈ SKILL_ORDER) →
  ∃ kept_low kept_high,
    Catalog.filter_prompts c None None (Some low) None None None
    = Ok kept_low
    ∧ Catalog.filter_prompts c None None (Some high) None None None
      = Ok kept_high
    ∧ kept_low `sublist_of` kept_high.
Proof.
  intros Hlow Hhigh Hle Hscale. unfold Catalog.filter_prompts.
  rewrite (for_each_filter _ (Spec.at_or_below low)),
    (for_each_filter _ (Spec.at_or_below high));
    [|intros p Hp; apply passes_max_skill;
      eauto using rank_on_scale..].
  eexists _, _. do 2 (split; [reflexivity|]). simpl.
  induction (Dict.values (Catalog.prompts c)) as [|p l IH]; [done|].
  rewrite !filter_cons.
  assert (Spec.at_or_below low p = true → Spec.at_or_below high p = true)
    as Himp.
  { unfold Spec.at_or_below. rewrite Hlow, Hhigh.
    destruct (Spec.rank (PromptEntry.skill_level p)); [|done].
    rewrite !Nat.leb_le. lia. }
  specialize (IH (fun q Hq => Hscale q (list_elem_of_further _ _ _ Hq))).
  repeat case_decide; try tauto.
  - by apply sublist_skip.
  - by apply sublist_cons.
Qed.

Lemma filter_skill_monotone_witness :
  ∃ kept_low kept_high,
    Catalog.filter_prompts Fixture.catalog None None (Some "beginner") None
      None None = Ok kept_low
    ∧ Catalog.filter_prompts Fixture.catalog None None (Some "advanced")
        None None None = Ok kept_high
    ∧ kept_low `sublist_of` kept_high.
Proof.
  apply (filter_skill_monotone Fixture.catalog "beginner" "advanced" 0 2);
    [reflexivity|reflexivity|lia|].
  intros p Hp%list_elem_of_In. simpl in Hp. unfold SKILL_ORDER.
  rewrite !elem_of_cons.
  repeat (destruct Hp as [<-|Hp]; [simpl; tauto|]). done.
Defined.

(** ** The chain walk on every catalog *)

Lemma size_list_to_set_le (l : list string) :
  size (list_to_set l : gset string) ≤ length l.
Proof.
  induction l as [|x l IH]; [done|].
  change (size ({[x]} ∪ (list_to_set l : gset string)) ≤ S (length l)).
  rewrite size_union_alt, size_singleton.
  assert (size ((list_to_set l : gset string) ∖ {[x]})
          ≤ size (list_to_set l : gset string)) as Hle
    by (apply subseteq_size, subseteq_difference_l; reflexivity).
  lia.
Qed.

Lemma chain_loop_returns (prompts : Dict.t PromptEntry.t) (n : nat) :
  ∀ visited current acc fuel,
    size ((list_to_set (Dict.keys prompts) : gset string) ∖ visited) ≤ n →
    n < fuel →
    ∃ chain,
      Catalog.chain_loop prompts fuel acc visited current
      = Some (acc ++ chain)
      ∧ length chain ≤ n
      ∧ (∀ p, p ∈ chain → p ∈ Dict.values prompts)
      ∧ head chain
        = match current with
          | Some cid =>
              if negb (String.eqb cid "") && bool_decide (cid ∉ visited)
              then Dict.get cid prompts
              else None
          | None => None
          end.
Proof.
  set (K := list_to_set (Dict.keys prompts) : gset string).
  induction n as [|n IH]; intros visited current acc [|fuel] Hsize Hfuel;
    try lia; cbn [Catalog.chain_loop].
  - destruct current as [cid|];
      [|exists []; rewrite app_nil_r;
        by repeat split; try (by intros ? ?%elem_of_nil)].
    destruct (negb (String.eqb cid "") && bool_decide (cid ∉ visited))
      eqn:Hgo;
      [|exists []; rewrite app_nil_r;
        by repeat split; try (by intros ? ?%elem_of_nil)].
    destruct (Dict.get cid prompts) as [p|] eqn:Hget;
      [|exists []; rewrite app_nil_r;
        by repeat split; try (by intros ? ?%elem_of_nil)].
    exfalso. apply andb_true_iff in Hgo as [_ Hnew%bool_decide_eq_true].
    apply dict_get_Some_key in Hget.
    assert (cid ∈ K ∖ visited) as Hin
      by (apply elem_of_difference; split;
          [by apply elem_of_list_to_set|done]).
    assert (size (K ∖ visited) = 0) as Hz%size_empty_inv by lia.
    by apply Hz in Hin.
  - destruct current as [cid|];
      [|exists []; rewrite app_nil_r;
        by repeat split; try (by intros ? ?%elem_of_nil); simpl; lia].
    destruct (negb (String.eqb cid "") && bool_decide (cid ∉ visited))
      eqn:Hgo;
      [|exists []; rewrite app_nil_r;
        by repeat split; try (by intros ? ?%elem_of_nil); simpl; lia].
    destruct (Dict.get cid prompts) as [p|] eqn:Hget;
      [|exists []; rewrite app_nil_r;
        by repeat split; try (by intros ? ?%elem_of_nil); simpl; lia].
    apply andb_true_iff in Hgo as [_ Hnew%bool_decide_eq_true].
    destruct (IH (visited ∪ {[cid]})
                (head (default [] (Dict.get "next"
                                     (PromptEntry.chain_position p))))
                (acc ++ [p]) fuel)
      as (chain & Hrun & Hlen & Hin & _); [|lia|].
    + pose proof (dict_get_Some_key _ _ _ Hget) as Hkey.
      assert (cid ∈ K) by by apply elem_of_list_to_set.
      assert (K ∖ visited = {[cid]} ∪ K ∖ (visited ∪ {[cid]})) as Heq.
      { apply set_eq. intros x.
        rewrite elem_of_union, !elem_of_difference, elem_of_union,
          elem_of_singleton.
        destruct (decide (x = cid)) as [->|]; tauto. }
      rewrite Heq, size_union, size_singleton in Hsize; [lia|].
      intros x ?%elem_of_singleton. subst x.
      rewrite elem_of_difference, elem_of_union, elem_of_singleton. tauto.
    + exists (p :: chain). rewrite Hrun, <- app_assoc.
      repeat split; [simpl; lia|].
      intros q [->|Hq]%elem_of_cons; [|by apply Hin].
      by eapply dict_get_Some_value.
Qed.

(** X9.  The chain walk returns on every catalog, also on one that
    stores a record under the empty identifier: with more fuel than the
    catalog has records, [get_chain] returns a chain that is no longer
    than the catalog, that holds records of the catalog only, and that
    starts with the record of the start identifier; the chain is empty
    exactly when the start identifier is empty or names no record. *)
Theorem get_chain_returns (c : Catalog.t) (start_id : string) (fuel : nat) :
  length (Catalog.prompts c) < fuel →
  ∃ chain,
    Catalog.get_chain fuel c start_id = Some chain
    ∧ length chain ≤ length (Catalog.prompts c)
    ∧ (∀ p, p ∈ chain → p ∈ Dict.values (Catalog.prompts c))
    ∧ head chain
      = (if String.eqb start_id "" then None
         else Dict.get start_id (Catalog.prompts c))
    ∧ (chain = [] ↔ start_id = ""
                    ∨ Dict.get start_id (Catalog.prompts c) = None).
Proof.
  intros Hfuel. unfold Catalog.get_chain.
  destruct (chain_loop_returns (Catalog.prompts c)
              (length (Catalog.prompts c)) ∅ (Some start_id) [] fuel)
    as (chain & Hrun & Hlen & Hin & Hhead); [|done|].
  { etrans; [apply subseteq_size, subseteq_difference_l; reflexivity|].
    etrans; [apply size_list_to_set_le|].
    unfold Dict.keys. by rewrite length_fmap. }
  exists chain. rewrite (bool_decide_eq_true_2 (start_id ∉ ∅)) in Hhead
    by apply not_elem_of_empty.
  rewrite andb_true_r in Hhead.
  assert (head chain
          = (if String.eqb start_id "" then None
             else Dict.get start_id (Catalog.prompts c))) as Hhead'
    by (rewrite Hhead; by destruct (String.eqb start_id "")).
  repeat split; try done.
  - intros ->. simpl in Hhead'.
    destruct (String.eqb start_id "") eqn:Heq;
      [left; by apply String.eqb_eq|by right].
  - intros Hstop. destruct chain as [|p chain]; [done|]. simpl in Hhead'.
    destruct Hstop as [->|Hnone]; [done|].
    rewrite Hnone in Hhead'. by destruct (String.eqb start_id "").
Qed.

Lemma get_chain_returns_witness :
  ∃ chain,
    Catalog.get_chain 4 Fixture.catalog "ghost" = Some chain ∧ chain = [].
Proof.
  destruct (get_chain_returns Fixture.catalog "ghost" 4)
    as (chain & Hrun & _ & _ & _ & Hempty); [simpl; lia|].
  exists chain. split; [done|]. apply Hempty. by right.
Defined.

(** ** Rendering and the variables of a prompt *)

Lemma contains_occurs (sub s : string) :
  Str.contains sub s = true → ∃ a b, s = a +:+ sub +:+ b.
Proof.
  unfold Str.contains. induction s as [|c s IH].
  - destruct sub; [|done]. intros _. by exists "", "".
  - cbn [String.index].
    destruct (String.prefix sub (String c s)) eqn:Hp.
    + intros _. apply prefix_spec in Hp as [r Hr]. by exists "", r.
    + destruct (String.index 0 sub s) as [n|]; [|done].
      intros _. destruct IH as (a & b & ->); [done|].
      by exists (String c a), b.
Qed.

(** X10.  Arguments that name no variable of the prompt change
    nothing: when every supplied key is an identifier that
    [extract_variable_names] does not list, [render] returns the prompt
    text as it is. *)
Theorem render_unknown_arguments (p : PromptEntry.t) (items : Dict.t string) :
  (∀ k v, (k, v) ∈ items →
          Spec.is_name k ∧ k ∉ PromptEntry.extract_variable_names p) →
  PromptEntry.render p (Some items) = PromptEntry.prompt_text p.
Proof.
  intros Hitems. rewrite render_substitute. apply substitute_absent.
  intros k v [Hname Hnot]%Hitems.
  destruct (Str.contains _ _) eqn:Hc; [|done].
  destruct Hnot. unfold PromptEntry.extract_variable_names.
  apply fromkeys_first_occurrence.
  apply (occurrences_elem_of _ _ (findall_occurrences _)).
  split; [done|]. by apply contains_occurs.
Qed.

Lemma render_unknown_arguments_witness :
  PromptEntry.render (Fixture.prompt "p" "beginner" "{{x}} and {{y}}" [])
                     (Some [("z", "A")])
  = "{{x}} and {{y}}".
Proof.
  apply (render_unknown_arguments
           (Fixture.prompt "p" "beginner" "{{x}} and {{y}}" [])
           [("z", "A")]).
  intros k v [= -> ->]%list_elem_of_singleton.
  split; [by split|].
  change (PromptEntry.extract_variable_names _) with ["x"; "y"].
  rewrite !not_elem_of_cons.
  repeat split; try discriminate. apply not_elem_of_nil.
Defined.

(** ** Validation results *)

Lemma ok_error_count (r : ValidationResult.t) :
  ValidationResult.ok r = true ↔ ValidationResult.error_count r = 0.
Proof.
  unfold ValidationResult.ok, ValidationResult.error_count.
  induction (ValidationResult.issues r) as [|i l IH]; [done|].
  rewrite filter_cons. cbn [existsb].
  destruct (decide (Issue.is_error i = true)) as [Hi|Hi].
  - rewrite Hi. simpl. split; [done|lia].
  - apply not_true_is_false in Hi. rewrite Hi. apply IH.
Qed.

Lemma sum_list_zero (l : list nat) : sum_list l = 0 ↔ ∀ n, n ∈ l → n = 0.
Proof.
  induction l as [|x l IH]; simpl.
  - split; [by intros _ ? ?%elem_of_nil|done].
  - split.
    + intros Hsum n [->|Hn]%elem_of_cons; [lia|].
      apply IH; [lia|done].
    + intros Hall. rewrite (Hall x) by left.
      apply IH. intros n Hn. apply Hall. by right.
Qed.

Lemma all_ok_or_not (results : list ValidationResult.t) :
  (∀ r, r ∈ results → ValidationResult.ok r = true)
  ∨ ∃ r, r ∈ results ∧ ValidationResult.ok r = false.
Proof.
  induction results as [|r l [IH|(r' & Hr' & Hok)]].
  - left. by intros ? ?%elem_of_nil.
  - destruct (ValidationResult.ok r) eqn:Hok.
    + left. by intros r' [->|Hr']%elem_of_cons; [|apply IH].
    + right. exists r. split; [left|done].
  - right. exists r'. split; [by right|done].
Qed.

(** X11.  A result is [ok] exactly when it counts no error, and the
    [validate] command exits with status 0 exactly when every result it
    gathered is [ok]; otherwise the status is 1.  Warnings never change
    the status. *)
Theorem exit_status_ok (results : list ValidationResult.t) :
  (∀ r, ValidationResult.ok r = true ↔ ValidationResult.error_count r = 0)
  ∧ (Cli.exit_status results = 0
     ↔ ∀ r, r ∈ results → ValidationResult.ok r = true)
  ∧ (Cli.exit_status results = 1
     ↔ ∃ r, r ∈ results ∧ ValidationResult.ok r = false)
  ∧ (∀ i r, Issue.is_error i = false →
       Cli.exit_status (ValidationResult.append i r :: results)
       = Cli.exit_status (r :: results)).
Proof.
  split; [apply ok_error_count|].
  assert (Cli.exit_status results = 0
          ↔ ∀ r, r ∈ results → ValidationResult.ok r = true) as Hzero.
  { unfold Cli.exit_status.
    destruct (0 <? _) eqn:Hlt.
    - apply Nat.ltb_lt in Hlt. split; [done|]. intros Hall. exfalso.
      assert (sum_list (ValidationResult.error_count <$> results) = 0)
        as Hz; [|lia].
      apply sum_list_zero. intros n (r & -> & Hr)%list_elem_of_fmap.
      by apply ok_error_count, Hall.
    - apply Nat.ltb_ge in Hlt. split; [|done]. intros _ r Hr.
      apply ok_error_count.
      assert (sum_list (ValidationResult.error_count <$> results) = 0)
        as Hz by lia.
      apply (proj1 (sum_list_zero _) Hz), list_elem_of_fmap. by exists r. }
  split; [done|]. split.
  - split.
    + intros Hone. destruct (all_ok_or_not results) as [Hall|?]; [|done].
      apply Hzero in Hall. lia.
    + intros (r & Hr & Hok).
      unfold Cli.exit_status in *. destruct (0 <? _) eqn:Hlt; [done|].
      exfalso. rewrite (proj1 Hzero eq_refl r Hr) in Hok. done.
  - intros i r Hi. unfold Cli.exit_status. simpl.
    unfold ValidationResult.error_count at 1 3. simpl.
    rewrite filter_app, filter_cons, decide_False, filter_nil, app_nil_r;
      [done|]. by rewrite Hi.
Qed.

(** ** The checks beyond the schema *)

Lemma re_findall_raises (v : pyval) (e : exn) :
  re_findall v = Raise e → e = TypeError.
Proof. destruct v; simpl; congruence. Qed.

Lemma iterate_raises (v : pyval) (e : exn) :
  iterate v = Raise e → e = TypeError.
Proof. destruct v; simpl; congruence. Qed.

Lemma py_in_raises (x v : pyval) (e : exn) :
  py_in x v = Raise e → e = TypeError.
Proof. destruct v, x; simpl; congruence. Qed.

Lemma defined_names_raise (l : list pyval) (e : exn) :
  comprehension Validator.defined_name l = Raise e →
  e = TypeError ∨ e = KeyError.
Proof.
  induction l as [|v l IH]; simpl; [done|].
  destruct (Validator.defined_name v) as [x|e'] eqn:Hv; simpl.
  - destruct (comprehension _ l); simpl; [done|]. intros [= ->]. by apply IH.
  - intros [= ->]. unfold Validator.defined_name in Hv.
    destruct v as [| | | | |d]; simpl in Hv; try (left; congruence).
    destruct (Dict.get "name" d) as [x|]; simpl in Hv;
      [|right; congruence].
    destruct (hashable x); [done|left; congruence].
Qed.

Lemma check_prompt_extras_cases (data : Dict.t pyval) (rel_path : string)
    (res : ValidationResult.t) :
  match Validator._check_prompt_extras data rel_path res with
  | Ok res' =>
      ∃ ws, ValidationResult.issues res' = ValidationResult.issues res ++ ws
            ∧ length ws ≤ 3
            ∧ Forall (fun i => Issue.severity i = "warning"
                               ∧ Issue.file i = rel_path) ws
            ∧ ValidationResult.files_checked res'
              = ValidationResult.files_checked res
            ∧ ValidationResult.files_passed res'
              = ValidationResult.files_passed res
  | Raise e => e = TypeError ∨ e = KeyError
  end.
Proof.
  unfold Validator._check_prompt_extras.
  destruct (re_findall _) as [found|e] eqn:Hfound; simpl;
    [|left; by eapply re_findall_raises].
  destruct (iterate _) as [entries|e] eqn:Hentries; simpl;
    [|left; by eapply iterate_raises].
  destruct (comprehension _ entries) as [names|e] eqn:Hnames; simpl;
    [|by eapply defined_names_raise].
  destruct (forallb _ names); simpl; [|by left].
  destruct (py_in _ _) as [self|e] eqn:Hself; simpl;
    [|left; by eapply py_in_raises].
  repeat case_bool_decide; destruct self; cbn [ValidationResult.append ValidationResult.issues
         ValidationResult.files_checked ValidationResult.files_passed];
    first [ exists []; split; [by rewrite app_nil_r|]
          | eexists; rewrite <- ?app_assoc; split; [reflexivity|] ];
    simpl; repeat split; try lia; repeat constructor.
Qed.

Lemma ok_warnings (res res' : ValidationResult.t) (ws : list Issue.t) :
  ValidationResult.issues res' = ValidationResult.issues res ++ ws →
  Forall (fun i => Issue.is_error i = false) ws →
  ValidationResult.ok res' = ValidationResult.ok res
  ∧ ValidationResult.error_count res' = ValidationResult.error_count res.
Proof.
  intros Hissues Hws.
  unfold ValidationResult.ok, ValidationResult.error_count.
  rewrite Hissues, existsb_app, filter_app, length_app.
  assert (existsb Issue.is_error ws = false
          ∧ filter (fun i => Issue.is_error i = true) ws = []) as [-> ->].
  { clear Hissues. induction Hws as [|i ws Hi _ [IH1 IH2]]; [done|].
    simpl. rewrite Hi, IH1. split; [done|].
    rewrite filter_cons. rewrite decide_False by (by rewrite Hi). done. }
  simpl. by rewrite orb_false_r, Nat.add_0_r.
Qed.

(** X12.  The checks beyond the schema only warn: when
    [_check_prompt_extras] returns it has appended at most three issues,
    all warnings on the file at hand, and has left the counters, the
    error count and [ok] as they were; when it raises, it raises
    [TypeError] or [KeyError]. *)
Theorem check_prompt_extras_warns (data : Dict.t pyval) (rel_path : string)
    (res : ValidationResult.t) :
  (∀ res', Validator._check_prompt_extras data rel_path res = Ok res' →
     (∃ ws, ValidationResult.issues res' = ValidationResult.issues res ++ ws
            ∧ length ws ≤ 3
            ∧ Forall (fun i => Issue.severity i = "warning"
                               ∧ Issue.file i = rel_path) ws)
     ∧ ValidationResult.files_checked res'
       = ValidationResult.files_checked res
     ∧ ValidationResult.files_passed res' = ValidationResult.files_passed res
     ∧ ValidationResult.error_count res' = ValidationResult.error_count res
     ∧ ValidationResult.ok res' = ValidationResult.ok res)
  ∧ (∀ e, Validator._check_prompt_extras data rel_path res = Raise e →
          e = TypeError ∨ e = KeyError).
Proof.
  pose proof (check_prompt_extras_cases data rel_path res) as Hcases.
  split.
  - intros res' Hres. rewrite Hres in Hcases.
    destruct Hcases as (ws & Hissues & Hlen & Hws & Hchecked & Hpassed).
    destruct (ok_warnings res res' ws) as [Hok Hcount]; [done| |].
    { eapply Forall_impl; [exact Hws|]. intros i [Hi _].
      unfold Issue.is_error. by rewrite Hi. }
    split; [by exists ws|done].
  - intros e He. by rewrite He in Hcases.
Qed.

Lemma typed_names (l : list pyval) :
  forallb (fun v => bool_decide (is_Some (Typed.variable_name v))) l = true →
  comprehension Validator.defined_name l
  = Ok (PStr <$> omap Typed.variable_name l).
Proof.
  induction l as [|v l IH]; [done|]. simpl.
  intros [Hv Hl]%andb_true_iff. rewrite (IH Hl).
  apply bool_decide_eq_true in Hv as [name Hname].
  rewrite Hname. unfold Typed.variable_name in Hname.
  destruct v as [| | | | |d]; try done.
  unfold Validator.defined_name. simpl.
  destruct (Dict.get "name" d) as [[| | |s| |]|]; try done.
  by injection Hname as ->.
Qed.

Lemma as_text_names (names : list string) :
  omap Validator.as_text (PStr <$> names) = names
  ∧ forallb (fun x => bool_decide (is_Some (Validator.as_text x)))
            (PStr <$> names) = true.
Proof.
  induction names as [|n names [IH1 IH2]]; [done|].
  rewrite fmap_cons. split.
  - change (omap Validator.as_text (PStr n :: (PStr <$> names)))
      with (n :: omap Validator.as_text (PStr <$> names)).
    by rewrite IH1.
  - cbn [forallb]. rewrite IH2.
    by rewrite bool_decide_eq_true_2 by by eexists.
Qed.

(** X13.  On a document of the declared shape [_check_prompt_extras]
    does not raise, and it appends nothing exactly when the placeholders
    of the template are the declared variable names and the prompt does
    not list its own identifier among its related prompts. *)
Theorem check_prompt_extras_typed (data : Dict.t pyval) (rel_path : string)
    (res : ValidationResult.t) :
  Typed.prompt_data data = true →
  let used :=
    Str.findall_placeholders
      match Dict.get "prompt" data with Some (PStr s) => s | _ => "" end in
  let declared :=
    omap Typed.variable_name
      match Dict.get "variables" data with Some (PList l) => l | _ => [] end in
  let self_reference :=
    match Dict.get "related_prompts" data with
    | Some (PList l) =>
        existsb (fun y => py_eqb y (default (PStr "") (Dict.get "id" data))) l
    | _ => false
    end in
  ∃ res',
    Validator._check_prompt_extras data rel_path res = Ok res'
    ∧ (ValidationResult.issues res' = ValidationResult.issues res
       ↔ (∀ w, w ∈ used ↔ w ∈ declared) ∧ self_reference = false).
Proof.
  intros Htyped used declared self_reference.
  unfold Typed.prompt_data in Htyped.
  apply andb_true_iff in Htyped as [[Hprompt Hvars]%andb_true_iff Hrel].
  unfold Validator._check_prompt_extras.
  assert (re_findall (default (PStr "") (Dict.get "prompt" data)) = Ok used)
    as ->.
  { subst used. by destruct (Dict.get "prompt" data) as [[]|]. }
  cbn [bind].
  assert (∃ l, iterate (default (PList []) (Dict.get "variables" data)) = Ok l
               ∧ comprehension Validator.defined_name l
                 = Ok (PStr <$> declared)) as (l & -> & Hnames).
  { subst declared. destruct (Dict.get "variables" data) as [[]|]; try done.
    - eexists. split; [done|]. by apply typed_names.
    - by exists []. }
  cbn [bind]. rewrite Hnames. cbn [bind].
  destruct (as_text_names declared) as [-> ->]. cbn [bind].
  assert (py_in (default (PStr "") (Dict.get "id" data))
                (default (PList []) (Dict.get "related_prompts" data))
          = Ok self_reference) as ->.
  { subst self_reference.
    by destruct (Dict.get "related_prompts" data) as [[]|]. }
  cbn [bind]. eexists. split; [reflexivity|].
  assert (∀ (i : Issue.t) (r : ValidationResult.t),
            ValidationResult.issues (ValidationResult.append i r)
            = ValidationResult.issues r ++ [i]) as Happ by done.
  assert (∀ (a b : list Issue.t), a ++ b = a ↔ b = []) as Hnil.
  { intros a b. split; [|intros ->; apply app_nil_r].
    intros Hab. apply (f_equal length) in Hab. rewrite length_app in Hab.
    destruct b; [done|simpl in Hab; lia]. }
  assert ((∀ w, w ∈ used ↔ w ∈ declared)
          ↔ (list_to_set used : gset string) ∖ list_to_set declared = ∅
            ∧ (list_to_set declared : gset string) ∖ list_to_set used = ∅)
    as ->.
  { split.
    - intros Hsame. split; apply set_eq; intros w;
        rewrite elem_of_difference, !elem_of_list_to_set, Hsame;
        rewrite elem_of_empty; tauto.
    - intros [H1 H2] w.
      assert (w ∉ (list_to_set used : gset string)
                  ∖ list_to_set declared) as Hw1
        by (rewrite H1; apply not_elem_of_empty).
      assert (w ∉ (list_to_set declared : gset string)
                  ∖ list_to_set used) as Hw2
        by (rewrite H2; apply not_elem_of_empty).
      rewrite elem_of_difference, !elem_of_list_to_set in Hw1, Hw2.
      destruct (decide (w ∈ used)), (decide (w ∈ declared)); tauto. }
  repeat case_bool_decide; destruct self_reference;
    rewrite ?Happ, <- ?app_assoc, ?Hnil; simpl; split;
    try done; try tauto; by intros [_ ?].
Qed.

Lemma check_prompt_extras_typed_witness :
  ∃ res',
    Validator._check_prompt_extras Sample.typed_prompt "prompts/planning/p.yaml"
      ValidationResult.empty = Ok res'.
Proof.
  destruct (check_prompt_extras_typed Sample.typed_prompt
              "prompts/planning/p.yaml" ValidationResult.empty eq_refl)
    as (res' & Hres & _).
  by exists res'.
Defined.

(** ** Counting the files *)

Lemma for_each_invariant {A S} (P : S → Prop) (step : S → A → result S)
    (l : list A) :
  (∀ s x s', x ∈ l → step s x = Ok s' → P s → P s') →
  ∀ s s', for_each step l s = Ok s' → P s → P s'.
Proof.
  induction l as [|x l IH]; intros Hstep s s'; simpl.
  - by intros [= <-].
  - destruct (step s x) as [s1|] eqn:Hx; simpl; [|done].
    intros Hrun Hs. apply (IH (fun s x s' Hin => Hstep s x s' (list_elem_of_further _ _ _ Hin)) s1 s' Hrun).
    apply (Hstep s x s1); [left|done..].
Qed.

Lemma for_each_count {A St} (m : St → nat) (step : St → A → result St)
    (l : list A) :
  (∀ s x s', x ∈ l → step s x = Ok s' → m s' = S (m s)) →
  ∀ s s', for_each step l s = Ok s' → m s' = m s + length l.
Proof.
  induction l as [|x l IH]; intros Hstep s s'; simpl.
  - intros [= <-]. lia.
  - destruct (step s x) as [s1|] eqn:Hx; simpl; [|done].
    intros Hrun.
    rewrite (IH (fun s x s' Hin => Hstep s x s' (list_elem_of_further _ _ _ Hin)) s1 s' Hrun).
    rewrite (Hstep s x s1); [lia|left|done].
Qed.

Lemma for_each_scan {S} (dir_of : string → option (list File))
    (suffix : string) (step : string → S → File → result S)
    (dirs : list string) (s : S) :
  for_each (fun s dir_name =>
              match dir_of dir_name with
              | None => Ok s
              | Some dir => for_each (step dir_name) (sorted_glob suffix dir) s
              end) dirs s
  = for_each (fun s '(dir_name, f) => step dir_name s f)
             (Spec.scan dirs dir_of suffix) s.
Proof.
  unfold Spec.scan. revert s.
  induction dirs as [|dir_name dirs IH]; intros s; simpl; [done|].
  rewrite for_each_app.
  assert (match dir_of dir_name with
          | None => Ok s
          | Some dir => for_each (step dir_name) (sorted_glob suffix dir) s
          end
          = for_each (fun s '(dir_name, f) => step dir_name s f)
              match dir_of dir_name with
              | Some dir => pair dir_name <$> sorted_glob suffix dir
              | None => []
              end s) as ->.
  { destruct (dir_of dir_name) as [dir|]; [|done].
    generalize (sorted_glob suffix dir). intros l. revert s.
    induction l as [|f l IHl]; intros s; simpl; [done|].
    destruct (step dir_name s f); simpl; auto. }
  destruct (for_each _ _ s); simpl; [apply IH|done].
Qed.

Lemma length_omap_le {A B} (f : A → option B) (l : list A) :
  length (omap f l) ≤ length l.
Proof.
  induction l as [|x l IH]; [done|].
  cbn [omap list_omap]. destruct (f x); simpl in *; lia.
Qed.

Lemma ok_append_error (file message : string) (res : ValidationResult.t) :
  ValidationResult.ok
    (ValidationResult.append (Issue.error file message) res) = false.
Proof.
  unfold ValidationResult.ok. simpl. rewrite existsb_app. simpl.
  by rewrite orb_true_r.
Qed.

Section prompts.
Context `{Libraries}.

Lemma schema_issues_fold (rel_path : string) (errors : list SchemaError.t)
    (res : ValidationResult.t) :
  let res' := foldl (fun r err =>
                       ValidationResult.append
                         (Validator.schema_issue rel_path err) r)
                    res errors in
  ValidationResult.issues res'
  = ValidationResult.issues res
    ++ (Validator.schema_issue rel_path <$> errors)
  ∧ ValidationResult.files_checked res' = ValidationResult.files_checked res
  ∧ ValidationResult.files_passed res' = ValidationResult.files_passed res.
Proof.
  revert res. induction errors as [|err errors IH]; intros res; simpl.
  - by rewrite app_nil_r.
  - destruct (IH (ValidationResult.append
                    (Validator.schema_issue rel_path err) res))
      as (-> & -> & ->).
    simpl. by rewrite <- app_assoc.
Qed.

Lemma validate_prompt_file_counts (schema : pyval) (dir_name : string)
    (res res' : ValidationResult.t) (f : File) :
  Validator.validate_prompt_file schema dir_name res f = Ok res' →
  ValidationResult.files_checked res' = S (ValidationResult.files_checked res)
  ∧ (Accounting.consistent res → Accounting.consistent res').
Proof.
  unfold Validator.validate_prompt_file, Accounting.consistent.
  assert (∀ file message,
            let res' := ValidationResult.append (Issue.error file message)
                          (ValidationResult.checked res) in
            ValidationResult.files_checked res'
            = S (ValidationResult.files_checked res)
            ∧ (ValidationResult.files_passed res
               ≤ ValidationResult.files_checked res
               ∧ (ValidationResult.ok res = true
                  ↔ ValidationResult.files_passed res
                    = ValidationResult.files_checked res) →
               ValidationResult.files_passed res'
               ≤ ValidationResult.files_checked res'
               ∧ (ValidationResult.ok res' = true
                  ↔ ValidationResult.files_passed res'
                    = ValidationResult.files_checked res'))) as Herror.
  { intros file message res0. subst res0. rewrite ok_append_error. simpl.
    split; [done|]. intros [Hle _]. split; [lia|]. split; [done|lia]. }
  destruct (yaml_safe_load (f_text f)) as [[| | | | |data]|[]];
    try done; try (intros [= <-]; apply Herror).
  destruct (iter_errors schema (PDict data)) as [|err errors] eqn:Herrors.
  - intros Hextras.
    pose proof (check_prompt_extras_cases data
                  ("prompts/" +:+ dir_name +:+ "/" +:+ f_name f)
                  (ValidationResult.passed (ValidationResult.checked res)))
      as Hcases.
    rewrite Hextras in Hcases.
    destruct Hcases as (ws & Hissues & _ & Hws & -> & ->).
    destruct (ok_warnings _ res' ws Hissues) as [-> _].
    { eapply Forall_impl; [exact Hws|]. intros i [Hi _].
      unfold Issue.is_error. by rewrite Hi. }
    simpl. split; [done|].
    change (ValidationResult.ok
              (ValidationResult.passed (ValidationResult.checked res)))
      with (ValidationResult.ok res).
    intros [Hle Hok]. split; [lia|]. rewrite Hok. lia.
  - intros Hextras.
    destruct (schema_issues_fold
                ("prompts/" +:+ dir_name +:+ "/" +:+ f_name f)
                (err :: errors) (ValidationResult.checked res))
      as (Hfold & Hchecked & Hpassed).
    pose proof (check_prompt_extras_cases data
                  ("prompts/" +:+ dir_name +:+ "/" +:+ f_name f)
                  (foldl (fun r err =>
                            ValidationResult.append
                              (Validator.schema_issue
                                 ("prompts/" +:+ dir_name +:+ "/"
                                  +:+ f_name f) err) r)
                         (ValidationResult.checked res) (err :: errors)))
      as Hcases.
    rewrite Hextras in Hcases.
    destruct Hcases as (ws & Hissues & _ & Hws & -> & ->).
    destruct (ok_warnings _ res' ws Hissues) as [-> _].
    { eapply Forall_impl; [exact Hws|]. intros i [Hi _].
      unfold Issue.is_error. by rewrite Hi. }
    assert (ValidationResult.ok
              (foldl (fun r err0 =>
                        ValidationResult.append
                          (Validator.schema_issue
                             ("prompts/" +:+ dir_name +:+ "/" +:+ f_name f)
                             err0) r)
                     (ValidationResult.checked res) (err :: errors))
            = false) as ->.
    { unfold ValidationResult.ok. rewrite Hfold, existsb_app. simpl.
      by rewrite orb_true_r. }
    rewrite Hchecked, Hpassed. simpl. split; [done|].
    intros [Hle _]. split; [lia|]. split; [done|lia].
Qed.

(** X14.  When [validate_prompts] returns, its counters agree with its
    issues.  With a usable schema it has checked every [.yaml] file of
    the scan, also those whose name starts with an underscore, which the
    loader skips, so the loaded prompts are no more than the checked
    files; every checked file has passed exactly when the result holds
    no error.  Without a schema file, or with one that holds an empty
    document, no file is checked and the single issue is the missing
    schema. *)
Theorem validate_prompts_accounting (r : Root) (res : ValidationResult.t) :
  Validator.validate_prompts r = Ok res →
  ValidationResult.files_passed res ≤ ValidationResult.files_checked res
  ∧ (∀ schema,
       Validator._load_schema r = Ok (Some schema) → truthy schema = true →
       ValidationResult.files_checked res
       = length (Spec.scan PROMPT_DIRS (prompt_dir r) ".yaml")
       ∧ length (Spec.parsed_prompts r) ≤ ValidationResult.files_checked res
       ∧ (ValidationResult.ok res = true
          ↔ ValidationResult.files_passed res
            = ValidationResult.files_checked res))
  ∧ (Validator._load_schema r = Ok None
     ∨ (∃ schema, Validator._load_schema r = Ok (Some schema)
                  ∧ truthy schema = false) →
     res = {| ValidationResult.issues :=
                [Issue.error "schema/prompt.schema.json"
                             "Schema file not found"];
              ValidationResult.files_checked := 0;
              ValidationResult.files_passed := 0 |}).
Proof.
  unfold Validator.validate_prompts.
  destruct (Validator._load_schema r) as [[schema|]|e] eqn:Hschema;
    cbn [bind]; [|by intros [= <-]; repeat split; try done; intros [|(?&?&?)]|done].
  destruct (truthy schema) eqn:Htruthy.
  - change (for_each (Validator.validate_prompt_dir r schema) PROMPT_DIRS
              ValidationResult.empty)
      with (for_each
              (fun s dir_name =>
                 match prompt_dir r dir_name with
                 | None => Ok s
                 | Some dir =>
                     for_each (Validator.validate_prompt_file schema dir_name)
                              (sorted_glob ".yaml" dir) s
                 end) PROMPT_DIRS ValidationResult.empty).
    rewrite for_each_scan. intros Hrun.
    assert (Accounting.consistent res) as [Hle Hok].
    { eapply (for_each_invariant Accounting.consistent);
        [|exact Hrun|by split].
      intros s [d f] s' _ Hstep.
      by apply (validate_prompt_file_counts schema d s s' f). }
    assert (ValidationResult.files_checked res
            = length (Spec.scan PROMPT_DIRS (prompt_dir r) ".yaml"))
      as Hcount.
    { eapply (for_each_count ValidationResult.files_checked) in Hrun;
        [exact Hrun|].
      intros s [d f] s' _ Hstep.
      by apply (validate_prompt_file_counts schema d s s' f). }
    split; [done|]. split.
    + intros schema' [= <-] _. split; [done|]. split; [|done].
      rewrite Hcount. unfold Spec.parsed_prompts. apply length_omap_le.
    + intros [?|(schema' & [= <-] & ?)]; congruence.
  - intros [= <-]. split; [done|]. split; [|done].
    intros schema' [= <-]. congruence.
Qed.
End prompts.

Lemma validate_prompts_accounting_witness :
  ∃ res,
    Validator.validate_prompts (H := Fixture.libraries)
      (Fixture.root None
         [Fixture.prompt_file "a.yaml" "a" "Plan.";
          Fixture.prompt_file "_b.yaml" "b" "Draft."] [])
    = Ok res
    ∧ ValidationResult.files_checked res = 2
    ∧ ValidationResult.files_passed res ≤ ValidationResult.files_checked res.
Proof.
  eexists. split; [vm_compute; reflexivity|]. split; [reflexivity|].
  eapply (validate_prompts_accounting (H := Fixture.libraries)
            (Fixture.root None
               [Fixture.prompt_file "a.yaml" "a" "Plan.";
                Fixture.prompt_file "_b.yaml" "b" "Draft."] [])).
  vm_compute. reflexivity.
Defined.

(** ** Instruction files *)

Lemma no_error_for_ok (rel_path : string) (res : ValidationResult.t) :
  ValidationResult.no_error_for rel_path res = false →
  ValidationResult.ok res = false.
Proof.
  unfold ValidationResult.no_error_for, ValidationResult.ok.
  induction (ValidationResult.issues res) as [|i l IH]; [done|].
  simpl. destruct (Issue.is_error i); [done|].
  by rewrite andb_false_r.
Qed.

Lemma no_error_for_append (rel_path : string) (i : Issue.t)
    (res : ValidationResult.t) :
  ValidationResult.no_error_for rel_path (ValidationResult.append i res)
  = ValidationResult.no_error_for rel_path res
    && negb (String.eqb (Issue.file i) rel_path && Issue.is_error i).
Proof.
  unfold ValidationResult.no_error_for. simpl.
  rewrite existsb_app. simpl. rewrite orb_false_r.
  by destruct (existsb _ _), (_ && _).
Qed.

Lemma ok_append (i : Issue.t) (res : ValidationResult.t) :
  ValidationResult.ok (ValidationResult.append i res)
  = ValidationResult.ok res && negb (Issue.is_error i).
Proof.
  unfold ValidationResult.ok. simpl. rewrite existsb_app. simpl.
  rewrite orb_false_r. by destruct (existsb _ _), (Issue.is_error i).
Qed.

Lemma finish_consistent (rel_path : string) (res res1 : ValidationResult.t) :
  ValidationResult.files_checked res1
  = S (ValidationResult.files_checked res) →
  ValidationResult.files_passed res1 = ValidationResult.files_passed res →
  (ValidationResult.no_error_for rel_path res1 = true →
   ValidationResult.ok res1 = ValidationResult.ok res) →
  let res' := if ValidationResult.no_error_for rel_path res1
              then ValidationResult.passed res1 else res1 in
  ValidationResult.files_checked res'
  = S (ValidationResult.files_checked res)
  ∧ (Accounting.consistent res → Accounting.consistent res').
Proof.
  intros Hchecked Hpassed Hok. unfold Accounting.consistent.
  destruct (ValidationResult.no_error_for rel_path res1) eqn:Hno; simpl.
  - change (ValidationResult.ok (ValidationResult.passed res1))
      with (ValidationResult.ok res1).
    rewrite Hchecked, Hpassed, Hok by done. split; [done|].
    intros [Hle ->]. split; lia.
  - apply no_error_for_ok in Hno. rewrite Hchecked, Hpassed, Hno.
    split; [done|]. intros [Hle _]. split; [lia|]. split; [done|lia].
Qed.

Section instructions.
Context `{Libraries}.

Lemma validate_instruction_file_counts (scope : string)
    (res res' : ValidationResult.t) (f : File) :
  Validator.validate_instruction_file scope res f = Ok res' →
  ValidationResult.files_checked res' = S (ValidationResult.files_checked res)
  ∧ (Accounting.consistent res → Accounting.consistent res').
Proof.
  unfold Validator.validate_instruction_file, Accounting.consistent.
  assert (∀ file message,
            let res' := ValidationResult.append (Issue.error file message)
                          (ValidationResult.checked res) in
            ValidationResult.files_checked res'
            = S (ValidationResult.files_checked res)
            ∧ (ValidationResult.files_passed res
               ≤ ValidationResult.files_checked res
               ∧ (ValidationResult.ok res = true
                  ↔ ValidationResult.files_passed res
                    = ValidationResult.files_checked res) →
               ValidationResult.files_passed res'
               ≤ ValidationResult.files_checked res'
               ∧ (ValidationResult.ok res' = true
                  ↔ ValidationResult.files_passed res'
                    = ValidationResult.files_checked res'))) as Herror.
  { intros file message res0. subst res0. rewrite ok_append_error. simpl.
    split; [done|]. intros [Hle _]. split; [lia|]. split; [done|lia]. }
  destruct (negb (Str.startswith (f_text f) "---"));
    [intros [= <-]; apply Herror|].
  destruct (Str.index (f_text f) "---" 3) as [end_|e]; cbn [bind];
    [|destruct e; try done; intros [= <-]; apply Herror].
  destruct (yaml_load_front_matter _) as [fm|e]; cbn [bind];
    [|destruct e; try done; intros [= <-]; apply Herror].
  destruct fm as [|name description|]; try (intros [= <-]; apply Herror).
  set (rel_path := "instructions/" +:+ scope +:+ "/" +:+ f_name f).
  set (body := Str.strip _).
  intros [= <-].
  apply finish_consistent;
    destruct name as [name|], description as [description|],
      (String.length body <? 50); try done;
    rewrite ?no_error_for_append, ?ok_append;
    cbn [Issue.file Issue.error Issue.warning Validator.too_short
         Issue.is_error Issue.severity];
    rewrite ?String.eqb_refl;
    change (ValidationResult.ok (ValidationResult.checked res))
      with (ValidationResult.ok res);
    simpl; rewrite ?andb_true_r, ?andb_false_r; done.
Qed.

(** X15.  When [validate_instructions] returns, its counters agree with
    its issues: it has checked every [.instructions.md] file of the
    three scopes, no more files have passed than were checked, and every
    checked file has passed exactly when the result holds no error. *)
Theorem validate_instructions_accounting (r : Root)
    (res : ValidationResult.t) :
  Validator.validate_instructions r = Ok res →
  ValidationResult.files_checked res
  = length (Spec.scan INSTRUCTION_SCOPES (instruction_dir r)
                      ".instructions.md")
  ∧ ValidationResult.files_passed res ≤ ValidationResult.files_checked res
  ∧ (ValidationResult.ok res = true
     ↔ ValidationResult.files_passed res
       = ValidationResult.files_checked res).
Proof.
  unfold Validator.validate_instructions.
  change (for_each (Validator.validate_instruction_dir r) INSTRUCTION_SCOPES
            ValidationResult.empty)
    with (for_each
            (fun s scope =>
               match instruction_dir r scope with
               | None => Ok s
               | Some dir =>
                   for_each (fun s f =>
                               Validator.validate_instruction_file scope s f)
                            (sorted_glob ".instructions.md" dir) s
               end) INSTRUCTION_SCOPES ValidationResult.empty).
  rewrite (for_each_scan (instruction_dir r) ".instructions.md"
             (fun scope s f => Validator.validate_instruction_file scope s f)).
  intros Hrun.
  assert (Accounting.consistent res) as [Hle Hok].
  { eapply (for_each_invariant Accounting.consistent);
      [|exact Hrun|by split].
    intros s [scope f] s' _ Hstep.
    by apply (validate_instruction_file_counts scope s s' f). }
  split; [|done].
  eapply (for_each_count ValidationResult.files_checked) in Hrun;
    [exact Hrun|].
  intros s [scope f] s' _ Hstep.
  by apply (validate_instruction_file_counts scope s s' f).
Qed.
End instructions.

Lemma validate_instructions_accounting_witness :
  ∃ res,
    Validator.validate_instructions (H := Fixture.libraries)
      (Fixture.root None []
         [Fixture.instruction_file "g.instructions.md" Fixture.fifty;
          {| f_name := "h.instructions.md"; f_text := "no header" |}])
    = Ok res
    ∧ ValidationResult.files_checked res = 2
    ∧ ValidationResult.files_passed res ≤ ValidationResult.files_checked res.
Proof.
  eexists. split; [vm_compute; reflexivity|]. split; [reflexivity|].
  eapply (validate_instructions_accounting (H := Fixture.libraries)
            (Fixture.root None []
               [Fixture.instruction_file "g.instructions.md" Fixture.fifty;
                {| f_name := "h.instructions.md";
                   f_text := "no header" |}])).
  vm_compute. reflexivity.
Defined.

Section accepted.
Context `{Libraries}.

Lemma elem_of_scan (dirs : list string)
    (dir_of : string → option (list File)) (suffix dir_name : string)
    (dir : list File) (f : File) :
  dir_name ∈ dirs → dir_of dir_name = Some dir → f ∈ dir →
  Str.endswith (f_name f) suffix = true →
  (dir_name, f) ∈ Spec.scan dirs dir_of suffix.
Proof.
  intros Hdirs Hdir Hf Hsuffix. unfold Spec.scan.
  apply list_elem_of_bind. exists dir_name. split; [|done].
  rewrite Hdir. apply list_elem_of_fmap. exists f. split; [done|].
  by apply elem_of_sorted_glob.
Qed.

Lemma passed_instruction_header (scope : string)
    (res res' : ValidationResult.t) (f : File) :
  Validator.validate_instruction_file scope res f = Ok res' →
  ValidationResult.files_passed res' = S (ValidationResult.files_passed res) →
  Str.startswith (f_text f) "---" = true
  ∧ ∃ end_ name description,
      Str.index (f_text f) "---" 3 = Ok end_
      ∧ yaml_load_front_matter (Str.slice 3 end_ (f_text f))
        = Ok (FmMapping (Some name) description).
Proof.
  unfold Validator.validate_instruction_file.
  destruct (Str.startswith (f_text f) "---"); simpl;
    [|intros [= <-]; simpl; lia].
  destruct (Str.index (f_text f) "---" 3) as [end_|e] eqn:Hend; cbn [bind];
    [|destruct e; try done; intros [= <-]; simpl; lia].
  destruct (yaml_load_front_matter _) as [fm|e] eqn:Hfm; cbn [bind];
    [|destruct e; try done; intros [= <-]; simpl; lia].
  destruct fm as [|name description|]; try (intros [= <-]; simpl; lia).
  destruct name as [name|].
  - intros _ _. split; [done|]. by exists end_, name, description.
  - intros [= <-].
    destruct description, (String.length _ <? 50);
      rewrite ?no_error_for_append;
      cbn [Issue.file Issue.error Issue.warning Validator.too_short
           Issue.is_error Issue.severity];
      rewrite ?String.eqb_refl; simpl; rewrite ?andb_false_r; simpl; lia.
Qed.

(** X16.  An instruction file that [validate_instructions] counts as
    passed is a file that the loader reads without failure.  The file
    opens with a header block, closed by a second rule, that the reader
    gives as a mapping with a [name]; for every path [from_path] returns
    the record with the stem of the file, the scope, the description of
    the header and this name (the stem of the file when the name is
    empty); and the loaded catalog holds a record with this stem under
    the stem of the file. *)
Theorem passed_instruction_loads (r : Root) (scope : string)
    (dir : list File) (f : File) (res res' : ValidationResult.t) :
  scope ∈ INSTRUCTION_SCOPES →
  instruction_dir r scope = Some dir →
  f ∈ dir →
  Str.endswith (f_name f) ".instructions.md" = true →
  Validator.validate_instruction_file scope res f = Ok res' →
  ValidationResult.files_passed res' = S (ValidationResult.files_passed res) →
  ∃ end_ name description,
    Str.startswith (f_text f) "---" = true
    ∧ Str.index (f_text f) "---" 3 = Ok end_
    ∧ yaml_load_front_matter (Str.slice 3 end_ (f_text f))
      = Ok (FmMapping (Some name) description)
    ∧ (∀ path,
         InstructionEntry.from_path scope path (f_name f) (f_text f)
         = Ok {| InstructionEntry.stem := path_stem (f_name f);
                 InstructionEntry.scope := scope;
                 InstructionEntry.file_path := path;
                 InstructionEntry.name :=
                   if String.eqb name "" then path_stem (f_name f)
                   else name;
                 InstructionEntry.description := default "" description |})
    ∧ ∃ e, Dict.get (path_stem (f_name f))
                    (Catalog.instructions (Catalog.load r)) = Some e
           ∧ InstructionEntry.stem e = path_stem (f_name f).
Proof.
  intros Hscope Hdir Hf Hmd Hrun Hpassed.
  destruct (passed_instruction_header scope res res' f Hrun Hpassed)
    as (Hstart & end_ & name & description & Hend & Hfm).
  assert (∀ path,
            InstructionEntry.from_path scope path (f_name f) (f_text f)
            = Ok {| InstructionEntry.stem := path_stem (f_name f);
                    InstructionEntry.scope := scope;
                    InstructionEntry.file_path := path;
                    InstructionEntry.name :=
                      if String.eqb name "" then path_stem (f_name f)
                      else name;
                    InstructionEntry.description :=
                      default "" description |}) as Hfrom.
  { intros path. unfold InstructionEntry.from_path.
    by rewrite Hstart, Hend; cbn [bind]; rewrite Hfm. }
  exists end_, name, description. do 4 (split; [done|]).
  set (e := {| InstructionEntry.stem := path_stem (f_name f);
               InstructionEntry.scope := scope;
               InstructionEntry.file_path :=
                 Catalog.path_join
                   (Catalog.path_join
                      (Catalog.path_join (root_path r) "instructions")
                      scope)
                   (f_name f);
               InstructionEntry.name :=
                 if String.eqb name "" then path_stem (f_name f)
                 else name;
               InstructionEntry.description := default "" description |}).
  assert (e ∈ Spec.parsed_instructions r) as He.
  { unfold Spec.parsed_instructions. apply list_elem_of_omap.
    exists (scope, f). split; [by eapply elem_of_scan|].
    by rewrite Hfrom. }
  destruct (last_wins_keys InstructionEntry.stem
              (Spec.parsed_instructions r)
              (Catalog.instructions (Catalog.load r))) as [Hkeys Hsome].
  { rewrite load_instructions_fill. apply fill_last_wins. }
  destruct (Hsome e He) as [e' He']. exists e'. split; [done|].
  by apply Hkeys in He' as [? _].
Qed.
End accepted.

Lemma passed_instruction_loads_witness :
  let f := Fixture.instruction_file "g.instructions.md" Fixture.fifty in
  ∃ end_ name description,
    Str.index (f_text f) "---" 3 = Ok end_
    ∧ yaml_load_front_matter (Libraries := Fixture.libraries)
        (Str.slice 3 end_ (f_text f))
      = Ok (FmMapping (Some name) description)
    ∧ InstructionEntry.name <$>
        Dict.get "g.instructions"
          (Catalog.instructions
             (Catalog.load (H := Fixture.libraries)
                (Fixture.root None [] [f])))
      = Some "Test Guardrail".
Proof.
  intros f.
  destruct (passed_instruction_loads (H := Fixture.libraries)
              (Fixture.root None [] [f]) "guardrails" [f] f
              ValidationResult.empty
              {| ValidationResult.issues := [];
                 ValidationResult.files_checked := 1;
                 ValidationResult.files_passed := 1 |})
    as (end_ & name & description & _ & Hend & Hfm & _).
  - right. left.
  - reflexivity.
  - left.
  - vm_compute. reflexivity.
  - vm_compute. reflexivity.
  - reflexivity.
  - exists end_, name, description. split; [done|]. split; [done|].
    vm_compute. reflexivity.
Defined.

(** ** The index *)

Lemma appends_refl (P : Issue.t → Prop) (res : ValidationResult.t) :
  Accounting.appends P res res.
Proof. exists []. by rewrite app_nil_r. Qed.

Lemma appends_trans (P : Issue.t → Prop) (r1 r2 r3 : ValidationResult.t) :
  Accounting.appends P r1 r2 → Accounting.appends P r2 r3 →
  Accounting.appends P r1 r3.
Proof.
  intros (e1 & H1 & ? & Hc1 & Hp1) (e2 & H2 & ? & Hc2 & Hp2).
  exists (e1 ++ e2). rewrite H2, H1, Hc2, Hc1, Hp2, Hp1, app_assoc.
  repeat split; try done. by apply Forall_app.
Qed.

Lemma appends_one (P : Issue.t → Prop) (i : Issue.t)
    (res : ValidationResult.t) :
  P i → Accounting.appends P res (ValidationResult.append i res).
Proof. intros Hi. exists [i]. repeat split; try done. by apply Forall_singleton. Qed.

Lemma appends_foldl {A} (P : Issue.t → Prop)
    (step : ValidationResult.t → A → ValidationResult.t) (l : list A) :
  (∀ res x, Accounting.appends P res (step res x)) →
  ∀ res, Accounting.appends P res (foldl step res l).
Proof.
  intros Hstep. induction l as [|x l IH]; intros res; simpl.
  - apply appends_refl.
  - eapply appends_trans; [apply Hstep|apply IH].
Qed.

Lemma repeats_none {A} `{EqDecision A} (seen l : list A) :
  repeats seen l = [] ↔ NoDup l ∧ ∀ x, x ∈ l → x ∉ seen.
Proof.
  revert seen. induction l as [|x l IH]; intros seen; simpl.
  - split; [|done]. intros _. split; [constructor|].
    by intros ? ?%elem_of_nil.
  - case_bool_decide as Hx.
    + split; [done|]. intros [_ Hall]. destruct (Hall x); [left|done].
    + rewrite IH, NoDup_cons. split.
      * intros [Hnd Hall]. split.
        -- split; [|done]. intros Hin. apply (Hall x Hin). left.
        -- intros y [->|Hy]%elem_of_cons; [done|].
           intros Hseen. apply (Hall y Hy). by right.
      * intros [[Hnew Hnd] Hall]. split; [done|].
        intros y Hy [->|Hseen]%elem_of_cons; [done|].
        apply (Hall y); [by right|done].
Qed.

Section index_checks.
Context `{Libraries}.

#[local] Abbreviation other := (fun i => Duplicate.reported i = false).

Lemma check_duplicates_repeats (ids seen : list (option string))
    (res : ValidationResult.t) :
  let res' := (foldl Validator.check_duplicate (seen, res) ids).2 in
  ValidationResult.issues res'
  = ValidationResult.issues res ++ (Duplicate.issue <$> repeats seen ids)
  ∧ ValidationResult.files_checked res' = ValidationResult.files_checked res
  ∧ ValidationResult.files_passed res' = ValidationResult.files_passed res.
Proof.
  revert seen res. induction ids as [|pid ids IH]; intros seen res;
    cbn [foldl].
  - simpl. by rewrite app_nil_r.
  - change (Validator.check_duplicate (seen, res) pid)
      with (pid :: seen,
            if bool_decide (pid ∈ seen)
            then ValidationResult.append (Duplicate.issue pid) res
            else res).
    cbn [repeats]. case_bool_decide.
    + destruct (IH (pid :: seen)
                  (ValidationResult.append (Duplicate.issue pid) res))
        as (-> & -> & ->).
      cbn [ValidationResult.issues ValidationResult.append
           ValidationResult.files_checked ValidationResult.files_passed].
      by rewrite <- app_assoc.
    + apply IH.
Qed.

Lemma check_index_steps (r : Root) (index : IndexJson.t)
    (res : ValidationResult.t) :
  let ids := IndexJson.id <$> default [] (IndexJson.prompts index) in
  ∃ before after res',
    ValidationResult.issues res'
    = ValidationResult.issues res ++ before
      ++ (Duplicate.issue <$> repeats [] ids) ++ after
    ∧ Forall other before ∧ Forall other after
    ∧ ValidationResult.files_checked res' = ValidationResult.files_checked res
    ∧ ValidationResult.files_passed res' = ValidationResult.files_passed res
    ∧ Validator.check_index r index res
      = match ValidationResult.issues res' with
        | [] => {| ValidationResult.issues := [];
                   ValidationResult.files_checked :=
                     ValidationResult.files_checked res';
                   ValidationResult.files_passed := 1 |}
        | _ => res'
        end.
Proof.
  intros ids. unfold Validator.check_index. fold ids.
  set (listed := default [] (IndexJson.prompts index)) in *.
  assert (Accounting.appends other res
            (foldl (Validator.check_prompt_entry r) res listed)) as H1.
  { apply appends_foldl. intros res0 e. unfold Validator.check_prompt_entry.
    destruct (negb _); [destruct (path_exists r _)|];
      first [apply appends_refl | by apply appends_one]. }
  set (res1 := foldl (Validator.check_prompt_entry r) res listed) in *.
  assert (∀ kind res0 l,
            (∀ rest, Duplicate.reported
                       (Issue.error "prompts/index.json" (kind +:+ rest))
                     = false) →
            Accounting.appends other res0
              (foldl (Validator.check_file_entry kind r) res0 l)) as Hfile.
  { intros kind res0 l Hkind. apply appends_foldl. intros res' e.
    unfold Validator.check_file_entry.
    destruct (_ && _); [|apply appends_refl].
    apply appends_one, Hkind. }
  pose proof (Hfile "Instruction" res1
                (default [] (IndexJson.instructions index))
                (fun _ => eq_refl)) as H2.
  set (res2 := foldl (Validator.check_file_entry "Instruction" r) res1 _)
    in *.
  pose proof (Hfile "Starter kit" res2
                (default [] (IndexJson.starter_kits index))
                (fun _ => eq_refl)) as H3.
  set (res3 := foldl (Validator.check_file_entry "Starter kit" r) res2 _)
    in *.
  clear Hfile.
  set (stated := default 0%Z (default None (IndexJson.statistics index))).
  assert (Accounting.appends other res3
            (if bool_decide (stated ≠ Z.of_nat (length listed))
             then ValidationResult.append
                    (Validator.count_issue stated (length listed)) res3
             else res3)) as H4.
  { case_bool_decide; [by apply appends_one|apply appends_refl]. }
  set (res4 := if bool_decide (stated ≠ Z.of_nat (length listed))
               then _ else res3) in *.
  destruct (check_duplicates_repeats ids [] res4) as (H5 & Hc5 & Hp5).
  set (res5 := (foldl Validator.check_duplicate ([], res4) ids).2) in *.
  assert (Accounting.appends other res5
            (foldl (Validator.check_listed_dir r
                      ((fun e => default "" (IndexJson.file e)) <$> listed))
                   res5 PROMPT_DIRS)) as H6.
  { apply appends_foldl. intros res0 dir_name.
    unfold Validator.check_listed_dir.
    destruct (prompt_dir r dir_name) as [dir|]; [|apply appends_refl].
    apply appends_foldl. intros res' f. unfold Validator.check_listed.
    case_bool_decide; [apply appends_refl|by apply appends_one]. }
  set (res6 := foldl (Validator.check_listed_dir r _) res5 PROMPT_DIRS) in *.
  pose proof (appends_trans _ _ _ _ H1
                (appends_trans _ _ _ _ H2 (appends_trans _ _ _ _ H3 H4)))
    as (before & Hbefore & ? & Hcb & Hpb).
  destruct H6 as (after & Hafter & ? & Hca & Hpa).
  exists before, after, res6.
  rewrite Hafter, H5, Hbefore, Hca, Hc5, Hcb, Hpa, Hp5, Hpb.
  rewrite <- !app_assoc. by repeat split.
Qed.

Lemma filter_not_reported (l : list Issue.t) :
  Forall other l →
  filter (fun i => Duplicate.reported i = true) l = [].
Proof.
  intros Hl. apply filter_none. intros i Hi.
  rewrite Forall_forall in Hl. by rewrite (Hl i Hi).
Qed.

Lemma filter_reported (ids : list (option string)) :
  filter (fun i => Duplicate.reported i = true) (Duplicate.issue <$> ids)
  = Duplicate.issue <$> ids.
Proof.
  induction ids as [|pid ids IH]; [done|].
  rewrite fmap_cons, filter_cons, IH.
  rewrite decide_True; [done|].
  unfold Duplicate.reported, Duplicate.issue, Str.startswith, Issue.error.
  cbn [Issue.message]. apply prefix_append.
Qed.

(** X17.  [validate_index] reports the repeated prompt identifiers of
    the index, each as often as it recurs and in the order of the
    entries: the issues on duplicates are those of the identifiers that
    have occurred before, so there is none exactly when the identifiers
    are pairwise distinct.  Entries without an identifier count as one
    identifier, reported as "None". *)
Theorem index_duplicates_reported (r : Root) (text : string)
    (index : IndexJson.t) :
  index_file r = Some text →
  json_loads_index text = Ok index →
  let ids := IndexJson.id <$> default [] (IndexJson.prompts index) in
  ∃ res,
    Validator.validate_index r = Ok res
    ∧ filter (fun i => Duplicate.reported i = true)
             (ValidationResult.issues res)
      = Duplicate.issue <$> repeats [] ids
    ∧ (filter (fun i => Duplicate.reported i = true)
              (ValidationResult.issues res) = [] ↔ NoDup ids)
    ∧ (∀ i, i ∈ Duplicate.issue <$> repeats [] ids →
            Issue.severity i = "error")
    ∧ Issue.message (Duplicate.issue None)
      = "Duplicate prompt ID in index: None".
Proof.
  intros Hfile Hindex ids. unfold Validator.validate_index.
  rewrite Hfile, Hindex. eexists. split; [reflexivity|].
  destruct (check_index_steps r index
              {| ValidationResult.issues := [];
                 ValidationResult.files_checked := 1;
                 ValidationResult.files_passed := 0 |})
    as (before & after & res' & Hissues & Hbefore & Hafter & _ & _ & ->).
  fold ids in Hissues.
  assert (filter (fun i => Duplicate.reported i = true)
                 (ValidationResult.issues res')
          = Duplicate.issue <$> repeats [] ids) as Hfilter.
  { rewrite Hissues. simpl. rewrite !filter_app.
    rewrite (filter_not_reported before), (filter_not_reported after),
      filter_reported by done.
    by rewrite app_nil_r. }
  assert (filter (fun i => Duplicate.reported i = true)
            (ValidationResult.issues
               match ValidationResult.issues res' with
               | [] => {| ValidationResult.issues := [];
                          ValidationResult.files_checked :=
                            ValidationResult.files_checked res';
                          ValidationResult.files_passed := 1 |}
               | _ => res'
               end)
          = Duplicate.issue <$> repeats [] ids) as ->.
  { destruct (ValidationResult.issues res') eqn:Hres'; [|by rewrite Hres'].
    by rewrite <- Hfilter. }
  split; [done|]. split; [|split; [|done]].
  - assert (Duplicate.issue <$> repeats [] ids = [] ↔ repeats [] ids = [])
      as ->.
    { split; [apply fmap_nil_inv|by intros ->]. }
    rewrite repeats_none. split; [by intros [? _]|].
    intros Hnd. split; [done|]. intros x _. apply not_elem_of_nil.
  - by intros i (pid & -> & _)%list_elem_of_fmap.
Qed.

(** X18.  The index passes only when it is clean: [validate_index]
    checks one file when the index exists and none otherwise, and it
    counts the index as passed exactly when the index exists and the
    result holds no issue at all, so that a single warning keeps the
    index from passing although the result is [ok]. *)
Theorem validate_index_passes_only_clean (r : Root)
    (res : ValidationResult.t) :
  Validator.validate_index r = Ok res →
  ValidationResult.files_passed res ≤ ValidationResult.files_checked res
  ∧ ValidationResult.files_checked res ≤ 1
  ∧ (ValidationResult.files_checked res = 1 ↔ is_Some (index_file r))
  ∧ (ValidationResult.files_passed res = 1
     ↔ is_Some (index_file r) ∧ ValidationResult.issues res = [])
  ∧ (index_file r = None →
     ValidationResult.issues res
     = [Issue.error "prompts/index.json" "Index file not found"]).
Proof.
  unfold Validator.validate_index.
  destruct (index_file r) as [text|].
  - assert (is_Some (Some text)) as Hsome by by eexists.
    destruct (json_loads_index text) as [index|[]]; try done.
    + destruct (check_index_steps r index
                  {| ValidationResult.issues := [];
                     ValidationResult.files_checked := 1;
                     ValidationResult.files_passed := 0 |})
        as (before & after & res' & _ & _ & _ & Hc & Hp & ->).
      simpl in Hc, Hp. intros [= <-].
      destruct (ValidationResult.issues res') eqn:Hres'; simpl;
        rewrite ?Hc, ?Hp, ?Hres'; repeat split; try done; try lia.
      by intros [_ ?].
    + intros [= <-]. simpl. repeat split; try done; try lia.
      by intros [_ ?].
  - intros [= <-]. simpl. repeat split; try done; try lia;
      first [by intros ?%is_Some_None | by intros [?%is_Some_None _]].
Qed.
End index_checks.

Lemma index_duplicates_reported_witness :
  ∃ res,
    Validator.validate_index (H := Fixture.libraries)
      (Fixture.root (Some (Fixture.index_text "2")) [] []) = Ok res
    ∧ filter (fun i => Duplicate.reported i = true)
             (ValidationResult.issues res) = [].
Proof.
  destruct (index_duplicates_reported (H := Fixture.libraries)
              (Fixture.root (Some (Fixture.index_text "2")) [] [])
              (Fixture.index_text "2") (Fixture.index_of 2)
              eq_refl eq_refl)
    as (res & Hrun & Hfilter & _).
  exists res. split; [done|]. by rewrite Hfilter.
Defined.

Lemma validate_index_passes_only_clean_witness :
  ∃ res,
    Validator.validate_index (H := Fixture.libraries)
      (Fixture.root (Some (Fixture.index_text "999")) [] []) = Ok res
    ∧ ValidationResult.ok res = true
    ∧ ValidationResult.files_passed res ≠ 1.
Proof.
  eexists. split; [vm_compute; reflexivity|]. split; [reflexivity|].
  intros Hpassed.
  eapply (validate_index_passes_only_clean (H := Fixture.libraries)
            (Fixture.root (Some (Fixture.index_text "999")) [] []))
    in Hpassed as [_ Hclean]; [discriminate Hclean|].
  vm_compute. reflexivity.
Defined.

(** ** The server and the command line *)

Lemma find_first {A} (f : A → bool) (l : list A) (x : A) :
  x ∈ l → f x = true → ∃ y, List.find f l = Some y ∧ y ∈ l ∧ f y = true.
Proof.
  intros Hx Hfx. destruct (List.find f l) as [y|] eqn:Hfind.
  - apply find_some in Hfind as [Hy ?]. exists y.
    by rewrite list_elem_of_In.
  - apply list_elem_of_In in Hx.
    by rewrite (find_none f l Hfind x Hx) in Hfx.
Qed.

Lemma match_by_lower_id_Some (c : Catalog.t) (name : string)
    (p : PromptEntry.t) :
  Server.match_by_lower_id c name = Some p →
  p ∈ Dict.values (Catalog.prompts c)
  ∧ Str.lower (PromptEntry.id p) = Str.lower name.
Proof.
  unfold Server.match_by_lower_id. intros [Hp Heq]%find_some.
  split; [by apply list_elem_of_In|by apply String.eqb_eq].
Qed.

Lemma match_by_lower_id_None (c : Catalog.t) (name : string) :
  Server.match_by_lower_id c name = None
  ↔ ∀ p, p ∈ Dict.values (Catalog.prompts c) →
         Str.lower (PromptEntry.id p) ≠ Str.lower name.
Proof.
  unfold Server.match_by_lower_id. split.
  - intros Hnone p Hp%list_elem_of_In.
    by apply String.eqb_neq, (find_none _ _ Hnone).
  - intros Hall. destruct (List.find _ _) as [p|] eqn:Hfind; [|done].
    apply find_some in Hfind as [Hp Heq%String.eqb_eq].
    by apply list_elem_of_In, Hall in Hp.
Qed.

(** X19.  [get_prompt] looks the name up without regard to case: the
    name and its lower-case form give the same answer.  The call raises
    [ValueError], and nothing else, exactly when no record of the
    catalog has the name as its identifier once both are put in lower
    case; otherwise it returns one user message, the template of such a
    record rendered with the arguments, under the description of the
    record or, when that is empty, its title. *)
Theorem get_prompt_ignores_case (c : Catalog.t) (name : string)
    (arguments : option (Dict.t string)) :
  Server.get_prompt c name arguments
  = Server.get_prompt c (Str.lower name) arguments
  ∧ (Server.get_prompt c name arguments = Raise ValueError
     ↔ ∀ p, p ∈ Dict.values (Catalog.prompts c) →
            Str.lower (PromptEntry.id p) ≠ Str.lower name)
  ∧ (∀ e, Server.get_prompt c name arguments = Raise e → e = ValueError)
  ∧ (∀ res, Server.get_prompt c name arguments = Ok res →
       ∃ p, p ∈ Dict.values (Catalog.prompts c)
            ∧ Str.lower (PromptEntry.id p) = Str.lower name
            ∧ Server.messages res
              = [{| Server.role := "user";
                    Server.text := PromptEntry.render p arguments |}]
            ∧ Server.description res
              = (if String.eqb (PromptEntry.description p) ""
                 then PromptEntry.title p
                 else PromptEntry.description p)).
Proof.
  split; [|split; [|split]].
  - unfold Server.get_prompt, Server.match_by_lower_id.
    by rewrite lower_idempotent.
  - rewrite <- match_by_lower_id_None. unfold Server.get_prompt.
    by destruct (Server.match_by_lower_id c name).
  - unfold Server.get_prompt.
    destruct (Server.match_by_lower_id c name); [done|]. by intros e [= <-].
  - unfold Server.get_prompt.
    destruct (Server.match_by_lower_id c name) as [p|] eqn:Hp; [|done].
    intros res [= <-]. apply match_by_lower_id_Some in Hp as [? ?].
    by exists p.
Qed.

(** X20.  Every name that [list_prompts] gives out is served by
    [get_prompt]: for a record of the catalog, the lower-case form of
    its identifier finds a record with the same lower-case identifier,
    and the call does not raise.  When no two records of the catalog
    share a lower-case identifier, the record found is the record
    listed. *)
Theorem listed_prompt_is_served (c : Catalog.t) (p : PromptEntry.t)
    (arguments : option (Dict.t string)) :
  p ∈ Dict.values (Catalog.prompts c) →
  ∃ q,
    Server.match_by_lower_id c (Server.prompt_name p) = Some q
    ∧ Server.prompt_name q = Server.prompt_name p
    ∧ Server.get_prompt c (Server.prompt_name p) arguments
      = Ok {| Server.description :=
                if String.eqb (PromptEntry.description q) ""
                then PromptEntry.title q
                else PromptEntry.description q;
              Server.messages :=
                [{| Server.role := "user";
                    Server.text := PromptEntry.render q arguments |}] |}
    ∧ (NoDup (Server.prompt_name <$> Dict.values (Catalog.prompts c)) →
       q = p).
Proof.
  intros Hp.
  destruct (find_first
              (fun q => String.eqb (Str.lower (PromptEntry.id q))
                                   (Str.lower (Server.prompt_name p)))
              (Dict.values (Catalog.prompts c)) p Hp)
    as (q & Hfind & Hq & Heq).
  { unfold Server.prompt_name. rewrite lower_idempotent.
    apply String.eqb_refl. }
  apply String.eqb_eq in Heq. unfold Server.prompt_name in Heq.
  rewrite lower_idempotent in Heq.
  exists q. unfold Server.get_prompt, Server.match_by_lower_id.
  rewrite Hfind. repeat split; try done.
  intros Hnd. by apply (NoDup_fmap_eq Server.prompt_name _ q p Hnd).
Qed.

Lemma listed_prompt_is_served_witness :
  ∃ q,
    Server.match_by_lower_id Fixture.catalog
      (Server.prompt_name (Fixture.prompt "b" "advanced" "Review {{project}}."
                             ["a"])) = Some q
    ∧ Server.prompt_name q = "b".
Proof.
  destruct (listed_prompt_is_served Fixture.catalog
              (Fixture.prompt "b" "advanced" "Review {{project}}." ["a"])
              None)
    as (q & Hfind & Hname & _).
  { apply list_elem_of_In. simpl. tauto. }
  by exists q.
Defined.

Lemma fromkeys_head (x : string) (l : list string) :
  head (Str.fromkeys (x :: l)) = Some x.
Proof.
  unfold Str.fromkeys. cbn [foldl].
  rewrite bool_decide_eq_false_2 by apply not_elem_of_nil.
  change ([] ++ [x]) with (x :: []).
  assert (∀ rest,
            head (foldl (fun keys y =>
                           if bool_decide (y ∈ keys) then keys
                           else keys ++ [y]) (x :: rest) l)
            = Some x) as Hhead; [|apply Hhead].
  induction l as [|y l IH]; intros rest; [done|].
  cbn [foldl]. case_bool_decide; [apply IH|].
  change ((x :: rest) ++ [y]) with (x :: (rest ++ [y])). apply IH.
Qed.

(** X21.  The prompt stack that [start] recommends never lists a prompt
    twice, whatever the project type and the domain prompt are; it
    starts with the requirements prompt, it always holds the threat
    model, unit test, pipeline and monitoring prompts, and it holds the
    domain prompt when one was selected. *)
Theorem recommend_unique (project_choice : string)
    (selected_domain : option string) :
  let recommended := Cli.recommend project_choice selected_domain in
  NoDup recommended
  ∧ head recommended = Some "PLAN-REQ-001"
  ∧ (∀ id, id ∈ ["SEC-THREAT-001"; "TEST-UNIT-001"; "DEPLOY-CICD-001";
                 "OPS-MON-001"] → id ∈ recommended)
  ∧ (∀ id, selected_domain = Some id → id ∈ recommended).
Proof.
  intros recommended. subst recommended. unfold Cli.recommend.
  set (middle := if String.eqb project_choice "1" then _ else _).
  set (closing := ["SEC-THREAT-001"; "TEST-UNIT-001"; "DEPLOY-CICD-001";
                   "OPS-MON-001"]).
  change ((["PLAN-REQ-001"] ++ middle) ++ closing)
    with ("PLAN-REQ-001" :: (middle ++ closing)).
  set (rest := middle ++ closing).
  assert (∀ id, id ∈ closing → id ∈ rest) as Hrest.
  { intros id Hid. apply elem_of_app. by right. }
  clearbody rest. clear middle.
  set (final := match selected_domain with
                | Some id => Cli.list_insert_at 4 id ("PLAN-REQ-001" :: rest)
                | None => "PLAN-REQ-001" :: rest
                end).
  assert (∃ rest', final = "PLAN-REQ-001" :: rest'
                   ∧ (∀ id, id ∈ rest → id ∈ rest')
                   ∧ ∀ id, selected_domain = Some id → id ∈ rest')
    as (rest' & -> & Hkept & Hdomain).
  { subst final. destruct selected_domain as [id|].
    - unfold Cli.list_insert_at. exists (take 3 rest ++ id :: drop 3 rest).
      split; [done|]. split.
      + intros x Hx. rewrite <- (take_drop 3 rest) in Hx.
        apply elem_of_app in Hx as [Hx|Hx]; apply elem_of_app;
          [by left|right; by right].
      + intros x [= ->]. apply elem_of_app. right. left.
    - exists rest. by repeat split. }
  destruct (fromkeys_first_occurrence ("PLAN-REQ-001" :: rest'))
    as (Hnd & Hin & _).
  split; [done|]. split; [apply fromkeys_head|]. split.
  - intros id Hid. apply Hin. right. by apply Hkept, Hrest.
  - intros id Hid. apply Hin. right. by apply Hdomain.
Qed.

(** X22.  The kit lookup of the command line extends [resolve_kit]: a
    kit that [resolve_kit] finds is the kit the lookup returns.  On a
    loaded catalog the lookup is insensitive to case: the kit it returns
    has the identifier asked for once both are put in lower case, and
    it returns none only when no kit of the catalog has. *)
Theorem find_kit_ignores_case `{Libraries} (r : Root) (kit_id : string) :
  let c := Catalog.load r in
  (∀ kit, Cli.find_kit c kit_id = Some kit →
          kit ∈ Dict.values (Catalog.starter_kits c)
          ∧ Str.lower (StarterKit.id kit) = Str.lower kit_id)
  ∧ (Cli.find_kit c kit_id = None
     ↔ ∀ kit, kit ∈ Dict.values (Catalog.starter_kits c) →
              Str.lower (StarterKit.id kit) ≠ Str.lower kit_id)
  ∧ (∀ kit, Dict.get kit_id (Catalog.starter_kits c) = Some kit →
            Cli.find_kit c kit_id = Some kit
            ∧ ∃ resolved, Catalog.resolve_kit c kit_id = Ok resolved).
Proof.
  intros c.
  assert (∀ k kit, Dict.get k (Catalog.starter_kits c) = Some kit →
                   StarterKit.id kit = k) as Hkeys.
  { intros k kit Hget. subst c. rewrite load_kits_fill in Hget.
    by apply (last_wins_keys StarterKit.id _ _ (fill_last_wins _ _))
      in Hget as [? _]. }
  unfold Cli.find_kit. split; [|split].
  - intros kit.
    destruct (Dict.get kit_id (Catalog.starter_kits c)) as [k|] eqn:Hget.
    + intros [= <-]. split; [by eapply dict_get_Some_value|].
      by rewrite (Hkeys _ _ Hget).
    + intros [Hin Heq%String.eqb_eq]%find_some.
      split; [by apply list_elem_of_In|done].
  - destruct (Dict.get kit_id (Catalog.starter_kits c)) as [k|] eqn:Hget.
    + split; [done|]. intros Hall. exfalso.
      apply (Hall k); [by eapply dict_get_Some_value|].
      by rewrite (Hkeys _ _ Hget).
    + split.
      * intros Hnone kit Hkit%list_elem_of_In.
        by apply String.eqb_neq, (find_none _ _ Hnone).
      * intros Hall. destruct (List.find _ _) as [kit|] eqn:Hfind; [|done].
        apply find_some in Hfind as [Hkit Heq%String.eqb_eq].
        by apply list_elem_of_In, Hall in Hkit.
  - intros kit Hget. rewrite Hget. split; [done|].
    unfold Catalog.resolve_kit. rewrite Hget. by eexists.
Qed.

(** ** Starter kits *)

Lemma appends_ok (P : Issue.t → Prop) (res res' : ValidationResult.t) :
  Accounting.appends P res res' →
  ValidationResult.ok res' = true → ValidationResult.ok res = true.
Proof.
  intros (extra & Hissues & _) Hok. unfold ValidationResult.ok in *.
  rewrite Hissues, existsb_app in Hok.
  by destruct (existsb Issue.is_error (ValidationResult.issues res)).
Qed.

Lemma appends_for_each {A} (P : Issue.t → Prop)
    (step : ValidationResult.t → A → result ValidationResult.t)
    (l : list A) :
  (∀ res x res', step res x = Ok res' → Accounting.appends P res res') →
  ∀ res res', for_each step l res = Ok res' → Accounting.appends P res res'.
Proof.
  intros Hstep res res' Hrun.
  eapply (for_each_invariant (Accounting.appends P res) step l);
    [|exact Hrun|apply appends_refl].
  intros s x s' _ Hx Hs. eapply appends_trans; [done|by eapply Hstep].
Qed.

Section kits.
Context `{Libraries}.

#[local] Abbreviation any := (fun _ : Issue.t => True).

Lemma check_references_appends (kind rel_path : string)
    (available : gset string) (references : pyval)
    (res res' : ValidationResult.t) :
  Kits.check_references kind rel_path available references res = Ok res' →
  Accounting.appends any res res'.
Proof.
  unfold Kits.check_references.
  destruct (iterate references) as [entries|]; cbn [bind]; [|done].
  apply appends_for_each. intros r0 ref r1.
  destruct (Kits.strip_reference ref) as [clean|]; cbn [bind]; [|done].
  intros [= <-]. case_bool_decide; [apply appends_refl|by apply appends_one].
Qed.

Lemma validate_kit_file_counts (available_prompts : gset string)
    (available_instructions : gset string)
    (res res' : ValidationResult.t) (f : File) :
  Str.endswith (f_name f) ".yaml" = true →
  Kits.validate_kit_file available_prompts available_instructions res f
  = Ok res' →
  ValidationResult.files_checked res' = S (ValidationResult.files_checked res)
  ∧ (ValidationResult.files_passed res ≤ ValidationResult.files_checked res
     ∧ (ValidationResult.ok res = true →
        ValidationResult.files_passed res
        = ValidationResult.files_checked res) →
     ValidationResult.files_passed res' ≤ ValidationResult.files_checked res'
     ∧ (ValidationResult.ok res' = true →
        ValidationResult.files_passed res'
        = ValidationResult.files_checked res')).
Proof.
  intros Hyaml. unfold Kits.validate_kit_file.
  destruct (String.eqb (f_name f) "README.md") eqn:Hname.
  { apply String.eqb_eq in Hname. by rewrite Hname in Hyaml. }
  assert (∀ file message,
            let res' := ValidationResult.append (Issue.error file message)
                          (ValidationResult.checked res) in
            ValidationResult.files_checked res'
            = S (ValidationResult.files_checked res)
            ∧ (ValidationResult.files_passed res
               ≤ ValidationResult.files_checked res
               ∧ (ValidationResult.ok res = true →
                  ValidationResult.files_passed res
                  = ValidationResult.files_checked res) →
               ValidationResult.files_passed res'
               ≤ ValidationResult.files_checked res'
               ∧ (ValidationResult.ok res' = true →
                  ValidationResult.files_passed res'
                  = ValidationResult.files_checked res'))) as Herror.
  { intros file message res0. subst res0. rewrite ok_append_error. simpl.
    split; [done|]. intros [Hle _]. split; [lia|done]. }
  destruct (yaml_safe_load (f_text f)) as [[| | | | |data]|[]];
    try done; try (intros [= <-]; apply Herror).
  set (rel_path := "starter-kits/" +:+ f_name f).
  assert (Accounting.appends any (ValidationResult.checked res)
            (foldl (Kits.check_required rel_path data)
                   (ValidationResult.checked res)
                   ["id"; "name"; "description"; "prompts"; "instructions"]))
    as Hrequired.
  { apply appends_foldl. intros r0 field. unfold Kits.check_required.
    destruct (Dict.mem field data); [apply appends_refl|by apply appends_one]. }
  set (res1 := foldl _ _ _) in *.
  destruct (Kits.check_references "prompt" _ _ _ res1) as [res2|] eqn:H2;
    cbn [bind]; [|done].
  destruct (Kits.check_references "instruction" _ _ _ res2) as [res3|] eqn:H3;
    cbn [bind]; [|done].
  apply check_references_appends in H2, H3.
  pose proof (appends_trans _ _ _ _ Hrequired (appends_trans _ _ _ _ H2 H3))
    as Hall.
  pose proof (appends_ok _ _ _ Hall) as Hok.
  destruct Hall as (extra & _ & _ & Hc & Hp). simpl in Hc, Hp.
  change (ValidationResult.ok (ValidationResult.checked res))
    with (ValidationResult.ok res) in Hok.
  intros [= <-].
  destruct (ValidationResult.no_error_for rel_path res3) eqn:Hno; simpl.
  - change (ValidationResult.ok (ValidationResult.passed res3))
      with (ValidationResult.ok res3).
    rewrite Hc, Hp. split; [done|]. intros [Hle Hres]. split; [lia|].
    intros Hok3. rewrite Hres; [done|by apply Hok].
  - apply no_error_for_ok in Hno. rewrite Hc, Hp, Hno.
    split; [done|]. intros [Hle _]. split; [lia|done].
Qed.

Lemma scan_prompt_file_counts (dir_name : string)
    (state state' : gset string * ValidationResult.t) (f : File) :
  Kits.scan_prompt_file dir_name state f = Ok state' →
  ValidationResult.files_checked state'.2
  = ValidationResult.files_checked state.2
  ∧ ValidationResult.files_passed state'.2
    = ValidationResult.files_passed state.2.
Proof.
  unfold Kits.scan_prompt_file. destruct state as [available res].
  destruct (yaml_safe_load (f_text f)) as [data|[]]; try done;
    [|by intros [= <-]].
  destruct (truthy data); [|by intros [= <-]].
  destruct (py_in _ data) as [[]|]; cbn [bind]; try done;
    [|by intros [= <-]].
  destruct (subscript data "id") as [id|]; cbn [bind]; [|done].
  destruct (hashable id); [|done]. by intros [= <-].
Qed.

(** X23.  When [validate_kits] returns, its counters agree with its
    issues: without a kit directory nothing is checked and the single
    issue is the missing directory; otherwise every [.yaml] file of the
    directory is checked, no more files have passed than were checked,
    and a result without error has passed them all.  (An error on a
    prompt file met while the identifiers are gathered stands in the
    result without failing any kit.) *)
Theorem validate_kits_accounting (r : Root) (res : ValidationResult.t) :
  Kits.validate_kits r = Ok res →
  ValidationResult.files_passed res ≤ ValidationResult.files_checked res
  ∧ (ValidationResult.ok res = true →
     ValidationResult.files_passed res = ValidationResult.files_checked res)
  ∧ (∀ kits, kits_dir r = Some kits →
       ValidationResult.files_checked res
       = length (sorted_glob ".yaml" kits))
  ∧ (kits_dir r = None →
     res = {| ValidationResult.issues :=
                [Issue.error "starter-kits/"
                             "Starter kits directory not found"];
              ValidationResult.files_checked := 0;
              ValidationResult.files_passed := 0 |}).
Proof.
  unfold Kits.validate_kits.
  destruct (kits_dir r) as [kits|]; [|by intros [= <-]].
  destruct (for_each (Kits.scan_prompt_dir r) PROMPT_DIRS
              (∅, ValidationResult.empty))
    as [[available res0]|] eqn:Hscan; cbn [bind]; [|done].
  assert (ValidationResult.files_checked res0 = 0
          ∧ ValidationResult.files_passed res0 = 0) as [Hc0 Hp0].
  { apply (for_each_invariant
             (fun state : gset string * ValidationResult.t =>
                ValidationResult.files_checked state.2 = 0
                ∧ ValidationResult.files_passed state.2 = 0)
             _ _) with (s' := (available, res0)) in Hscan; [done| |done].
    intros state dir_name state' _ Hdir Hstate.
    unfold Kits.scan_prompt_dir in Hdir.
    destruct (prompt_dir r dir_name) as [dir|]; [|by injection Hdir as <-].
    apply (for_each_invariant
             (fun state : gset string * ValidationResult.t =>
                ValidationResult.files_checked state.2 = 0
                ∧ ValidationResult.files_passed state.2 = 0)
             _ _) with (s' := state') in Hdir; [done| |done].
    intros s f s' _ Hf [Hc Hp].
    apply scan_prompt_file_counts in Hf as [-> ->]. done. }
  intros Hrun.
  assert (ValidationResult.files_passed res
          ≤ ValidationResult.files_checked res
          ∧ (ValidationResult.ok res = true →
             ValidationResult.files_passed res
             = ValidationResult.files_checked res)) as [Hle Hok].
  { eapply (for_each_invariant
              (fun res => ValidationResult.files_passed res
                          ≤ ValidationResult.files_checked res
                          ∧ (ValidationResult.ok res = true →
                             ValidationResult.files_passed res
                             = ValidationResult.files_checked res)));
      [|exact Hrun|rewrite Hc0, Hp0; by split].
    intros s f s' [Hyaml _]%elem_of_sorted_glob Hstep.
    by eapply (validate_kit_file_counts _ _ s s' f Hyaml). }
  split; [done|]. split; [done|]. split; [|done].
  intros kits' [= <-].
  eapply (for_each_count ValidationResult.files_checked) in Hrun;
    [rewrite Hrun, Hc0; done|].
  intros s f s' [Hyaml _]%elem_of_sorted_glob Hstep.
  by eapply (validate_kit_file_counts _ _ s s' f Hyaml).
Qed.
End kits.

Lemma validate_kits_accounting_witness :
  ∃ res,
    Kits.validate_kits (H := Fixture.libraries) Sample.kit_root = Ok res
    ∧ ValidationResult.files_checked res = 1
    ∧ ValidationResult.files_passed res ≤ ValidationResult.files_checked res.
Proof.
  eexists. split; [vm_compute; reflexivity|]. split; [reflexivity|].
  eapply (validate_kits_accounting (H := Fixture.libraries) Sample.kit_root).
  vm_compute. reflexivity.
Defined.

(** ** References to instructions *)

Lemma has_char_append (c : ascii) (a b : string) :
  has_char c (a +:+ b) = has_char c a || has_char c b.
Proof.
  induction a as [|x a IH]; [done|].
  change (String x a +:+ b) with (String x (a +:+ b)).
  cbn [has_char]. by rewrite IH, orb_assoc.
Qed.

Lemma has_char_lstrip (c : ascii) (s : string) :
  has_char c (Str.lstrip s) = true → has_char c s = true.
Proof.
  induction s as [|x s IH]; [done|]. cbn [Str.lstrip].
  destruct (Str.is_space x); [|done].
  intros Hs%IH. cbn [has_char]. by rewrite Hs, orb_true_r.
Qed.

Lemma has_char_rstrip (c : ascii) (s : string) :
  has_char c (Str.rstrip s) = true → has_char c s = true.
Proof.
  induction s as [|x s IH]; [done|]. cbn [Str.rstrip].
  destruct (Str.rstrip s) as [|y r'] eqn:Hr.
  - destruct (Str.is_space x); [done|].
    cbn [has_char]. rewrite orb_false_r. by intros ->.
  - cbn [has_char] in *. intros [->|Hy]%orb_true_iff; [done|].
    rewrite IH by done. apply orb_true_r.
Qed.

Lemma has_char_substring (c : ascii) (i n : nat) (s : string) :
  has_char c (String.substring i n s) = true → has_char c s = true.
Proof.
  revert i n. induction s as [|x s IH]; intros i n.
  - by destruct i, n.
  - destruct i as [|i].
    + destruct n as [|n]; [done|]. cbn [String.substring has_char].
      intros [->|Hs]%orb_true_iff; [done|].
      rewrite (IH 0 n) by done. apply orb_true_r.
    + cbn [String.substring has_char]. intros Hs%IH.
      by rewrite Hs, orb_true_r.
Qed.

Lemma has_char_path_stem (c : ascii) (name : string) :
  has_char c (path_stem name) = true → has_char c name = true.
Proof.
  unfold path_stem. destruct (rfind_dot name) as [i|]; [|done].
  destruct (_ && _); [|done]. apply has_char_substring.
Qed.

Lemma omap_all_None {A B} (f : A → option B) (l : list A) :
  (∀ x, x ∈ l → f x = None) → omap f l = [].
Proof.
  induction l as [|x l IH]; intros Hl; [done|].
  cbn [omap list_omap]. rewrite (Hl x) by left.
  apply IH. intros y Hy. apply Hl. by right.
Qed.

Section references.
Context `{Libraries}.

Lemma from_path_stem_eq (scope path file_name text : string)
    (e : InstructionEntry.t) :
  InstructionEntry.from_path scope path file_name text = Ok e →
  InstructionEntry.stem e = path_stem file_name.
Proof.
  unfold InstructionEntry.from_path.
  destruct (if Str.startswith text "---" then _ else _)
    as [[name description]|]; simpl; [|done].
  by intros [= <-].
Qed.

Lemma available_instruction_reference (r : Root) (x : string) :
  x ∈ Kits.available_instructions r →
  ∃ scope f, x = Kits.instruction_reference scope f.
Proof.
  unfold Kits.available_instructions.
  assert (∀ scope (l : list File) (acc : gset string),
            x ∈ foldl (fun available f =>
                         available ∪ {[Kits.instruction_reference scope f]})
                      acc l →
            x ∈ acc ∨ ∃ f, x = Kits.instruction_reference scope f) as Hdir.
  { intros scope l. induction l as [|f l IH]; intros acc; cbn [foldl];
      [by left|].
    intros [[Hx|Hx%elem_of_singleton]%elem_of_union|?]%IH;
      [by left|right; by exists f|by right]. }
  assert (∀ (scopes : list string) (acc : gset string),
            x ∈ foldl (fun available scope =>
                         match instruction_dir r scope with
                         | None => available
                         | Some dir =>
                             foldl (fun available f =>
                                      available
                                      ∪ {[Kits.instruction_reference scope f]})
                                   available (Kits.glob ".instructions.md" dir)
                         end) acc scopes →
            x ∈ acc ∨ ∃ scope f, x = Kits.instruction_reference scope f)
    as Hscopes.
  { intros scopes. induction scopes as [|scope scopes IH]; intros acc;
      cbn [foldl]; [by left|].
    intros [Hx|?]%IH; [|by right].
    destruct (instruction_dir r scope) as [dir|]; [|by left].
    apply Hdir in Hx as [?|[f ?]]; [by left|right; by exists scope, f]. }
  intros [[]%elem_of_empty|?]%Hscopes. done.
Qed.

Lemma accepted_references (kind rel_path : string) (available : gset string)
    (refs : list string) (res res' : ValidationResult.t) :
  Kits.check_references kind rel_path available (PList (PStr <$> refs)) res
  = Ok res' →
  ValidationResult.issues res' = ValidationResult.issues res →
  ∀ iid, iid ∈ refs → Str.strip iid ∈ available.
Proof.
  unfold Kits.check_references. cbn [iterate bind].
  revert res. induction refs as [|ref refs IH]; intros res;
    [by intros _ _ ? ?%elem_of_nil|].
  rewrite fmap_cons. cbn [for_each Kits.strip_reference bind].
  case_bool_decide as Hin.
  - intros Hrun Hsame iid [->|Hiid]%elem_of_cons; [done|]. by eapply IH.
  - intros Hrun Hsame. exfalso.
    apply (appends_for_each (fun _ => True)) in Hrun
      as (extra & Hissues & _).
    + rewrite Hissues in Hsame. simpl in Hsame.
      apply (f_equal length) in Hsame. rewrite !length_app in Hsame.
      simpl in Hsame. lia.
    + intros r0 x r1. destruct (Kits.strip_reference x); cbn [bind]; [|done].
      intros [= <-]. case_bool_decide; [apply appends_refl|by apply appends_one].
Qed.

(** X24.  The kit validator and the kit resolver do not speak of the
    same instructions.  The validator accepts the references of the
    form scope, slash, name; the loaded catalog stores an instruction
    under the stem of its file, which holds no slash when no file name
    does.  So a reference that the validator accepts names no
    instruction of the loaded catalog, and [resolve_kit] returns no
    instruction for a kit whose references the validator accepts. *)
Theorem accepted_references_do_not_resolve (r : Root) :
  (∀ scope dir f, instruction_dir r scope = Some dir → f ∈ dir →
                  has_char "/" (f_name f) = false) →
  let c := Catalog.load r in
  (∀ iid, Str.strip iid ∈ Kits.available_instructions r →
          Dict.get iid (Catalog.instructions c) = None)
  ∧ (∀ rel_path refs res res',
       Kits.check_references "instruction" rel_path
         (Kits.available_instructions r) (PList (PStr <$> refs)) res
       = Ok res' →
       ValidationResult.issues res' = ValidationResult.issues res →
       ∀ iid, iid ∈ refs → Dict.get iid (Catalog.instructions c) = None)
  ∧ (∀ kit_id kit,
       Dict.get kit_id (Catalog.starter_kits c) = Some kit →
       (∀ iid, iid ∈ StarterKit.instructions kit →
               Str.strip iid ∈ Kits.available_instructions r) →
       ∃ prompts, Catalog.resolve_kit c kit_id = Ok (prompts, [])).
Proof.
  intros Hnames c.
  assert (∀ iid, Str.strip iid ∈ Kits.available_instructions r →
                 Dict.get iid (Catalog.instructions c) = None) as Hnone.
  { intros iid (scope & f & Href)%available_instruction_reference.
    destruct (Dict.get iid (Catalog.instructions c)) as [e|] eqn:Hget;
      [exfalso|done].
    assert (has_char "/" iid = true) as Hslash.
    { apply has_char_lstrip, has_char_rstrip.
      change (has_char "/" (Str.strip iid) = true). rewrite Href.
      unfold Kits.instruction_reference.
      rewrite !has_char_append. simpl. apply orb_true_r. }
    subst c. rewrite load_instructions_fill in Hget.
    apply (last_wins_keys InstructionEntry.stem _ _ (fill_last_wins _ _))
      in Hget as [<- He].
    apply parsed_instruction_from_path
      in He as (scope' & dir & f' & path & _ & Hdir & Hf' & _ & Hfrom).
    apply from_path_stem_eq in Hfrom. rewrite Hfrom in Hslash.
    apply has_char_path_stem in Hslash.
    by rewrite (Hnames scope' dir f' Hdir Hf') in Hslash. }
  split; [done|]. split.
  - intros rel_path refs res res' Hrun Hsame iid Hiid. apply Hnone.
    by eapply accepted_references.
  - intros kit_id kit Hkit Haccepted. unfold Catalog.resolve_kit.
    rewrite Hkit. eexists. f_equal. f_equal.
    apply omap_all_None. intros iid Hiid. by apply Hnone, Haccepted.
Qed.
End references.

Lemma accepted_references_do_not_resolve_witness :
  Dict.get "guardrails/g"
    (Catalog.instructions
       (Catalog.load (H := Fixture.libraries) Sample.kit_root)) = None.
Proof.
  destruct (accepted_references_do_not_resolve (H := Fixture.libraries)
              Sample.kit_root) as [Hnone _].
  - intros scope dir f Hdir Hf. simpl in Hdir.
    destruct (String.eqb scope "guardrails"); [|done].
    injection Hdir as <-. apply list_elem_of_singleton in Hf as ->.
    reflexivity.
  - apply Hnone. unfold Kits.available_instructions. simpl.
    apply elem_of_union_r, elem_of_singleton. vm_compute. reflexivity.
Defined.
